(** * CertificationService: workflow state machine and its in-memory store

    A shallow embedding of [src/api/models.py], [src/api/repository.py] and
    [src/api/service.py].

    Conventions of the embedding:
    - a Python [dict] keyed by strings is a [gmap string _];
    - [Optional[T]] is [option T];
    - a [datetime] is the number of microseconds since the epoch (the
      resolution of [datetime.utcnow()]), as a [Z];
    - a Python [float] is an IEEE-754 binary64 value ([spec_float] with
      precision 53 and [emax] 1024);
    - [datetime.utcnow()] reads an external clock: the clock is a function of
      the number of readings made so far, and the world state counts them;
    - the objects held by the repository are mutated in place by the service;
      the store below is the heap of these objects (see [World]). *)

From Stdlib Require Import ZArith String.
From Stdlib Require Import Floats.SpecFloat.
From stdpp Require Import gmap strings list fin_maps.

Open Scope Z_scope.
Open Scope string_scope.

(** ** models.py *)

Module CertificationStage.
Inductive t :=
| CODE_QUALITY | SECURITY | COMPLIANCE | FUNCTIONAL | E2E | SOAK | PERFORMANCE.

Definition value (s : t) : string :=
  match s with
  | CODE_QUALITY => "code_quality"
  | SECURITY => "security"
  | COMPLIANCE => "compliance"
  | FUNCTIONAL => "functional"
  | E2E => "e2e"
  | SOAK => "soak"
  | PERFORMANCE => "performance"
  end.

#[global] Instance eq_dec : EqDecision t.
Proof. solve_decision. Defined.
End CertificationStage.

Module Domain.
Inductive t := CORE | TRANSPORT | BANKING | HEALTHCARE.

Definition value (d : t) : string :=
  match d with
  | CORE => "core"
  | TRANSPORT => "transport"
  | BANKING => "banking"
  | HEALTHCARE => "healthcare"
  end.

#[global] Instance eq_dec : EqDecision t.
Proof. solve_decision. Defined.
End Domain.

Module StageStatus.
Inductive t := PENDING | RUNNING | SUCCEEDED | FAILED | SKIPPED | CANCELLED.

Definition value (s : t) : string :=
  match s with
  | PENDING => "pending"
  | RUNNING => "running"
  | SUCCEEDED => "succeeded"
  | FAILED => "failed"
  | SKIPPED => "skipped"
  | CANCELLED => "cancelled"
  end.

#[global] Instance eq_dec : EqDecision t.
Proof. solve_decision. Defined.
End StageStatus.

Module WorkflowStatus.
Inductive t := CREATED | QUEUED | RUNNING | PARTIAL | SUCCEEDED | FAILED | CANCELLED.

Definition value (s : t) : string :=
  match s with
  | CREATED => "created"
  | QUEUED => "queued"
  | RUNNING => "running"
  | PARTIAL => "partial"
  | SUCCEEDED => "succeeded"
  | FAILED => "failed"
  | CANCELLED => "cancelled"
  end.

#[global] Instance eq_dec : EqDecision t.
Proof. solve_decision. Defined.
End WorkflowStatus.

(** Microseconds since the epoch. *)
Definition datetime := Z.

(** IEEE-754 binary64. *)
Definition float := spec_float.

Module GitInfo.
Record t := mk {
  repository : string;
  folder : option string;
  branch : string;
  commit_sha : string;
  author : option string;
}.
End GitInfo.

Module NotificationConfig.
Record t := mk {
  webhook_url : option string;
  email : option string;
  slack_channel : option string;
  on_start : bool;
  on_finish : bool;
  on_failure : bool;
}.
End NotificationConfig.

Module WorkflowCreateRequest.
Record t := mk {
  git : GitInfo.t;
  domain : Domain.t;
  stages : option (list CertificationStage.t);
  metadata : option (gmap string string);
  notification : option NotificationConfig.t;
  correlate_run_id : option string;
}.
End WorkflowCreateRequest.

Module StageResult.
Record t := mk {
  stage : CertificationStage.t;
  status : StageStatus.t;
  started_at : option datetime;
  finished_at : option datetime;
  duration_ms : option Z;
  logs_url : option string;
  metrics : option (gmap string float);
  artifacts : option (gmap string string);
  error_message : option string;
  executor_ref : option string;
}.

(** Attribute assignment [sr.field = v]. *)
Definition set_status (v : StageStatus.t) (r : t) : t :=
  mk (stage r) v (started_at r) (finished_at r) (duration_ms r) (logs_url r)
     (metrics r) (artifacts r) (error_message r) (executor_ref r).
Definition set_started_at (v : option datetime) (r : t) : t :=
  mk (stage r) (status r) v (finished_at r) (duration_ms r) (logs_url r)
     (metrics r) (artifacts r) (error_message r) (executor_ref r).
Definition set_finished_at (v : option datetime) (r : t) : t :=
  mk (stage r) (status r) (started_at r) v (duration_ms r) (logs_url r)
     (metrics r) (artifacts r) (error_message r) (executor_ref r).
Definition set_duration_ms (v : option Z) (r : t) : t :=
  mk (stage r) (status r) (started_at r) (finished_at r) v (logs_url r)
     (metrics r) (artifacts r) (error_message r) (executor_ref r).
Definition set_logs_url (v : option string) (r : t) : t :=
  mk (stage r) (status r) (started_at r) (finished_at r) (duration_ms r) v
     (metrics r) (artifacts r) (error_message r) (executor_ref r).
Definition set_metrics (v : option (gmap string float)) (r : t) : t :=
  mk (stage r) (status r) (started_at r) (finished_at r) (duration_ms r)
     (logs_url r) v (artifacts r) (error_message r) (executor_ref r).
Definition set_artifacts (v : option (gmap string string)) (r : t) : t :=
  mk (stage r) (status r) (started_at r) (finished_at r) (duration_ms r)
     (logs_url r) (metrics r) v (error_message r) (executor_ref r).
Definition set_error_message (v : option string) (r : t) : t :=
  mk (stage r) (status r) (started_at r) (finished_at r) (duration_ms r)
     (logs_url r) (metrics r) (artifacts r) v (executor_ref r).
Definition set_executor_ref (v : option string) (r : t) : t :=
  mk (stage r) (status r) (started_at r) (finished_at r) (duration_ms r)
     (logs_url r) (metrics r) (artifacts r) (error_message r) v.
End StageResult.

Module Workflow.
Record t := mk {
  id : string;
  correlate_run_id : option string;
  git : GitInfo.t;
  domain : Domain.t;
  stages : list CertificationStage.t;
  status : WorkflowStatus.t;
  created_at : datetime;
  updated_at : datetime;
  stage_results : gmap string StageResult.t;
  metadata : gmap string string;
  notification : option NotificationConfig.t;
}.

Definition set_status (v : WorkflowStatus.t) (w : t) : t :=
  mk (id w) (correlate_run_id w) (git w) (domain w) (stages w) v
     (created_at w) (updated_at w) (stage_results w) (metadata w)
     (notification w).
Definition set_updated_at (v : datetime) (w : t) : t :=
  mk (id w) (correlate_run_id w) (git w) (domain w) (stages w) (status w)
     (created_at w) v (stage_results w) (metadata w) (notification w).
Definition set_stage_results (v : gmap string StageResult.t) (w : t) : t :=
  mk (id w) (correlate_run_id w) (git w) (domain w) (stages w) (status w)
     (created_at w) (updated_at w) v (metadata w) (notification w).
End Workflow.

Module WorkflowUpdateStatusRequest.
Record t := mk {
  stage : CertificationStage.t;
  status : StageStatus.t;
  logs_url : option string;
  metrics : option (gmap string float);
  artifacts : option (gmap string string);
  error_message : option string;
  executor_ref : option string;
}.
End WorkflowUpdateStatusRequest.

(** ** Python built-ins used by the service *)

(** Truthiness of an [Optional[str]]: [None] and the empty string are falsy. *)
Definition truthy_str (o : option string) : bool :=
  match o with
  | Some s => negb (String.eqb s "")
  | None => false
  end.

(** [any(p(r) for r in xs)] and [all(p(r) for r in xs)]. *)
Definition any {A} (p : A → bool) (xs : list A) : bool := existsb p xs.
Definition all {A} (p : A → bool) (xs : list A) : bool := forallb p xs.

(** [results.values()] *)
Definition values {A} (results : gmap string A) : list A :=
  (map_to_list results).*2.

(** Binary64 arithmetic of [int((b - a).total_seconds() * 1000)].
    [timedelta.total_seconds()] is the correctly rounded quotient of the
    microsecond count by [10**6]; the product with [1000] is rounded to
    nearest-even and [int] truncates toward zero.  The microsecond count
    between two [datetime]s converts to binary64 without rounding as long as
    it stays below 2^53 (some 285 years), and the product is always finite. *)
Definition b64_of_int (z : Z) : float := binary_normalize 53 1024 z 0 false.

Definition total_seconds (microseconds : Z) : float :=
  SFdiv 53 1024 (b64_of_int microseconds) (b64_of_int 1000000).

(** [int(f)] for a finite [f]. *)
Definition int_of_float (f : float) : Z :=
  match f with
  | S754_finite s m e =>
      let a := match e with
               | Z0 => Zpos m
               | Zpos p => Zpos m * 2 ^ Zpos p
               | Zneg p => Zpos m / 2 ^ Zpos p
               end in
      if s then - a else a
  | _ => 0
  end.

Definition elapsed_ms (started finished : datetime) : Z :=
  int_of_float (SFmul 53 1024 (total_seconds (finished - started)) (b64_of_int 1000)).

(** ** repository.py *)

Definition DEFAULT_STAGES_BY_DOMAIN (d : Domain.t) : list CertificationStage.t :=
  match d with
  | Domain.CORE =>
      [CertificationStage.CODE_QUALITY; CertificationStage.SECURITY;
       CertificationStage.FUNCTIONAL]
  | Domain.TRANSPORT =>
      [CertificationStage.CODE_QUALITY; CertificationStage.SECURITY;
       CertificationStage.FUNCTIONAL; CertificationStage.PERFORMANCE]
  | Domain.BANKING =>
      [CertificationStage.CODE_QUALITY; CertificationStage.SECURITY;
       CertificationStage.COMPLIANCE; CertificationStage.FUNCTIONAL;
       CertificationStage.E2E]
  | Domain.HEALTHCARE =>
      [CertificationStage.CODE_QUALITY; CertificationStage.SECURITY;
       CertificationStage.COMPLIANCE; CertificationStage.FUNCTIONAL;
       CertificationStage.SOAK]
  end.

(** [StageResult(stage=s, status=PENDING, started_at=None, finished_at=None)] *)
Definition new_stage_result (s : CertificationStage.t) : StageResult.t :=
  StageResult.mk s StageStatus.PENDING None None None None None None None None.

(** The dict comprehension [{s.value: StageResult(...) for s in stages}]:
    entries are inserted from left to right, a repeated stage overwrites its
    own entry. *)
Definition init_stage_results (stages : list CertificationStage.t)
  : gmap string StageResult.t :=
  foldl (λ results s, <[CertificationStage.value s := new_stage_result s]> results)
        ∅ stages.

Definition compute_overall_status (results : gmap string StageResult.t)
  : WorkflowStatus.t :=
  let any_failed :=
    any (λ r, bool_decide (StageResult.status r = StageStatus.FAILED)) (values results) in
  let any_running :=
    any (λ r, bool_decide (StageResult.status r = StageStatus.RUNNING)) (values results) in
  let all_succeeded :=
    all (λ r, bool_decide (StageResult.status r = StageStatus.SUCCEEDED)) (values results) in
  let any_started :=
    any (λ r, bool_decide (StageResult.status r ∈
                [StageStatus.RUNNING; StageStatus.SUCCEEDED;
                 StageStatus.FAILED; StageStatus.SKIPPED])) (values results) in
  if any_failed then WorkflowStatus.FAILED
  else if all_succeeded && bool_decide (0 < size results)%nat then WorkflowStatus.SUCCEEDED
  else if any_running then WorkflowStatus.RUNNING
  else if any_started then WorkflowStatus.PARTIAL
  else WorkflowStatus.CREATED.

(** ** The world the service runs in

    [by_id] is [InMemoryWorkflowRepository._by_id].  The repository stores
    references: the [Workflow] returned by [get] is the very object held in
    the dict, and the service mutates it in place.  The map below is therefore
    the heap of workflow objects, one slot per identifier, and an attribute
    assignment on a fetched workflow is a write to its slot.  (The lock of the
    repository guards single dict operations only and has no counterpart
    here: every function below is one uninterrupted run of Python code
    between two [await]s.)

    [clock] is the sequence of values that successive calls of
    [datetime.utcnow()] return, [clock_reads] the number of calls made.

    [sent] collects the messages handed to [notifier.notify] together with a
    configuration, oldest first.  [exec_calls] counts the calls the execution
    client has answered. *)
Record World := mkWorld {
  by_id : gmap string Workflow.t;
  clock : nat → datetime;
  clock_reads : nat;
  sent : list string;
  exec_calls : nat;
}.

Definition set_by_id (m : gmap string Workflow.t) (w : World) : World :=
  mkWorld m (clock w) (clock_reads w) (sent w) (exec_calls w).

Definition utcnow (w : World) : datetime * World :=
  (clock w (clock_reads w),
   mkWorld (by_id w) (clock w) (S (clock_reads w)) (sent w) (exec_calls w)).

Definition answered (w : World) : World :=
  mkWorld (by_id w) (clock w) (clock_reads w) (sent w) (S (exec_calls w)).

(** [InMemoryWorkflowRepository.create], [get] and [update]. *)
Definition repo_create (wf : Workflow.t) (w : World) : World :=
  set_by_id (<[Workflow.id wf := wf]> (by_id w)) w.

Definition repo_get (workflow_id : string) (w : World) : option Workflow.t :=
  by_id w !! workflow_id.

Definition repo_update (wf : Workflow.t) (w : World) : World :=
  set_by_id (<[Workflow.id wf := wf]> (by_id w)) w.

(** A workflow fetched from slot [workflow_id] and mutated in place: the
    slot shows the new value at once. *)
Definition mutate_in_place (workflow_id : string) (wf : Workflow.t) (w : World) : World :=
  set_by_id (<[workflow_id := wf]> (by_id w)) w.

(** [NotificationClient.notify(config, message)], as the recording notifier
    of the test suite observes it. *)
Definition notify (config : option NotificationConfig.t) (message : string)
    (w : World) : World :=
  match config with
  | None => w
  | Some _ =>
      mkWorld (by_id w) (clock w) (clock_reads w) (sent w ++ [message]) (exec_calls w)
  end.

(** ** service.py *)

(** The outcome of [await exec_client.trigger_stage(...)]: the executor
    reference, or [str(exc)] of the exception it raised. *)
Inductive TriggerOutcome :=
| Returned (executor_ref : string)
| Raised (description : string).

(** An execution client, as a function of the number of calls it has
    already served and of the arguments of the call. *)
Definition ExecClient : Type :=
  nat → string → CertificationStage.t → GitInfo.t → gmap string string → TriggerOutcome.

(** [workflow_id[:8]] *)
Fixpoint str_take (n : nat) (s : string) : string :=
  match n, s with
  | S n', String c s' => String c (str_take n' s')
  | _, _ => ""
  end.

(** [ExecutionServiceClient.trigger_stage]: the placeholder shipped with the
    service. *)
Definition trigger_stage : ExecClient :=
  λ _ workflow_id stage _ _,
    Returned ("exec-" ++ str_take 8 workflow_id ++ "-" ++ CertificationStage.value stage).

(** [req.stages or DEFAULT_STAGES_BY_DOMAIN[req.domain]]: an absent and an
    empty list both select the defaults. *)
Definition resolve_stages (req : WorkflowCreateRequest.t) : list CertificationStage.t :=
  match WorkflowCreateRequest.stages req with
  | Some (s :: rest) => s :: rest
  | _ => DEFAULT_STAGES_BY_DOMAIN (WorkflowCreateRequest.domain req)
  end.

Definition on_start_requested (n : option NotificationConfig.t) : bool :=
  match n with
  | Some c => NotificationConfig.on_start c
  | None => false
  end.

Definition on_finish_requested (n : option NotificationConfig.t) : bool :=
  match n with
  | Some c => NotificationConfig.on_finish c
  | None => false
  end.

(** [create_workflow], up to the point where the advancement task is
    scheduled.  [new_id] is the value of [new_workflow_id()]. *)
Definition create_workflow (req : WorkflowCreateRequest.t) (new_id : string)
    (w : World) : Workflow.t * World :=
  let stages := resolve_stages req in
  let '(t_created, w) := utcnow w in
  let '(t_updated, w) := utcnow w in
  let wf :=
    Workflow.mk new_id
      (WorkflowCreateRequest.correlate_run_id req)
      (WorkflowCreateRequest.git req)
      (WorkflowCreateRequest.domain req)
      stages
      WorkflowStatus.CREATED
      t_created
      t_updated
      (init_stage_results stages)
      (default ∅ (WorkflowCreateRequest.metadata req))
      (WorkflowCreateRequest.notification req) in
  let w := repo_create wf w in
  let w :=
    if on_start_requested (WorkflowCreateRequest.notification req)
    then notify (WorkflowCreateRequest.notification req)
           ("Workflow " ++ Workflow.id wf ++ " created for "
              ++ GitInfo.repository (WorkflowCreateRequest.git req) ++ "@"
              ++ GitInfo.commit_sha (WorkflowCreateRequest.git req)) w
    else w in
  (wf, w).

(** *** The advancement sequence, [_kickoff_stages]

    The coroutine is cut at its [await]s into pieces that run without
    interruption.  Each piece is a function of the workflow object [wf] held
    by the task (the object in slot [workflow_id]) and of the world. *)

(** [self.repo.update(wf)] for the object the task holds. *)
Definition persist (wf : Workflow.t) (w : World) : Workflow.t * World :=
  (wf, repo_update wf w).

(** Lines 117-119: [wf.status = QUEUED], time stamp, persist. *)
Definition mark_queued (wf : Workflow.t) (w : World) : Workflow.t * World :=
  let wf := Workflow.set_status WorkflowStatus.QUEUED wf in
  let '(t, w) := utcnow w in
  let wf := Workflow.set_updated_at t wf in
  persist wf w.

(** Lines 153-155 (and 128-130): recompute the overall status, time stamp,
    persist. *)
Definition recompute_and_persist (wf : Workflow.t) (w : World) : Workflow.t * World :=
  let wf := Workflow.set_status (compute_overall_status (Workflow.stage_results wf)) wf in
  let '(t, w) := utcnow w in
  let wf := Workflow.set_updated_at t wf in
  persist wf w.

(** Assignments to the attributes of [sr], the object bound to [s.value] in
    [wf.stage_results].  [sr] is fetched once per iteration (line 124) and
    stays bound to that key: nothing unbinds a key, and [update_stage_status]
    rebinds a bound key to the object it finds there.  So the assignments
    after an [await] act on the entry of the dict, and the re-binding
    [wf.stage_results[s.value] = sr] changes nothing. *)
Definition assign_sr (s : CertificationStage.t) (f : StageResult.t → StageResult.t)
    (wf : Workflow.t) : Workflow.t :=
  Workflow.set_stage_results
    (alter f (CertificationStage.value s) (Workflow.stage_results wf)) wf.

(** Lines 124-130.  [None] is the [KeyError] of [wf.stage_results[s.value]]. *)
Definition mark_running (s : CertificationStage.t) (wf : Workflow.t) (w : World)
  : option (Workflow.t * World) :=
  match Workflow.stage_results wf !! CertificationStage.value s with
  | None => None
  | Some _ =>
      let wf := assign_sr s (StageResult.set_status StageStatus.RUNNING) wf in
      let '(t, w) := utcnow w in
      let wf := assign_sr s (StageResult.set_started_at (Some t)) wf in
      Some (recompute_and_persist wf w)
  end.

(** Line 136, after [trigger_stage] has returned. *)
Definition record_executor_ref (s : CertificationStage.t) (executor_ref : string)
    (wf : Workflow.t) (w : World) : Workflow.t * World :=
  (assign_sr s (StageResult.set_executor_ref (Some executor_ref)) wf, w).

(** Lines 139-146, after the simulated execution delay.  The duration is
    [int((sr.finished_at - sr.started_at).total_seconds() * 1000)
     if sr.started_at else None]. *)
Definition stage_succeeded (s : CertificationStage.t) (wf : Workflow.t) (w : World)
  : Workflow.t * World :=
  let wf := assign_sr s (StageResult.set_status StageStatus.SUCCEEDED) wf in
  let '(t, w) := utcnow w in
  let wf := assign_sr s (StageResult.set_finished_at (Some t)) wf in
  let wf :=
    assign_sr s
      (λ sr, StageResult.set_duration_ms
               (match StageResult.started_at sr with
                | Some t0 => Some (elapsed_ms t0 t)
                | None => None
                end) sr) wf in
  (wf, w).

(** Lines 148-151, the handler of [except Exception as exc]. *)
Definition stage_failed (s : CertificationStage.t) (description : string)
    (wf : Workflow.t) (w : World) : Workflow.t * World :=
  let wf := assign_sr s (StageResult.set_status StageStatus.FAILED) wf in
  let wf := assign_sr s (StageResult.set_error_message (Some description)) wf in
  let '(t, w) := utcnow w in
  let wf := assign_sr s (StageResult.set_finished_at (Some t)) wf in
  (wf, w).

(** ["True"] or ["False"], as an f-string prints a [bool]. *)
Definition str_of_bool (b : bool) : string := if b then "True" else "False".

(** Lines 158-163. *)
Definition notify_finish (wf : Workflow.t) (w : World) : World :=
  if on_finish_requested (Workflow.notification wf)
  then
    let ok := bool_decide (Workflow.status wf = WorkflowStatus.SUCCEEDED) in
    notify (Workflow.notification wf)
      ("Workflow " ++ Workflow.id wf ++ " finished with status="
         ++ WorkflowStatus.value (Workflow.status wf) ++ ". ok=" ++ str_of_bool ok) w
  else w.

(** [await self.exec_client.trigger_stage(wf.id, s, wf.git, wf.metadata)] *)
Definition call_trigger (exec_client : ExecClient) (s : CertificationStage.t)
    (wf : Workflow.t) (w : World) : TriggerOutcome * World :=
  (exec_client (exec_calls w) (Workflow.id wf) s (Workflow.git wf) (Workflow.metadata wf),
   answered w).

(** What the handling of one outcome does to the task's workflow: lines
    136-146 or 148-151, then 153-155. *)
Definition settle_stage (s : CertificationStage.t) (o : TriggerOutcome)
    (wf : Workflow.t) (w : World) : Workflow.t * World :=
  let '(wf, w) :=
    match o with
    | Returned executor_ref =>
        let '(wf, w) := record_executor_ref s executor_ref wf w in
        stage_succeeded s wf w
    | Raised description => stage_failed s description wf w
    end in
  recompute_and_persist wf w.

(** The [for] loop of lines 122-155 when nothing else runs during its
    [await]s.  The boolean tells whether the loop ran to its end ([false]: a
    [KeyError] left the coroutine). *)
Fixpoint run_stages (exec_client : ExecClient) (stages : list CertificationStage.t)
    (wf : Workflow.t) (w : World) : bool * Workflow.t * World :=
  match stages with
  | [] => (true, wf, w)
  | s :: rest =>
      match mark_running s wf w with
      | None => (false, wf, w)
      | Some (wf, w) =>
          let '(o, w) := call_trigger exec_client s wf w in
          let '(wf, w) := settle_stage s o wf w in
          run_stages exec_client rest wf w
      end
  end.

(** [_kickoff_stages(workflow_id)], run without interleaving.  The workflow
    object is mutated in place: the slot [workflow_id] shows the final
    object. *)
Definition _kickoff_stages (exec_client : ExecClient) (workflow_id : string)
    (w : World) : bool * World :=
  match repo_get workflow_id w with
  | None => (true, w)
  | Some wf =>
      let '(wf, w) := mark_queued wf w in
      let '(completed, wf, w) := run_stages exec_client (Workflow.stages wf) wf w in
      let w := mutate_in_place workflow_id wf w in
      (completed, if completed then notify_finish wf w else w)
  end.

(** *** [update_stage_status] *)

(** The statuses that make [update_stage_status] stamp the finish time. *)
Definition is_terminal (st : StageStatus.t) : bool :=
  bool_decide (st ∈ [StageStatus.SUCCEEDED; StageStatus.FAILED;
                     StageStatus.SKIPPED; StageStatus.CANCELLED]).

(** Lines 220-245: the assignments to [sr]. *)
Definition apply_update (req : WorkflowUpdateStatusRequest.t) (sr : StageResult.t)
    (w : World) : StageResult.t * World :=
  let sr := StageResult.set_status (WorkflowUpdateStatusRequest.status req) sr in
  let sr :=
    if truthy_str (WorkflowUpdateStatusRequest.logs_url req)
    then StageResult.set_logs_url (WorkflowUpdateStatusRequest.logs_url req) sr
    else sr in
  let sr :=
    match WorkflowUpdateStatusRequest.metrics req with
    | Some m => StageResult.set_metrics (Some m) sr
    | None => sr
    end in
  let sr :=
    match WorkflowUpdateStatusRequest.artifacts req with
    | Some a => StageResult.set_artifacts (Some a) sr
    | None => sr
    end in
  let sr :=
    if truthy_str (WorkflowUpdateStatusRequest.error_message req)
    then StageResult.set_error_message (WorkflowUpdateStatusRequest.error_message req) sr
    else sr in
  let sr :=
    if truthy_str (WorkflowUpdateStatusRequest.executor_ref req)
    then StageResult.set_executor_ref (WorkflowUpdateStatusRequest.executor_ref req) sr
    else sr in
  let '(sr, w) :=
    if bool_decide (WorkflowUpdateStatusRequest.status req = StageStatus.RUNNING)
    then let '(t, w) := utcnow w in (StageResult.set_started_at (Some t) sr, w)
    else (sr, w) in
  if is_terminal (WorkflowUpdateStatusRequest.status req)
  then
    let '(t, w) := utcnow w in
    let sr := StageResult.set_finished_at (Some t) sr in
    let sr :=
      match StageResult.started_at sr with
      | Some t0 => StageResult.set_duration_ms (Some (elapsed_ms t0 t)) sr
      | None => sr
      end in
    (sr, w)
  else (sr, w).

(** Lines 217-219: the entry of the stage, or a fresh pending one. *)
Definition fetch_sr (req : WorkflowUpdateStatusRequest.t) (wf : Workflow.t)
  : StageResult.t :=
  match Workflow.stage_results wf
          !! CertificationStage.value (WorkflowUpdateStatusRequest.stage req) with
  | Some sr => sr
  | None => new_stage_result (WorkflowUpdateStatusRequest.stage req)
  end.

Definition update_stage_status (workflow_id : string)
    (req : WorkflowUpdateStatusRequest.t) (w : World) : option Workflow.t * World :=
  match repo_get workflow_id w with
  | None => (None, w)
  | Some wf =>
      let '(sr, w) := apply_update req (fetch_sr req wf) w in
      let wf :=
        Workflow.set_stage_results
          (<[CertificationStage.value (WorkflowUpdateStatusRequest.stage req) := sr]>
             (Workflow.stage_results wf)) wf in
      let '(wf, w) := recompute_and_persist wf w in
      (Some wf, mutate_in_place workflow_id wf w)
  end.

(** [get_workflow] *)
Definition get_workflow (workflow_id : string) (w : World) : option Workflow.t :=
  repo_get workflow_id w.

(** ** The service with its tasks

    [create_workflow] schedules [_kickoff_stages] as a task of the event
    loop; the task, further requests and the answers of the executor then
    interleave at the [await]s.  A state of the system is the world together
    with the control point of each advancement task. *)
Inductive Task :=
| Scheduled
    (* created by [asyncio.create_task], body not entered yet *)
| AwaitTrigger (s : CertificationStage.t) (rest : list CertificationStage.t)
    (* suspended in [await self.exec_client.trigger_stage(...)] for [s];
       [rest] is what the [for] loop has still to visit *)
| AwaitSleep (s : CertificationStage.t) (rest : list CertificationStage.t)
    (* suspended in [await asyncio.sleep(0.05)] of line 138 *)
| Finished
| Crashed.
    (* a [KeyError] left the coroutine *)

Record Sys := mkSys {
  world : World;
  tasks : gmap string Task;
}.

Inductive Event :=
| Create (req : WorkflowCreateRequest.t) (new_id : string)
    (* [create_workflow(req)], [new_workflow_id()] returning [new_id] *)
| Start (workflow_id : string)
    (* the event loop enters the task of [workflow_id] *)
| TriggerReturned (workflow_id : string) (executor_ref : string)
| TriggerRaised (workflow_id : string) (description : string)
| SleepDone (workflow_id : string)
| Update (workflow_id : string) (req : WorkflowUpdateStatusRequest.t).
    (* [update_stage_status(workflow_id, req)] *)

(** A piece of the task of [workflow_id] runs on the object in the slot and
    leaves its result there.  (The slot is bound from [create_workflow] on:
    the repository has no delete.) *)
Definition on_slot (workflow_id : string)
    (piece : Workflow.t → World → Workflow.t * World) (w : World) : World :=
  match by_id w !! workflow_id with
  | Some wf => let '(wf, w) := piece wf w in mutate_in_place workflow_id wf w
  | None => w
  end.

(** The head of the [for] loop: start the next stage and suspend in the
    executor call, or leave the loop and send the final notification. *)
Definition next_stage (workflow_id : string) (rest : list CertificationStage.t)
    (w : World) : Task * World :=
  match by_id w !! workflow_id with
  | None => (Finished, w)
  | Some wf =>
      match rest with
      | [] => (Finished, notify_finish wf w)
      | s :: rest' =>
          match mark_running s wf w with
          | Some (wf, w) => (AwaitTrigger s rest', mutate_in_place workflow_id wf w)
          | None => (Crashed, w)
          end
      end
  end.

Definition set_task (workflow_id : string) (tw : Task * World) (st : Sys) : Sys :=
  mkSys tw.2 (<[workflow_id := tw.1]> (tasks st)).

(** One event.  [None]: the event cannot happen in this state.  New
    identifiers are fresh ([uuid4]). *)
Definition step (e : Event) (st : Sys) : option Sys :=
  match e with
  | Create req new_id =>
      match by_id (world st) !! new_id with
      | Some _ => None
      | None =>
          let '(_, w) := create_workflow req new_id (world st) in
          Some (set_task new_id (Scheduled, w) st)
      end
  | Start workflow_id =>
      match tasks st !! workflow_id with
      | Some Scheduled =>
          match by_id (world st) !! workflow_id with
          | None => Some (set_task workflow_id (Finished, world st) st)
          | Some wf =>
              let w := on_slot workflow_id mark_queued (world st) in
              Some (set_task workflow_id (next_stage workflow_id (Workflow.stages wf) w) st)
          end
      | _ => None
      end
  | TriggerReturned workflow_id executor_ref =>
      match tasks st !! workflow_id with
      | Some (AwaitTrigger s rest) =>
          let w := on_slot workflow_id (record_executor_ref s executor_ref)
                     (answered (world st)) in
          Some (set_task workflow_id (AwaitSleep s rest, w) st)
      | _ => None
      end
  | SleepDone workflow_id =>
      match tasks st !! workflow_id with
      | Some (AwaitSleep s rest) =>
          let w := on_slot workflow_id (stage_succeeded s) (world st) in
          let w := on_slot workflow_id recompute_and_persist w in
          Some (set_task workflow_id (next_stage workflow_id rest w) st)
      | _ => None
      end
  | TriggerRaised workflow_id description =>
      match tasks st !! workflow_id with
      | Some (AwaitTrigger s rest) =>
          let w := on_slot workflow_id (stage_failed s description)
                     (answered (world st)) in
          let w := on_slot workflow_id recompute_and_persist w in
          Some (set_task workflow_id (next_stage workflow_id rest w) st)
      | _ => None
      end
  | Update workflow_id req =>
      Some (mkSys (update_stage_status workflow_id req (world st)).2 (tasks st))
  end.

(** A run: events from left to right. *)
Fixpoint run (es : list Event) (st : Sys) : option Sys :=
  match es with
  | [] => Some st
  | e :: es' =>
      match step e st with
      | Some st' => run es' st'
      | None => None
      end
  end.

(** The service right after start-up: empty repository, no task. *)
Definition boot (clock : nat → datetime) : Sys :=
  mkSys (mkWorld ∅ clock 0 [] 0) ∅.

Definition reachable (st : Sys) : Prop :=
  ∃ clock es, run es (boot clock) = Some st.

(** *** The run in which nothing interleaves

    The events of the task of [k] when it runs alone with [exec_client]:
    they are computed along the uninterrupted loop. *)
Fixpoint stage_events (exec_client : ExecClient) (k : string)
    (stages : list CertificationStage.t) (wf : Workflow.t) (w : World) : list Event :=
  match stages with
  | [] => []
  | s :: rest =>
      match mark_running s wf w with
      | None => []
      | Some (wf, w) =>
          let '(o, w) := call_trigger exec_client s wf w in
          let es :=
            match o with
            | Returned executor_ref => [TriggerReturned k executor_ref; SleepDone k]
            | Raised description => [TriggerRaised k description]
            end in
          let '(wf, w) := settle_stage s o wf w in
          es ++ stage_events exec_client k rest wf w
      end
  end.

Definition kickoff_events (exec_client : ExecClient) (k : string) (w : World)
  : list Event :=
  match repo_get k w with
  | None => [Start k]
  | Some wf =>
      let '(wf, w) := mark_queued wf w in
      Start k :: stage_events exec_client k (Workflow.stages wf) wf w
  end.

(** The system when the task of [k], holding [wf] in world [w], arrives at
    the head of the loop with [rest] still to visit. *)
Definition loop_state (k : string) (rest : list CertificationStage.t)
    (wf : Workflow.t) (w : World) (ts : gmap string Task) : Sys :=
  let tw := next_stage k rest (mutate_in_place k wf w) in
  mkSys tw.2 (<[k := tw.1]> ts).

(** ** The status aggregator as the specification words it

    §4.2: the precedence table, first match wins. *)
Definition has_status (st : StageStatus.t) (results : gmap string StageResult.t) : Prop :=
  ∃ k r, results !! k = Some r ∧ StageResult.status r = st.

Definition every_succeeded (results : gmap string StageResult.t) : Prop :=
  ∀ k r, results !! k = Some r → StageResult.status r = StageStatus.SUCCEEDED.

Definition has_started (results : gmap string StageResult.t) : Prop :=
  ∃ k r, results !! k = Some r ∧
         StageResult.status r ∈ [StageStatus.RUNNING; StageStatus.SUCCEEDED;
                                 StageStatus.FAILED; StageStatus.SKIPPED].

Inductive deriveStatus (results : gmap string StageResult.t) : WorkflowStatus.t → Prop :=
| derive_failed :
    has_status StageStatus.FAILED results →
    deriveStatus results WorkflowStatus.FAILED
| derive_succeeded :
    ¬ has_status StageStatus.FAILED results →
    every_succeeded results → results ≠ ∅ →
    deriveStatus results WorkflowStatus.SUCCEEDED
| derive_running :
    ¬ has_status StageStatus.FAILED results →
    ¬ (every_succeeded results ∧ results ≠ ∅) →
    has_status StageStatus.RUNNING results →
    deriveStatus results WorkflowStatus.RUNNING
| derive_partial :
    ¬ has_status StageStatus.FAILED results →
    ¬ (every_succeeded results ∧ results ≠ ∅) →
    ¬ has_status StageStatus.RUNNING results →
    has_started results →
    deriveStatus results WorkflowStatus.PARTIAL
| derive_created :
    ¬ has_status StageStatus.FAILED results →
    ¬ (every_succeeded results ∧ results ≠ ∅) →
    ¬ has_status StageStatus.RUNNING results →
    ¬ has_started results →
    deriveStatus results WorkflowStatus.CREATED.

(** ** The repository with its insertion order

    A Python [dict] iterates in insertion order, and [list] is the one
    operation of the repository that observes it.  Here the dict is the list
    of its items, oldest first; the map [by_id] of the world is what is left
    of it when the order is forgotten ([list_to_map]). *)

(** [d[k] = v]: an existing key keeps its place, a new key goes to the end. *)
Fixpoint dict_set {V} (k : string) (v : V) (d : list (string * V)) : list (string * V) :=
  match d with
  | [] => [(k, v)]
  | (k', v') :: d' =>
      if decide (k' = k) then (k, v) :: d' else (k', v') :: dict_set k v d'
  end.

(** [d.get(k)] *)
Fixpoint dict_get {V} (k : string) (d : list (string * V)) : option V :=
  match d with
  | [] => None
  | (k', v') :: d' => if decide (k' = k) then Some v' else dict_get k d'
  end.

(** [l[start:stop]] for integers of either sign: an index below zero counts
    from the end, and both indices are clipped to the list. *)
Definition slice_index (i n : Z) : Z :=
  if (i <? 0)%Z then Z.max (i + n) 0 else Z.min i n.

Definition slice {A} (l : list A) (start stop : Z) : list A :=
  let n := Z.of_nat (length l) in
  let a := slice_index start n in
  let b := slice_index stop n in
  take (Z.to_nat (b - a)) (drop (Z.to_nat a) l).

(** The keyword arguments of [InMemoryWorkflowRepository.list]. *)
Module ListQuery.
Record t := mk {
  script_path : option string;
  domain : option Domain.t;
  author : option string;
  branch : option string;
  commit : option string;
  stage : option CertificationStage.t;
  status : option string;
  limit : Z;
  offset : Z;
}.

(** The defaults: no filter, [limit=50], [offset=0]. *)
Definition default : t := mk None None None None None None None 50 0.
End ListQuery.

(** Truthiness of an optional member of a [str] enumeration: that of its
    value. *)
Definition truthy_domain (o : option Domain.t) : bool :=
  truthy_str (Domain.value <$> o).

Definition truthy_stage (o : option CertificationStage.t) : bool :=
  truthy_str (CertificationStage.value <$> o).

(** [match(w)] of [list].  [lower] is Python's [str.lower]. *)
Definition match_ (lower : string → string) (q : ListQuery.t) (w : Workflow.t) : bool :=
  if truthy_domain (ListQuery.domain q)
     && bool_decide (Some (Workflow.domain w) ≠ ListQuery.domain q)
  then false
  else if truthy_str (ListQuery.author q)
          && bool_decide (lower (default "" (GitInfo.author (Workflow.git w)))
                          ≠ lower (default "" (ListQuery.author q)))
  then false
  else if truthy_str (ListQuery.branch q)
          && bool_decide (Some (GitInfo.branch (Workflow.git w)) ≠ ListQuery.branch q)
  then false
  else if truthy_str (ListQuery.commit q)
          && bool_decide (Some (GitInfo.commit_sha (Workflow.git w)) ≠ ListQuery.commit q)
  then false
  else if truthy_str (ListQuery.status q)
          && bool_decide (Some (WorkflowStatus.value (Workflow.status w)) ≠ ListQuery.status q)
  then false
  else if truthy_str (ListQuery.script_path q)
          && bool_decide (Workflow.metadata w !! "script_path" ≠ ListQuery.script_path q)
  then false
  else if truthy_stage (ListQuery.stage q)
          && bool_decide (default "" (CertificationStage.value <$> ListQuery.stage q)
                          ∉ dom (Workflow.stage_results w))
  then false
  else true.

Module InMemoryWorkflowRepository.
(** [self._by_id[wf.id] = wf] *)
Definition create (wf : Workflow.t) (r : list (string * Workflow.t))
  : list (string * Workflow.t) :=
  dict_set (Workflow.id wf) wf r.

Definition get (workflow_id : string) (r : list (string * Workflow.t))
  : option Workflow.t :=
  dict_get workflow_id r.

Definition update (wf : Workflow.t) (r : list (string * Workflow.t))
  : list (string * Workflow.t) :=
  dict_set (Workflow.id wf) wf r.

(** [filtered[offset : offset + limit]] of the values that match. *)
Definition list (lower : string → string) (q : ListQuery.t)
    (r : Datatypes.list (string * Workflow.t)) : Datatypes.list Workflow.t :=
  slice (filter (λ w, match_ lower q w = true) r.*2)
    (ListQuery.offset q) (ListQuery.offset q + ListQuery.limit q)%Z.
End InMemoryWorkflowRepository.

(** [Domain(s)] and [CertificationStage(s)]: the member with value [s];
    [None] stands for the [ValueError] of a string that is no value. *)
Definition parse_domain (s : string) : option Domain.t :=
  find (λ d, bool_decide (Domain.value d = s))
    [Domain.CORE; Domain.TRANSPORT; Domain.BANKING; Domain.HEALTHCARE].

Definition parse_stage (s : string) : option CertificationStage.t :=
  find (λ c, bool_decide (CertificationStage.value c = s))
    [CertificationStage.CODE_QUALITY; CertificationStage.SECURITY;
     CertificationStage.COMPLIANCE; CertificationStage.FUNCTIONAL;
     CertificationStage.E2E; CertificationStage.SOAK; CertificationStage.PERFORMANCE].

(** The keyword arguments of [CertificationWorkflowService.list_workflows]:
    domain and stage come as strings. *)
Module ListRequest.
Record t := mk {
  script_path : option string;
  domain : option string;
  author : option string;
  branch : option string;
  commit : option string;
  stage : option string;
  status : option string;
  limit : Z;
  offset : Z;
}.
End ListRequest.

(** The result of [list_workflows]: the page, or the [ValueError] raised for
    the string that names no member. *)
Inductive Listing :=
| Listed (page : list Workflow.t)
| ValueError (value : string).

(** [dom = Domain(domain) if domain else None], likewise for the stage. *)
Definition optional_member {E} (parse : string → option E) (o : option string)
  : string + option E :=
  if truthy_str o
  then match parse (default "" o) with
       | Some e => inr (Some e)
       | None => inl (default "" o)
       end
  else inr None.

Definition list_workflows (lower : string → string) (a : ListRequest.t)
    (r : list (string * Workflow.t)) : Listing :=
  match optional_member parse_domain (ListRequest.domain a) with
  | inl bad => ValueError bad
  | inr dom =>
      match optional_member parse_stage (ListRequest.stage a) with
      | inl bad => ValueError bad
      | inr stg =>
          Listed
            (InMemoryWorkflowRepository.list lower
               (ListQuery.mk (ListRequest.script_path a) dom (ListRequest.author a)
                  (ListRequest.branch a) (ListRequest.commit a) stg
                  (ListRequest.status a) (ListRequest.limit a) (ListRequest.offset a))
               r)
      end
  end.

(** What [match] asks of a workflow, filter by filter. *)
Definition matches (lower : string → string) (q : ListQuery.t) (w : Workflow.t) : Prop :=
  (∀ d, ListQuery.domain q = Some d → Workflow.domain w = d)
  ∧ (∀ a, ListQuery.author q = Some a → a ≠ "" →
          lower (default "" (GitInfo.author (Workflow.git w))) = lower a)
  ∧ (∀ b, ListQuery.branch q = Some b → b ≠ "" → GitInfo.branch (Workflow.git w) = b)
  ∧ (∀ c, ListQuery.commit q = Some c → c ≠ "" → GitInfo.commit_sha (Workflow.git w) = c)
  ∧ (∀ s, ListQuery.status q = Some s → s ≠ "" →
          WorkflowStatus.value (Workflow.status w) = s)
  ∧ (∀ p, ListQuery.script_path q = Some p → p ≠ "" →
          Workflow.metadata w !! "script_path" = Some p)
  ∧ (∀ s, ListQuery.stage q = Some s →
          is_Some (Workflow.stage_results w !! CertificationStage.value s)).

(** The values of [r] that pass [match], in the order of [r]. *)
Definition matching (lower : string → string) (q : ListQuery.t)
    (r : list (string * Workflow.t)) : list Workflow.t :=
  filter (λ w, match_ lower q w = true) r.*2.

(** An optional string that a truthiness test takes for absent. *)
Definition absent_if_empty (o : option string) : option string :=
  if truthy_str o then o else None.

(** ** Sample data

    The requests of the test suite ([tests/test_service.py]). *)
Module Sample.
Definition git : GitInfo.t :=
  GitInfo.mk "git@example.com:org/repo.git" (Some "scripts/app") "main" "c1"
    (Some "alice").

(** A clock that advances by one millisecond between two readings. *)
Definition clock : nat → datetime := λ n, 1000 * Z.of_nat n.

Definition world : World := mkWorld ∅ clock 0 [] 0.

(** [build_create_request()] without notification: domain [core], no
    explicit stages. *)
Definition req_core : WorkflowCreateRequest.t :=
  WorkflowCreateRequest.mk git Domain.CORE None None None None.

(** A request for a single stage. *)
Definition req_one : WorkflowCreateRequest.t :=
  WorkflowCreateRequest.mk git Domain.CORE
    (Some [CertificationStage.CODE_QUALITY]) None None None.

(** A request for two stages. *)
Definition req_two : WorkflowCreateRequest.t :=
  WorkflowCreateRequest.mk git Domain.CORE
    (Some [CertificationStage.CODE_QUALITY; CertificationStage.SECURITY])
    None None None.

(** A status report without optional fields. *)
Definition report (s : CertificationStage.t) (st : StageStatus.t)
  : WorkflowUpdateStatusRequest.t :=
  WorkflowUpdateStatusRequest.mk s st None None None None None.

(** The world once [create_workflow(req)] has returned ["wf-1"]. *)
Definition created (req : WorkflowCreateRequest.t) : World :=
  (create_workflow req "wf-1" world).2.

(** An execution client whose first call raises [RuntimeError("boom")]
    and whose later calls succeed. *)
Definition boom_first : ExecClient :=
  λ n workflow_id stage git metadata,
    match n with
    | O => Raised "boom"
    | S _ => trigger_stage n workflow_id stage git metadata
    end.

(** The workflow in slot ["wf-1"]. *)
Definition wf_in (w : World) : Workflow.t :=
  default (create_workflow req_one "wf-1" world).1 (get_workflow "wf-1" w).

(** The single-stage workflow after its advancement sequence has run with
    the placeholder client: the stage has succeeded. *)
Definition done_one : World :=
  (_kickoff_stages trigger_stage "wf-1" (created req_one)).2.

(** A report carrying a link to the logs. *)
Definition report_logs (s : CertificationStage.t) (st : StageStatus.t)
    (logs_url : string) : WorkflowUpdateStatusRequest.t :=
  WorkflowUpdateStatusRequest.mk s st (Some logs_url) None None None None.

(** The single-stage workflow with a link to the logs on record. *)
Definition logged_one : World :=
  (update_stage_status "wf-1"
     (report_logs CertificationStage.CODE_QUALITY StageStatus.RUNNING "http://logs/1")
     (created req_one)).2.

(** The same report of [running] delivered once and twice. *)
Definition running_once : World :=
  (update_stage_status "wf-1"
     (report CertificationStage.CODE_QUALITY StageStatus.RUNNING)
     (created req_one)).2.

Definition running_twice : World :=
  (update_stage_status "wf-1"
     (report CertificationStage.CODE_QUALITY StageStatus.RUNNING)
     running_once).2.

(** An execution client that always raises [RuntimeError("boom")], as the
    patched client of [test_error_handling_when_execution_client_raises]. *)
Definition boom : ExecClient := λ _ _ _ _ _, Raised "boom".

(** The two-stage workflow after its advancement sequence has run with a
    client whose first call fails. *)
Definition failed_first : World :=
  (_kickoff_stages boom_first "wf-1" (created req_two)).2.

(** The single-stage workflow after its advancement sequence has run with
    the failing client. *)
Definition failed_one : World :=
  (_kickoff_stages boom "wf-1" (created req_one)).2.

(** The single-stage workflow with a report for a stage outside its plan. *)
Definition unplanned_report : World :=
  (update_stage_status "wf-1"
     (report CertificationStage.SECURITY StageStatus.RUNNING)
     (created req_one)).2.

(** The single-stage workflow reported [running] and then [failed] by the
    execution backend. *)
Definition reported_failed : World :=
  (update_stage_status "wf-1"
     (report CertificationStage.CODE_QUALITY StageStatus.FAILED)
     running_once).2.

(** The service after a run of events from start-up. *)
Definition after (es : list Event) : Sys := default (boot clock) (run es (boot clock)).

(** The two-stage workflow is created, its task starts, the executor call
    of the first stage fails. *)
Definition first_call_fails : list Event :=
  [Create req_two "wf-1"; Start "wf-1"; TriggerRaised "wf-1" "boom"].
End Sample.

(** Sample data for the listing ([tests/test_repository.py]). *)
Module SampleRepo.
(** [str.lower] on ASCII text. *)
Definition lower_ascii (c : Ascii.ascii) : Ascii.ascii :=
  let n := Ascii.nat_of_ascii c in
  if ((65 <=? n) && (n <=? 90))%nat then Ascii.ascii_of_nat (n + 32) else c.

Fixpoint lower (s : string) : string :=
  match s with
  | EmptyString => EmptyString
  | String c s' => String (lower_ascii c) (lower s')
  end.

(** The two workflows of [test_repository_filters_by_fields], [wf1] stored
    first. *)
Definition build_workflow (id_ : string) (domain : Domain.t) (author branch commit : string)
    (script_path : string) : Workflow.t :=
  let stages := [CertificationStage.CODE_QUALITY; CertificationStage.SECURITY] in
  Workflow.mk id_ None
    (GitInfo.mk "git@example.com:org/repo.git" (Some "scripts/app") branch commit
       (Some author))
    domain stages WorkflowStatus.CREATED 0 0 (init_stage_results stages)
    {["script_path" := script_path]} None.

Definition wf1 : Workflow.t :=
  build_workflow "wf1" Domain.CORE "alice" "main" "c1" "scripts/app".

Definition wf2 : Workflow.t :=
  build_workflow "wf2" Domain.TRANSPORT "bob" "dev" "c2" "scripts/other".

Definition repo : list (string * Workflow.t) :=
  InMemoryWorkflowRepository.create wf2 (InMemoryWorkflowRepository.create wf1 []).

(** A third workflow, not stored in [repo]. *)
Definition wf3 : Workflow.t :=
  build_workflow "wf3" Domain.CORE "carol" "main" "c3" "scripts/app".

Definition by_author (a : string) : ListQuery.t :=
  ListQuery.mk None None (Some a) None None None None 50 0.

Definition by_status (s : string) : ListQuery.t :=
  ListQuery.mk None None None None None None (Some s) 50 0.

Definition page (offset limit : Z) : ListQuery.t :=
  ListQuery.mk None None None None None None None limit offset.
End SampleRepo.

(** ** Vocabulary of the proofs *)

(** Two mappings with the same keys and, key by key, the same statuses. *)
Definition statuses_agree (m m' : gmap string StageResult.t) : Prop :=
  ∀ k, StageResult.status <$> m !! k = StageResult.status <$> m' !! k.

(** A duration is on record only next to a start and a finish time stamp. *)
Definition entry_sound (sr : StageResult.t) : Prop :=
  is_Some (StageResult.duration_ms sr) →
  is_Some (StageResult.started_at sr) ∧ is_Some (StageResult.finished_at sr).

Definition entries_sound (results : gmap string StageResult.t) : Prop :=
  ∀ k sr, results !! k = Some sr → entry_sound sr.

(** What a piece never touches: the identifier, the plan and the set of
    keys of [stage_results]; and what it keeps: sound entries. *)
Definition evolves (wf wf' : Workflow.t) : Prop :=
  Workflow.id wf' = Workflow.id wf
  ∧ Workflow.stages wf' = Workflow.stages wf
  ∧ Workflow.git wf' = Workflow.git wf
  ∧ Workflow.metadata wf' = Workflow.metadata wf
  ∧ dom (Workflow.stage_results wf') = dom (Workflow.stage_results wf)
  ∧ (entries_sound (Workflow.stage_results wf) →
     entries_sound (Workflow.stage_results wf')).

(** The entry of a stage once the outcome [o] of its executor call has been
    handled at time [t]. *)
Definition settled_entry (o : TriggerOutcome) (t : datetime) (sr : StageResult.t)
  : StageResult.t :=
  match o with
  | Returned executor_ref =>
      let sr := StageResult.set_executor_ref (Some executor_ref) sr in
      StageResult.set_duration_ms
        (match StageResult.started_at sr with
         | Some t0 => Some (elapsed_ms t0 t)
         | None => None
         end)
        (StageResult.set_finished_at (Some t)
           (StageResult.set_status StageStatus.SUCCEEDED sr))
  | Raised description =>
      StageResult.set_finished_at (Some t)
        (StageResult.set_error_message (Some description)
           (StageResult.set_status StageStatus.FAILED sr))
  end.

(** A stage that the sequence has taken through an executor call. *)
Definition attempted (r : StageResult.t) : Prop :=
  (StageResult.status r = StageStatus.SUCCEEDED ∨ StageResult.status r = StageStatus.FAILED)
  ∧ is_Some (StageResult.started_at r)
  ∧ is_Some (StageResult.finished_at r).

(** A stored workflow sits under its own identifier, plans at least one
    stage and has an entry for every planned stage. *)
Definition well_planned (k : string) (wf : Workflow.t) : Prop :=
  Workflow.id wf = k
  ∧ Workflow.stages wf ≠ []
  ∧ ∀ s, s ∈ Workflow.stages wf →
         is_Some (Workflow.stage_results wf !! CertificationStage.value s).

(** The stored overall status is the aggregate of the stored entries. *)
Definition consistent (wf : Workflow.t) : Prop :=
  Workflow.status wf = compute_overall_status (Workflow.stage_results wf).

(** A suspended task works on a bound entry and will only visit planned
    stages; no task has crashed. *)
Definition task_ok (t : Task) (wf : Workflow.t) : Prop :=
  match t with
  | AwaitTrigger s rest | AwaitSleep s rest =>
      is_Some (Workflow.stage_results wf !! CertificationStage.value s)
      ∧ ∀ s', s' ∈ rest → s' ∈ Workflow.stages wf
  | Crashed => False
  | Scheduled | Finished => True
  end.

(** What holds of the service between any two events. *)
Definition invariant (st : Sys) : Prop :=
  (∀ k wf, by_id (world st) !! k = Some wf → well_planned k wf ∧ consistent wf)
  ∧ (∀ k t, tasks st !! k = Some t →
            ∃ wf, by_id (world st) !! k = Some wf ∧ task_ok t wf).

(** The keys of [stage_results] of the workflow in slot [k] after event [e],
    given the workflow [wf] that the slot held before. *)
Definition keys_after (e : Event) (k : string) (wf : Workflow.t) : gset string :=
  match e with
  | Update k' req =>
      if decide (k' = k)
      then {[CertificationStage.value (WorkflowUpdateStatusRequest.stage req)]}
             ∪ dom (Workflow.stage_results wf)
      else dom (Workflow.stage_results wf)
  | _ => dom (Workflow.stage_results wf)
  end.

(** What an event of the task of [k] does: it replaces the object of slot
    [k] by one with the same plan and the same keys, in a consistent state,
    and leaves the task at a sound control point. *)
Definition task_event_effect (k : string) (st st' : Sys) : Prop :=
  ∃ wf wf' t',
    by_id (world st) !! k = Some wf
    ∧ by_id (world st') = <[k := wf']> (by_id (world st))
    ∧ evolves wf wf'
    ∧ consistent wf'
    ∧ tasks st' = <[k := t']> (tasks st)
    ∧ task_ok t' wf'.

(** The messages of the two f-strings handed to the notifier. *)
Definition created_message (wf : Workflow.t) : string :=
  "Workflow " ++ Workflow.id wf ++ " created for "
    ++ GitInfo.repository (Workflow.git wf) ++ "@" ++ GitInfo.commit_sha (Workflow.git wf).

Definition finished_message (wf : Workflow.t) : string :=
  "Workflow " ++ Workflow.id wf ++ " finished with status="
    ++ WorkflowStatus.value (Workflow.status wf) ++ ". ok="
    ++ str_of_bool (bool_decide (Workflow.status wf = WorkflowStatus.SUCCEEDED)).

(** The workflow an event is about. *)
Definition target (e : Event) : string :=
  match e with
  | Create _ new_id => new_id
  | Start k | TriggerReturned k _ | TriggerRaised k _ | SleepDone k | Update k _ => k
  end.

(** The sign of a binary64 number, where it has one. *)
Definition signed (sx : bool) (f : float) : Prop :=
  match f with
  | S754_nan => True
  | S754_zero s | S754_infinity s | S754_finite s _ _ => s = sx
  end.

(** What [create_workflow] fixes for good. *)
Definition request_data (wf : Workflow.t) :=
  (Workflow.id wf, Workflow.correlate_run_id wf, Workflow.git wf, Workflow.domain wf,
   Workflow.stages wf, Workflow.created_at wf, Workflow.metadata wf,
   Workflow.notification wf).

(** * Properties *)

(** ** Iterating over the values of a dict *)

Section Values.
Context {A : Type}.
Implicit Types (p : A → bool) (m : gmap string A).

Lemma elem_of_values m r : r ∈ values m ↔ ∃ k, m !! k = Some r.
Proof.
  unfold values. rewrite list_elem_of_fmap. split.
  - intros [[k r'] [-> Hin]]. exists k. by apply elem_of_map_to_list.
  - intros [k Hk]. exists (k, r). split; [done|]. by apply elem_of_map_to_list.
Qed.

Lemma any_values p m :
  any p (values m) = true ↔ ∃ k r, m !! k = Some r ∧ p r = true.
Proof.
  unfold any. rewrite existsb_exists. split.
  - intros [r [Hin Hp]]. apply list_elem_of_In, elem_of_values in Hin as [k Hk]. eauto.
  - intros (k & r & Hk & Hp). exists r. split; [|done].
    apply list_elem_of_In, elem_of_values. eauto.
Qed.

Lemma all_values p m :
  all p (values m) = true ↔ ∀ k r, m !! k = Some r → p r = true.
Proof.
  unfold all. rewrite forallb_forall. split.
  - intros H k r Hk. apply H, list_elem_of_In, elem_of_values. eauto.
  - intros H r Hin. apply list_elem_of_In, elem_of_values in Hin as [k Hk]. eauto.
Qed.

Lemma size_pos_nonempty m : (0 < size m)%nat ↔ m ≠ ∅.
Proof.
  rewrite <- map_size_non_empty_iff. lia.
Qed.
End Values.

(** ** The aggregator *)

Lemma any_failed_iff results :
  any (λ r, bool_decide (StageResult.status r = StageStatus.FAILED)) (values results) = true
  ↔ has_status StageStatus.FAILED results.
Proof.
  rewrite any_values. unfold has_status.
  split; intros (k & r & Hk & H); exists k, r; split; try done.
  - by apply bool_decide_eq_true in H.
  - by apply bool_decide_eq_true.
Qed.

Lemma any_running_iff results :
  any (λ r, bool_decide (StageResult.status r = StageStatus.RUNNING)) (values results) = true
  ↔ has_status StageStatus.RUNNING results.
Proof.
  rewrite any_values. unfold has_status.
  split; intros (k & r & Hk & H); exists k, r; split; try done.
  - by apply bool_decide_eq_true in H.
  - by apply bool_decide_eq_true.
Qed.

Lemma all_succeeded_iff results :
  all (λ r, bool_decide (StageResult.status r = StageStatus.SUCCEEDED)) (values results) = true
  ↔ every_succeeded results.
Proof.
  rewrite all_values. unfold every_succeeded.
  split; intros H k r Hk.
  - eapply bool_decide_eq_true_1, H, Hk.
  - eapply bool_decide_eq_true_2, H, Hk.
Qed.

Lemma any_started_iff results :
  any (λ r, bool_decide (StageResult.status r ∈
              [StageStatus.RUNNING; StageStatus.SUCCEEDED;
               StageStatus.FAILED; StageStatus.SKIPPED])) (values results) = true
  ↔ has_started results.
Proof.
  rewrite any_values. unfold has_started.
  split; intros (k & r & Hk & H); exists k, r; split; try done.
  - by apply bool_decide_eq_true in H.
  - by apply bool_decide_eq_true.
Qed.

Lemma deriveStatus_computed results :
  deriveStatus results (compute_overall_status results).
Proof.
  unfold compute_overall_status.
  pose proof (any_failed_iff results) as Hf.
  pose proof (all_succeeded_iff results) as Hs.
  pose proof (any_running_iff results) as Hr.
  pose proof (any_started_iff results) as Hp.
  pose proof (size_pos_nonempty results) as Hn.
  destruct (any (λ r, bool_decide (StageResult.status r = StageStatus.FAILED)) _).
  { apply derive_failed. by apply Hf. }
  assert (¬ has_status StageStatus.FAILED results) as Hnf.
  { rewrite <- Hf. congruence. }
  destruct (all (λ r, bool_decide (StageResult.status r = StageStatus.SUCCEEDED)) _).
  - case_bool_decide as Hsize; simpl.
    + apply derive_succeeded; [done| by apply Hs | by apply Hn].
    + assert (¬ (every_succeeded results ∧ results ≠ ∅)) as Hns by (rewrite <- Hn; tauto).
      destruct (any (λ r, bool_decide (StageResult.status r = StageStatus.RUNNING)) _).
      { apply derive_running; [done..|]. by apply Hr. }
      assert (¬ has_status StageStatus.RUNNING results) as Hnr by (rewrite <- Hr; congruence).
      destruct (any _ _).
      { apply derive_partial; [done..|]. by apply Hp. }
      apply derive_created; [done..|]. rewrite <- Hp. congruence.
  - simpl.
    assert (¬ (every_succeeded results ∧ results ≠ ∅)) as Hns.
    { rewrite <- Hs. intros [? _]. congruence. }
    destruct (any (λ r, bool_decide (StageResult.status r = StageStatus.RUNNING)) _).
    { apply derive_running; [done..|]. by apply Hr. }
    assert (¬ has_status StageStatus.RUNNING results) as Hnr by (rewrite <- Hr; congruence).
    destruct (any _ _).
    { apply derive_partial; [done..|]. by apply Hp. }
    apply derive_created; [done..|]. rewrite <- Hp. congruence.
Qed.

Lemma deriveStatus_functional results st1 st2 :
  deriveStatus results st1 → deriveStatus results st2 → st1 = st2.
Proof.
  intros H1 H2. destruct H1; inversion H2; subst; try done; tauto.
Qed.

Lemma compute_overall_status_failed results k r :
  results !! k = Some r → StageResult.status r = StageStatus.FAILED →
  compute_overall_status results = WorkflowStatus.FAILED.
Proof.
  intros Hk Hr.
  eapply deriveStatus_functional; [apply deriveStatus_computed |].
  apply derive_failed. by exists k, r.
Qed.

(** C2: the aggregator computes the status that the precedence table of §4.2
    assigns to the mapping, and no other; a failed entry alone forces
    [failed], whatever the other entries are. *)
Theorem compute_overall_status_precedence (results : gmap string StageResult.t) :
  (∀ st, deriveStatus results st ↔ compute_overall_status results = st)
  ∧ (∀ k r, results !! k = Some r → StageResult.status r = StageStatus.FAILED →
            compute_overall_status results = WorkflowStatus.FAILED).
Proof.
  split.
  - intros st. split.
    + intros H. eapply deriveStatus_functional; [apply deriveStatus_computed | done].
    + intros <-. apply deriveStatus_computed.
  - apply compute_overall_status_failed.
Qed.

Lemma compute_overall_status_precedence_witness :
  compute_overall_status
    (<["code_quality" :=
         StageResult.set_status StageStatus.FAILED
           (new_stage_result CertificationStage.CODE_QUALITY)]>
       (init_stage_results
          [CertificationStage.CODE_QUALITY; CertificationStage.SECURITY]))
  = WorkflowStatus.FAILED.
Proof.
  apply (proj2 (compute_overall_status_precedence _) "code_quality"
           (StageResult.set_status StageStatus.FAILED
              (new_stage_result CertificationStage.CODE_QUALITY))).
  - vm_compute. reflexivity.
  - reflexivity.
Defined.

(** ** Creation *)

Lemma init_stage_results_dom_acc stages (acc : gmap string StageResult.t) :
  dom (foldl (λ results s, <[CertificationStage.value s := new_stage_result s]> results)
         acc stages)
  = list_to_set (CertificationStage.value <$> stages) ∪ dom acc.
Proof.
  revert acc. induction stages as [|s rest IH]; intros acc; simpl.
  - set_solver.
  - rewrite IH, dom_insert_L. set_solver.
Qed.

Lemma init_stage_results_dom stages :
  dom (init_stage_results stages) = list_to_set (CertificationStage.value <$> stages).
Proof.
  unfold init_stage_results. rewrite init_stage_results_dom_acc. set_solver.
Qed.

Lemma init_stage_results_entry_acc stages (acc : gmap string StageResult.t) k r :
  foldl (λ results s, <[CertificationStage.value s := new_stage_result s]> results)
    acc stages !! k = Some r →
  acc !! k = Some r ∨ ∃ s, s ∈ stages ∧ k = CertificationStage.value s ∧ r = new_stage_result s.
Proof.
  revert acc. induction stages as [|s rest IH]; intros acc; simpl.
  - auto.
  - intros H. apply IH in H as [H | (s' & Hin & -> & ->)].
    + apply lookup_insert_Some in H as [[<- <-] | [_ H]].
      * right. exists s. split; [left | done].
      * by left.
    + right. exists s'. split; [by right | done].
Qed.

Lemma init_stage_results_entry stages k r :
  init_stage_results stages !! k = Some r →
  ∃ s, s ∈ stages ∧ k = CertificationStage.value s ∧ r = new_stage_result s.
Proof.
  intros H. apply init_stage_results_entry_acc in H as [H | H]; [|done].
  by rewrite lookup_empty in H.
Qed.

Lemma init_stage_results_planned stages s :
  s ∈ stages →
  ∃ r, init_stage_results stages !! CertificationStage.value s = Some r
       ∧ StageResult.status r = StageStatus.PENDING
       ∧ StageResult.started_at r = None
       ∧ StageResult.finished_at r = None.
Proof.
  intros Hin.
  assert (CertificationStage.value s ∈ dom (init_stage_results stages)) as Hd.
  { rewrite init_stage_results_dom, elem_of_list_to_set, list_elem_of_fmap. eauto. }
  apply elem_of_dom in Hd as [r Hr]. exists r. split; [done|].
  apply init_stage_results_entry in Hr as (s' & _ & _ & ->). done.
Qed.

Lemma create_workflow_eq req new_id w :
  ∃ t0 t1,
    let wf :=
      Workflow.mk new_id (WorkflowCreateRequest.correlate_run_id req)
        (WorkflowCreateRequest.git req) (WorkflowCreateRequest.domain req)
        (resolve_stages req) WorkflowStatus.CREATED t0 t1
        (init_stage_results (resolve_stages req))
        (default ∅ (WorkflowCreateRequest.metadata req))
        (WorkflowCreateRequest.notification req) in
    (create_workflow req new_id w).1 = wf
    ∧ by_id (create_workflow req new_id w).2 = <[new_id := wf]> (by_id w).
Proof.
  unfold create_workflow. simpl. eexists _, _. split; [reflexivity|].
  destruct (on_start_requested _); [|done].
  unfold notify. by destruct (WorkflowCreateRequest.notification req).
Qed.

(** C9: a request without a stage list yields, synchronously, a workflow
    whose planned stages are the defaults of its domain (for [core]:
    code-quality, security, functional), with one pending entry without time
    stamps per planned stage and overall status [created]; this workflow is
    the one stored under the new identifier. *)
Theorem create_workflow_default_stages
    (req : WorkflowCreateRequest.t) (new_id : string) (w : World) :
  WorkflowCreateRequest.stages req = None →
  let wf := (create_workflow req new_id w).1 in
  Workflow.stages wf = DEFAULT_STAGES_BY_DOMAIN (WorkflowCreateRequest.domain req)
  ∧ (WorkflowCreateRequest.domain req = Domain.CORE →
     Workflow.stages wf = [CertificationStage.CODE_QUALITY; CertificationStage.SECURITY;
                           CertificationStage.FUNCTIONAL])
  ∧ (∀ s, s ∈ Workflow.stages wf →
       ∃ r, Workflow.stage_results wf !! CertificationStage.value s = Some r
            ∧ StageResult.status r = StageStatus.PENDING
            ∧ StageResult.started_at r = None
            ∧ StageResult.finished_at r = None)
  ∧ dom (Workflow.stage_results wf)
    = list_to_set (CertificationStage.value <$> Workflow.stages wf)
  ∧ Workflow.status wf = WorkflowStatus.CREATED
  ∧ get_workflow new_id (create_workflow req new_id w).2 = Some wf.
Proof.
  intros Hnone wf.
  destruct (create_workflow_eq req new_id w) as (t0 & t1 & Hwf & Hstore).
  cbv zeta in Hwf, Hstore. subst wf. rewrite Hwf.
  cbn [Workflow.stages Workflow.stage_results Workflow.status].
  assert (resolve_stages req = DEFAULT_STAGES_BY_DOMAIN (WorkflowCreateRequest.domain req))
    as Hres by (unfold resolve_stages; by rewrite Hnone).
  split_and!.
  - done.
  - intros Hd. by rewrite Hres, Hd.
  - intros s Hs. by apply init_stage_results_planned.
  - apply init_stage_results_dom.
  - done.
  - unfold get_workflow, repo_get. rewrite Hstore. apply lookup_insert_eq.
Qed.

Lemma create_workflow_default_stages_witness :
  let wf := (create_workflow Sample.req_core "wf-1" Sample.world).1 in
  Workflow.stages wf = [CertificationStage.CODE_QUALITY; CertificationStage.SECURITY;
                        CertificationStage.FUNCTIONAL]
  ∧ Workflow.status wf = WorkflowStatus.CREATED.
Proof.
  pose proof (create_workflow_default_stages Sample.req_core "wf-1" Sample.world eq_refl)
    as (_ & Hcore & _ & _ & Hst & _).
  split; [apply Hcore; reflexivity | exact Hst].
Defined.

(** ** External stage updates *)

Ltac update_cases :=
  unfold apply_update, is_terminal, utcnow;
  repeat first
    [ progress simpl
    | case_bool_decide
    | match goal with
      | |- context [if truthy_str ?o then _ else _] => destruct (truthy_str o) eqn:?
      | |- context [match WorkflowUpdateStatusRequest.metrics ?r with _ => _ end] =>
          destruct (WorkflowUpdateStatusRequest.metrics r) eqn:?
      | |- context [match WorkflowUpdateStatusRequest.artifacts ?r with _ => _ end] =>
          destruct (WorkflowUpdateStatusRequest.artifacts r) eqn:?
      | |- context [match StageResult.started_at ?r with _ => _ end] =>
          destruct (StageResult.started_at r) eqn:?
      end ].

Lemma apply_update_stage req sr w :
  StageResult.stage (apply_update req sr w).1 = StageResult.stage sr.
Proof. update_cases; done. Qed.

Lemma apply_update_status req sr w :
  StageResult.status (apply_update req sr w).1 = WorkflowUpdateStatusRequest.status req.
Proof. update_cases; done. Qed.

Lemma apply_update_logs_url req sr w :
  StageResult.logs_url (apply_update req sr w).1
  = if truthy_str (WorkflowUpdateStatusRequest.logs_url req)
    then WorkflowUpdateStatusRequest.logs_url req else StageResult.logs_url sr.
Proof. update_cases; done. Qed.

Lemma apply_update_metrics req sr w :
  StageResult.metrics (apply_update req sr w).1
  = match WorkflowUpdateStatusRequest.metrics req with
    | Some m => Some m
    | None => StageResult.metrics sr
    end.
Proof. update_cases; done. Qed.

Lemma apply_update_artifacts req sr w :
  StageResult.artifacts (apply_update req sr w).1
  = match WorkflowUpdateStatusRequest.artifacts req with
    | Some a => Some a
    | None => StageResult.artifacts sr
    end.
Proof. update_cases; done. Qed.

Lemma apply_update_error_message req sr w :
  StageResult.error_message (apply_update req sr w).1
  = if truthy_str (WorkflowUpdateStatusRequest.error_message req)
    then WorkflowUpdateStatusRequest.error_message req else StageResult.error_message sr.
Proof. update_cases; done. Qed.

Lemma apply_update_executor_ref req sr w :
  StageResult.executor_ref (apply_update req sr w).1
  = if truthy_str (WorkflowUpdateStatusRequest.executor_ref req)
    then WorkflowUpdateStatusRequest.executor_ref req else StageResult.executor_ref sr.
Proof. update_cases; done. Qed.

Lemma apply_update_world req sr w :
  by_id (apply_update req sr w).2 = by_id w
  ∧ clock (apply_update req sr w).2 = clock w
  ∧ (clock_reads w ≤ clock_reads (apply_update req sr w).2)%nat.
Proof. update_cases; split_and!; (done || lia). Qed.

Lemma truthy_str_Some o : truthy_str o = true ↔ ∃ v, o = Some v ∧ v ≠ "".
Proof.
  destruct o as [v|]; simpl.
  - rewrite negb_true_iff, String.eqb_neq. naive_solver.
  - naive_solver.
Qed.

Lemma truthy_str_false o : truthy_str o = false ↔ o = None ∨ o = Some "".
Proof.
  destruct o as [v|]; simpl.
  - rewrite negb_false_iff, String.eqb_eq. naive_solver.
  - naive_solver.
Qed.

(** What a call that finds its workflow stores. *)
Lemma update_stage_status_found workflow_id req w wf :
  by_id w !! workflow_id = Some wf →
  ∃ wf',
    (update_stage_status workflow_id req w).1 = Some wf'
    ∧ by_id (update_stage_status workflow_id req w).2 !! workflow_id = Some wf'
    ∧ Workflow.stage_results wf'
      = <[CertificationStage.value (WorkflowUpdateStatusRequest.stage req)
          := (apply_update req (fetch_sr req wf) w).1]> (Workflow.stage_results wf)
    ∧ Workflow.status wf' = compute_overall_status (Workflow.stage_results wf')
    ∧ Workflow.stages wf' = Workflow.stages wf
    ∧ Workflow.id wf' = Workflow.id wf
    ∧ clock (update_stage_status workflow_id req w).2 = clock w
    ∧ clock_reads (update_stage_status workflow_id req w).2
      = S (clock_reads (apply_update req (fetch_sr req wf) w).2)
    ∧ by_id (update_stage_status workflow_id req w).2
      = <[workflow_id := wf']> (<[Workflow.id wf := wf']> (by_id w)).
Proof.
  intros Hwf. unfold update_stage_status, repo_get. rewrite Hwf.
  pose proof (apply_update_world req (fetch_sr req wf) w) as (Hby & Hclock & _).
  destruct (apply_update req (fetch_sr req wf) w) as [sr w1]. simpl in *.
  eexists. split; [reflexivity|]. split_and!; try done.
  - apply lookup_insert_eq.
  - by rewrite Hby.
Qed.

Lemma update_stage_status_absent workflow_id req w :
  by_id w !! workflow_id = None →
  update_stage_status workflow_id req w = (None, w).
Proof. intros H. unfold update_stage_status, repo_get. by rewrite H. Qed.

(** The entry of the reported stage after a call. *)
Lemma update_stage_status_entry workflow_id req w wf :
  by_id w !! workflow_id = Some wf →
  ∃ wf',
    by_id (update_stage_status workflow_id req w).2 !! workflow_id = Some wf'
    ∧ Workflow.stage_results wf'
        !! CertificationStage.value (WorkflowUpdateStatusRequest.stage req)
      = Some (apply_update req (fetch_sr req wf) w).1.
Proof.
  intros Hwf.
  destruct (update_stage_status_found workflow_id req w wf Hwf)
    as (wf' & _ & Hst & Hres & _).
  exists wf'. split; [done|]. rewrite Hres. apply lookup_insert_eq.
Qed.

(** C10: the call performs no validation of the transition.  Whatever the
    stored status of the stage is, the entry of the reported stage carries
    the requested status afterwards. *)
Theorem update_stage_status_sets_requested_status
    (workflow_id : string) (req : WorkflowUpdateStatusRequest.t)
    (w : World) (wf : Workflow.t) :
  get_workflow workflow_id w = Some wf →
  ∃ wf' sr',
    (update_stage_status workflow_id req w).1 = Some wf'
    ∧ get_workflow workflow_id (update_stage_status workflow_id req w).2 = Some wf'
    ∧ Workflow.stage_results wf'
        !! CertificationStage.value (WorkflowUpdateStatusRequest.stage req) = Some sr'
    ∧ StageResult.status sr' = WorkflowUpdateStatusRequest.status req.
Proof.
  intros Hwf.
  destruct (update_stage_status_found workflow_id req w wf Hwf)
    as (wf' & Hret & Hst & Hres & _).
  exists wf', (apply_update req (fetch_sr req wf) w).1. split_and!; try done.
  - rewrite Hres. apply lookup_insert_eq.
  - apply apply_update_status.
Qed.

Lemma update_stage_status_sets_requested_status_witness :
  ∃ wf' sr',
    (update_stage_status "wf-1"
       (Sample.report CertificationStage.CODE_QUALITY StageStatus.PENDING)
       Sample.done_one).1 = Some wf'
    ∧ get_workflow "wf-1"
        (update_stage_status "wf-1"
           (Sample.report CertificationStage.CODE_QUALITY StageStatus.PENDING)
           Sample.done_one).2 = Some wf'
    ∧ Workflow.stage_results wf' !! "code_quality" = Some sr'
    ∧ StageResult.status sr' = StageStatus.PENDING.
Proof.
  apply (update_stage_status_sets_requested_status "wf-1"
           (Sample.report CertificationStage.CODE_QUALITY StageStatus.PENDING)
           Sample.done_one (Sample.wf_in Sample.done_one)).
  vm_compute. reflexivity.
Defined.

(** The stage was [succeeded] before that call. *)
Example done_one_succeeded :
  StageResult.status <$>
    (Workflow.stage_results (Sample.wf_in Sample.done_one) !! "code_quality")
  = Some StageStatus.SUCCEEDED.
Proof. vm_compute. reflexivity. Qed.

(** C6, as stated, fails: an empty string in the request is a provided
    value, yet the stored link to the logs is kept. *)
Lemma update_stage_status_empty_string_kept :
  let req := Sample.report_logs CertificationStage.CODE_QUALITY StageStatus.RUNNING "" in
  WorkflowUpdateStatusRequest.logs_url req = Some ""
  ∧ StageResult.logs_url <$>
      (Workflow.stage_results
         (Sample.wf_in (update_stage_status "wf-1" req Sample.logged_one).2)
         !! "code_quality")
    = Some (Some "http://logs/1").
Proof. vm_compute. split; reflexivity. Qed.

(** C6, amended: [logs_url], [error_message] and [executor_ref] are
    overwritten exactly when the request carries a non-empty string, [metrics]
    and [artifacts] exactly when the request carries a mapping (an empty one
    included); a field that the request leaves out, or gives as the empty
    string, keeps the value of the entry found (of a fresh pending entry if
    the stage had none). *)
Theorem update_stage_status_overwrites_provided
    (workflow_id : string) (req : WorkflowUpdateStatusRequest.t)
    (w : World) (wf : Workflow.t) :
  get_workflow workflow_id w = Some wf →
  ∃ wf' sr',
    get_workflow workflow_id (update_stage_status workflow_id req w).2 = Some wf'
    ∧ Workflow.stage_results wf'
        !! CertificationStage.value (WorkflowUpdateStatusRequest.stage req) = Some sr'
    ∧ (∀ v, WorkflowUpdateStatusRequest.logs_url req = Some v → v ≠ "" →
            StageResult.logs_url sr' = Some v)
    ∧ (WorkflowUpdateStatusRequest.logs_url req = None
       ∨ WorkflowUpdateStatusRequest.logs_url req = Some "" →
       StageResult.logs_url sr' = StageResult.logs_url (fetch_sr req wf))
    ∧ (∀ v, WorkflowUpdateStatusRequest.error_message req = Some v → v ≠ "" →
            StageResult.error_message sr' = Some v)
    ∧ (WorkflowUpdateStatusRequest.error_message req = None
       ∨ WorkflowUpdateStatusRequest.error_message req = Some "" →
       StageResult.error_message sr' = StageResult.error_message (fetch_sr req wf))
    ∧ (∀ v, WorkflowUpdateStatusRequest.executor_ref req = Some v → v ≠ "" →
            StageResult.executor_ref sr' = Some v)
    ∧ (WorkflowUpdateStatusRequest.executor_ref req = None
       ∨ WorkflowUpdateStatusRequest.executor_ref req = Some "" →
       StageResult.executor_ref sr' = StageResult.executor_ref (fetch_sr req wf))
    ∧ (∀ m, WorkflowUpdateStatusRequest.metrics req = Some m →
            StageResult.metrics sr' = Some m)
    ∧ (WorkflowUpdateStatusRequest.metrics req = None →
       StageResult.metrics sr' = StageResult.metrics (fetch_sr req wf))
    ∧ (∀ a, WorkflowUpdateStatusRequest.artifacts req = Some a →
            StageResult.artifacts sr' = Some a)
    ∧ (WorkflowUpdateStatusRequest.artifacts req = None →
       StageResult.artifacts sr' = StageResult.artifacts (fetch_sr req wf)).
Proof.
  intros Hwf.
  destruct (update_stage_status_entry workflow_id req w wf Hwf) as (wf' & Hst & Hsr).
  exists wf', (apply_update req (fetch_sr req wf) w).1.
  split; [done|]. split; [done|].
  rewrite apply_update_logs_url, apply_update_error_message,
    apply_update_executor_ref, apply_update_metrics, apply_update_artifacts.
  split_and!.
  - intros v Hv Hne. rewrite (proj2 (truthy_str_Some _)); [done | eauto].
  - intros H. by rewrite (proj2 (truthy_str_false _) H).
  - intros v Hv Hne. rewrite (proj2 (truthy_str_Some _)); [done | eauto].
  - intros H. by rewrite (proj2 (truthy_str_false _) H).
  - intros v Hv Hne. rewrite (proj2 (truthy_str_Some _)); [done | eauto].
  - intros H. by rewrite (proj2 (truthy_str_false _) H).
  - by intros m ->.
  - by intros ->.
  - by intros a ->.
  - by intros ->.
Qed.

Lemma update_stage_status_overwrites_provided_witness :
  ∃ wf' sr',
    get_workflow "wf-1"
      (update_stage_status "wf-1"
         (Sample.report_logs CertificationStage.CODE_QUALITY StageStatus.RUNNING
            "http://logs/2")
         Sample.logged_one).2 = Some wf'
    ∧ Workflow.stage_results wf' !! "code_quality" = Some sr'
    ∧ StageResult.logs_url sr' = Some "http://logs/2"
    ∧ StageResult.executor_ref sr' = None.
Proof.
  destruct (update_stage_status_overwrites_provided "wf-1"
              (Sample.report_logs CertificationStage.CODE_QUALITY StageStatus.RUNNING
                 "http://logs/2")
              Sample.logged_one (Sample.wf_in Sample.logged_one))
    as (wf' & sr' & Hst & Hsr & Hlogs & _ & _ & _ & _ & Hexec & _).
  { vm_compute. reflexivity. }
  exists wf', sr'. split_and!; [done | done | |].
  - apply Hlogs; [reflexivity | discriminate].
  - rewrite Hexec; [|by left]. vm_compute. reflexivity.
Defined.

(** *** Time stamps written by a call *)

Lemma apply_update_started_at req sr w :
  StageResult.started_at (apply_update req sr w).1
  = if bool_decide (WorkflowUpdateStatusRequest.status req = StageStatus.RUNNING)
    then Some (clock w (clock_reads w)) else StageResult.started_at sr.
Proof. update_cases; done. Qed.

Lemma apply_update_finished_at req sr w :
  StageResult.finished_at (apply_update req sr w).1
  = if is_terminal (WorkflowUpdateStatusRequest.status req)
    then Some (clock w (clock_reads w)) else StageResult.finished_at sr.
Proof.
  destruct req as [? st ? ? ? ? ?], sr.
  destruct st; unfold apply_update, is_terminal, utcnow; simpl;
    repeat (destruct (truthy_str _)); repeat case_match; simplify_eq/=; done.
Qed.

Lemma apply_update_duration_ms req sr w :
  StageResult.duration_ms (apply_update req sr w).1
  = if is_terminal (WorkflowUpdateStatusRequest.status req)
    then match StageResult.started_at sr with
         | Some t0 => Some (elapsed_ms t0 (clock w (clock_reads w)))
         | None => StageResult.duration_ms sr
         end
    else StageResult.duration_ms sr.
Proof.
  destruct req as [? st ? ? ? ? ?], sr.
  destruct st; unfold apply_update, is_terminal, utcnow; simpl;
    repeat (destruct (truthy_str _)); repeat case_match; simplify_eq/=; done.
Qed.

Lemma StageResult_eq (r1 r2 : StageResult.t) :
  StageResult.stage r1 = StageResult.stage r2 →
  StageResult.status r1 = StageResult.status r2 →
  StageResult.started_at r1 = StageResult.started_at r2 →
  StageResult.finished_at r1 = StageResult.finished_at r2 →
  StageResult.duration_ms r1 = StageResult.duration_ms r2 →
  StageResult.logs_url r1 = StageResult.logs_url r2 →
  StageResult.metrics r1 = StageResult.metrics r2 →
  StageResult.artifacts r1 = StageResult.artifacts r2 →
  StageResult.error_message r1 = StageResult.error_message r2 →
  StageResult.executor_ref r1 = StageResult.executor_ref r2 →
  r1 = r2.
Proof. destruct r1, r2; simpl; congruence. Qed.

(** The fields that do not depend on the clock are the same after a second
    application of the same request. *)
Lemma apply_update_twice_fields req sr w w' :
  let sr1 := (apply_update req sr w).1 in
  let sr2 := (apply_update req sr1 w').1 in
  StageResult.stage sr2 = StageResult.stage sr1
  ∧ StageResult.status sr2 = StageResult.status sr1
  ∧ StageResult.logs_url sr2 = StageResult.logs_url sr1
  ∧ StageResult.metrics sr2 = StageResult.metrics sr1
  ∧ StageResult.artifacts sr2 = StageResult.artifacts sr1
  ∧ StageResult.error_message sr2 = StageResult.error_message sr1
  ∧ StageResult.executor_ref sr2 = StageResult.executor_ref sr1.
Proof.
  intros sr1 sr2. subst sr1 sr2.
  rewrite !apply_update_stage, !apply_update_status, !apply_update_logs_url,
    !apply_update_metrics, !apply_update_artifacts, !apply_update_error_message,
    !apply_update_executor_ref.
  split_and!; try done; repeat case_match; done.
Qed.

(** With the same clock reading the time stamps agree as well. *)
Lemma apply_update_twice_same_reading req sr w w' :
  WorkflowUpdateStatusRequest.status req = StageStatus.PENDING
  ∨ clock w' (clock_reads w') = clock w (clock_reads w) →
  (apply_update req (apply_update req sr w).1 w').1 = (apply_update req sr w).1.
Proof.
  intros Hsame.
  destruct (apply_update_twice_fields req sr w w') as (? & ? & ? & ? & ? & ? & ?).
  apply StageResult_eq; try done.
  - rewrite !apply_update_started_at. destruct Hsame as [-> | ->]; [done|].
    by case_bool_decide.
  - rewrite !apply_update_finished_at. destruct Hsame as [-> | ->]; [done|].
    by destruct (is_terminal _).
  - rewrite !apply_update_duration_ms, apply_update_started_at.
    destruct Hsame as [-> | ->]; [done|].
    destruct (is_terminal _) eqn:Hterm; [|done].
    case_bool_decide as Hrun.
    { rewrite Hrun in Hterm. done. }
    by destruct (StageResult.started_at sr).
Qed.

(** C7, as stated, fails: the second of two identical reports stamps the
    start time anew, so the stored entry differs from the one a single
    report leaves. *)
Lemma identical_reports_differ_in_start_time :
  Workflow.stage_results (Sample.wf_in Sample.running_twice) !! "code_quality"
  ≠ Workflow.stage_results (Sample.wf_in Sample.running_once) !! "code_quality".
Proof. vm_compute. intros H. discriminate H. Qed.

Example running_once_started_at :
  StageResult.started_at <$>
    (Workflow.stage_results (Sample.wf_in Sample.running_once) !! "code_quality")
  = Some (Some 2000).
Proof. vm_compute. reflexivity. Qed.

Example running_twice_started_at :
  StageResult.started_at <$>
    (Workflow.stage_results (Sample.wf_in Sample.running_twice) !! "code_quality")
  = Some (Some 4000).
Proof. vm_compute. reflexivity. Qed.

(** C7, amended: two identical reports in succession leave the stage, the
    status, the link to the logs, the metrics, the artifacts, the error
    message and the executor reference of the entry as a single report does
    (overwrite, no accumulation).  The start and finish time stamps and the
    duration are written again from the clock by the second report: the whole
    entry is the same when the requested status is [pending] (no time stamp is
    written) or when the second report reads the clock value that the first
    one read. *)
Theorem update_stage_status_twice
    (workflow_id : string) (req : WorkflowUpdateStatusRequest.t)
    (w : World) (wf : Workflow.t) :
  get_workflow workflow_id w = Some wf →
  let w1 := (update_stage_status workflow_id req w).2 in
  let w2 := (update_stage_status workflow_id req w1).2 in
  let key := CertificationStage.value (WorkflowUpdateStatusRequest.stage req) in
  ∃ wf1 wf2 sr1 sr2,
    get_workflow workflow_id w1 = Some wf1
    ∧ get_workflow workflow_id w2 = Some wf2
    ∧ Workflow.stage_results wf1 !! key = Some sr1
    ∧ Workflow.stage_results wf2 !! key = Some sr2
    ∧ StageResult.stage sr2 = StageResult.stage sr1
    ∧ StageResult.status sr2 = StageResult.status sr1
    ∧ StageResult.logs_url sr2 = StageResult.logs_url sr1
    ∧ StageResult.metrics sr2 = StageResult.metrics sr1
    ∧ StageResult.artifacts sr2 = StageResult.artifacts sr1
    ∧ StageResult.error_message sr2 = StageResult.error_message sr1
    ∧ StageResult.executor_ref sr2 = StageResult.executor_ref sr1
    ∧ (WorkflowUpdateStatusRequest.status req = StageStatus.PENDING
       ∨ clock w (clock_reads w1) = clock w (clock_reads w) →
       sr2 = sr1).
Proof.
  intros Hwf w1 w2 key.
  destruct (update_stage_status_found workflow_id req w wf Hwf)
    as (wf1 & _ & Hst1 & Hres1 & _ & _ & _ & Hclock1 & _ & _).
  fold w1 in Hst1, Hclock1.
  destruct (update_stage_status_found workflow_id req w1 wf1 Hst1)
    as (wf2 & _ & Hst2 & Hres2 & _).
  fold w2 in Hst2.
  assert (fetch_sr req wf1 = (apply_update req (fetch_sr req wf) w).1) as Hfetch.
  { unfold fetch_sr at 1. by rewrite Hres1, lookup_insert_eq. }
  rewrite Hfetch in Hres2.
  exists wf1, wf2, (apply_update req (fetch_sr req wf) w).1,
    (apply_update req (apply_update req (fetch_sr req wf) w).1 w1).1.
  split; [done|]. split; [done|].
  split; [subst key; rewrite Hres1; apply lookup_insert_eq|].
  split; [subst key; rewrite Hres2; apply lookup_insert_eq|].
  destruct (apply_update_twice_fields req (fetch_sr req wf) w w1)
    as (? & ? & ? & ? & ? & ? & ?).
  split_and!; try done.
  intros Hsame. apply apply_update_twice_same_reading.
  destruct Hsame as [? | Hsame]; [by left | right]. by rewrite Hclock1.
Qed.

Lemma update_stage_status_twice_witness :
  ∃ sr1 sr2,
    Workflow.stage_results (Sample.wf_in Sample.running_once) !! "code_quality" = Some sr1
    ∧ Workflow.stage_results (Sample.wf_in Sample.running_twice) !! "code_quality" = Some sr2
    ∧ StageResult.status sr2 = StageResult.status sr1
    ∧ StageResult.logs_url sr2 = StageResult.logs_url sr1.
Proof.
  destruct (update_stage_status_twice "wf-1"
              (Sample.report CertificationStage.CODE_QUALITY StageStatus.RUNNING)
              (Sample.created Sample.req_one)
              (Sample.wf_in (Sample.created Sample.req_one)))
    as (wf1 & wf2 & sr1 & sr2 & H1 & H2 & Hsr1 & Hsr2 & _ & Hstatus & Hlogs & _).
  { vm_compute. reflexivity. }
  exists sr1, sr2.
  assert (Sample.wf_in Sample.running_once = wf1) as ->.
  { unfold Sample.wf_in, Sample.running_once. rewrite H1. reflexivity. }
  assert (Sample.wf_in Sample.running_twice = wf2) as ->.
  { unfold Sample.wf_in, Sample.running_twice, Sample.running_once. rewrite H2.
    reflexivity. }
  exact (conj Hsr1 (conj Hsr2 (conj Hstatus Hlogs))).
Defined.

(** ** The aggregate status depends on the stage statuses only *)

Lemma statuses_agree_sym m m' : statuses_agree m m' → statuses_agree m' m.
Proof. intros H k. by rewrite H. Qed.

Lemma statuses_agree_lookup m m' k r :
  statuses_agree m m' → m !! k = Some r →
  ∃ r', m' !! k = Some r' ∧ StageResult.status r' = StageResult.status r.
Proof.
  intros H Hk. specialize (H k). rewrite Hk in H. simpl in H.
  destruct (m' !! k) as [r'|]; simplify_eq/=. eauto.
Qed.

Lemma has_status_agree st m m' :
  statuses_agree m m' → has_status st m → has_status st m'.
Proof.
  intros H (k & r & Hk & Hr).
  destruct (statuses_agree_lookup m m' k r H Hk) as (r' & Hk' & Hr').
  exists k, r'. split; [done | congruence].
Qed.

Lemma has_started_agree m m' :
  statuses_agree m m' → has_started m → has_started m'.
Proof.
  intros H (k & r & Hk & Hr).
  destruct (statuses_agree_lookup m m' k r H Hk) as (r' & Hk' & Hr').
  exists k, r'. split; [done | by rewrite Hr'].
Qed.

Lemma every_succeeded_agree m m' :
  statuses_agree m m' → every_succeeded m → every_succeeded m'.
Proof.
  intros H Hall k r' Hk'.
  destruct (statuses_agree_lookup m' m k r' (statuses_agree_sym _ _ H) Hk')
    as (r & Hk & Hr).
  rewrite <- Hr. by apply (Hall k).
Qed.

Lemma nonempty_agree m m' : statuses_agree m m' → m ≠ ∅ → m' ≠ ∅.
Proof.
  intros H Hne Hempty. apply Hne. apply map_empty. intros k.
  specialize (H k). rewrite Hempty, lookup_empty in H.
  by destruct (m !! k).
Qed.

Lemma compute_overall_status_agree m m' :
  statuses_agree m m' → compute_overall_status m = compute_overall_status m'.
Proof.
  intros H. pose proof (statuses_agree_sym _ _ H) as H'.
  apply (deriveStatus_functional m'); [|apply deriveStatus_computed].
  destruct (deriveStatus_computed m).
  - apply derive_failed. eauto using has_status_agree.
  - apply derive_succeeded;
      eauto using has_status_agree, every_succeeded_agree, nonempty_agree.
  - apply derive_running; [| |eauto using has_status_agree].
    + eauto using has_status_agree.
    + intros [? ?]. eauto using every_succeeded_agree, nonempty_agree.
  - apply derive_partial; [| | |eauto using has_started_agree].
    + eauto using has_status_agree.
    + intros [? ?]. eauto using every_succeeded_agree, nonempty_agree.
    + eauto using has_status_agree.
  - apply derive_created.
    + eauto using has_status_agree.
    + intros [? ?]. eauto using every_succeeded_agree, nonempty_agree.
    + eauto using has_status_agree.
    + eauto using has_started_agree.
Qed.

Lemma alter_statuses_agree (f : StageResult.t → StageResult.t) k m :
  (∀ r, StageResult.status (f r) = StageResult.status r) →
  statuses_agree (alter f k m) m.
Proof.
  intros Hf j. destruct (decide (k = j)) as [->|Hne].
  - rewrite lookup_alter_eq. destruct (m !! j); simpl; [by rewrite Hf | done].
  - by rewrite lookup_alter_ne.
Qed.

Lemma compute_overall_status_all_pending m :
  (∀ k r, m !! k = Some r → StageResult.status r = StageStatus.PENDING) →
  compute_overall_status m = WorkflowStatus.CREATED.
Proof.
  intros Hp.
  apply (deriveStatus_functional m); [apply deriveStatus_computed|].
  apply derive_created.
  - intros (k & r & Hk & Hr). by rewrite (Hp k r Hk) in Hr.
  - intros [Hall Hne]. apply map_choose in Hne as (k & r & Hk).
    specialize (Hall k r Hk). by rewrite (Hp k r Hk) in Hall.
  - intros (k & r & Hk & Hr). by rewrite (Hp k r Hk) in Hr.
  - intros (k & r & Hk & Hr). rewrite (Hp k r Hk) in Hr.
    by repeat (apply elem_of_cons in Hr as [Hr|Hr]; [done|]); apply elem_of_nil in Hr.
Qed.

(** ** The pieces of the advancement sequence *)

Lemma evolves_refl wf : evolves wf wf.
Proof. unfold evolves. split_and!; done. Qed.

Lemma evolves_trans wf1 wf2 wf3 : evolves wf1 wf2 → evolves wf2 wf3 → evolves wf1 wf3.
Proof.
  unfold evolves. intros (?&?&?&?&?&?) (?&?&?&?&?&?). split_and!; try congruence. auto.
Qed.

Lemma entries_sound_alter (f : StageResult.t → StageResult.t) k m :
  (∀ sr, entry_sound sr → entry_sound (f sr)) →
  entries_sound m → entries_sound (alter f k m).
Proof.
  intros Hf Hm j sr'. intros [[-> (sr & Hsr & ->)] | [_ Hj]]%lookup_alter_Some.
  - apply Hf. by apply (Hm j).
  - by apply (Hm j).
Qed.

Lemma assign_sr_evolves s f wf :
  (∀ sr, entry_sound sr → entry_sound (f sr)) →
  evolves wf (assign_sr s f wf).
Proof.
  intros Hf. unfold evolves, assign_sr. simpl. split_and!; try done.
  - apply dom_alter_L.
  - by apply entries_sound_alter.
Qed.

Lemma assign_sr_lookup s f wf :
  Workflow.stage_results (assign_sr s f wf) !! CertificationStage.value s
  = f <$> Workflow.stage_results wf !! CertificationStage.value s.
Proof. unfold assign_sr. simpl. apply lookup_alter_eq. Qed.

Lemma assign_sr_lookup_ne s f wf k :
  k ≠ CertificationStage.value s →
  Workflow.stage_results (assign_sr s f wf) !! k = Workflow.stage_results wf !! k.
Proof. intros H. unfold assign_sr. simpl. by apply lookup_alter_ne. Qed.

Lemma recompute_and_persist_spec wf w :
  ∃ wf',
    recompute_and_persist wf w = (wf', repo_update wf' (utcnow w).2)
    ∧ Workflow.stage_results wf' = Workflow.stage_results wf
    ∧ Workflow.status wf' = compute_overall_status (Workflow.stage_results wf)
    ∧ evolves wf wf'.
Proof.
  unfold recompute_and_persist, persist. simpl. eexists. split; [reflexivity|].
  unfold evolves. simpl. split_and!; done.
Qed.

Lemma mark_queued_spec wf w :
  ∃ wf',
    mark_queued wf w = (wf', repo_update wf' (utcnow w).2)
    ∧ Workflow.stage_results wf' = Workflow.stage_results wf
    ∧ evolves wf wf'.
Proof.
  unfold mark_queued, persist. simpl. eexists. split; [reflexivity|].
  unfold evolves. simpl. split_and!; done.
Qed.

Lemma mark_running_None s wf w :
  Workflow.stage_results wf !! CertificationStage.value s = None →
  mark_running s wf w = None.
Proof. intros H. unfold mark_running. by rewrite H. Qed.

Lemma mark_running_spec s wf w sr :
  Workflow.stage_results wf !! CertificationStage.value s = Some sr →
  ∃ wf' w1,
    mark_running s wf w = Some (wf', repo_update wf' w1)
    ∧ by_id w1 = by_id w
    ∧ Workflow.stage_results wf' !! CertificationStage.value s
      = Some (StageResult.set_started_at (Some (clock w (clock_reads w)))
                (StageResult.set_status StageStatus.RUNNING sr))
    ∧ (∀ k, k ≠ CertificationStage.value s →
            Workflow.stage_results wf' !! k = Workflow.stage_results wf !! k)
    ∧ Workflow.status wf' = compute_overall_status (Workflow.stage_results wf')
    ∧ evolves wf wf'.
Proof.
  intros Hsr. unfold mark_running. rewrite Hsr.
  unfold recompute_and_persist, persist. simpl.
  eexists _, _. split; [reflexivity|]. simpl. split_and!.
  - done.
  - by rewrite !lookup_alter_eq, Hsr.
  - intros k Hk. by rewrite !lookup_alter_ne.
  - done.
  - unfold evolves. simpl. split_and!; try done; [by rewrite !dom_alter_L|].
    rewrite ?alter_alter_eq. apply entries_sound_alter.
    intros sr0 Hs. unfold entry_sound in *. simpl.
    destruct (StageResult.started_at sr0); naive_solver.
Qed.

Lemma stage_failed_spec s description wf w :
  ∃ wf',
    stage_failed s description wf w = (wf', (utcnow w).2)
    ∧ Workflow.stage_results wf' !! CertificationStage.value s
      = (λ sr, StageResult.set_finished_at (Some (clock w (clock_reads w)))
                 (StageResult.set_error_message (Some description)
                    (StageResult.set_status StageStatus.FAILED sr)))
        <$> Workflow.stage_results wf !! CertificationStage.value s
    ∧ (∀ k, k ≠ CertificationStage.value s →
            Workflow.stage_results wf' !! k = Workflow.stage_results wf !! k)
    ∧ evolves wf wf'.
Proof.
  unfold stage_failed. simpl. eexists. split; [reflexivity|]. simpl. split_and!.
  - rewrite !lookup_alter_eq. by destruct (_ !! _).
  - intros k Hk. by rewrite !lookup_alter_ne.
  - unfold evolves. simpl. split_and!; try done; [by rewrite !dom_alter_L|].
    rewrite ?alter_alter_eq. apply entries_sound_alter.
    intros sr0 Hs. unfold entry_sound in *. simpl.
    destruct (StageResult.started_at sr0); naive_solver.
Qed.

Lemma stage_succeeded_spec s wf w :
  ∃ wf',
    stage_succeeded s wf w = (wf', (utcnow w).2)
    ∧ Workflow.stage_results wf' !! CertificationStage.value s
      = (λ sr, StageResult.set_duration_ms
                 (match StageResult.started_at sr with
                  | Some t0 => Some (elapsed_ms t0 (clock w (clock_reads w)))
                  | None => None
                  end)
                 (StageResult.set_finished_at (Some (clock w (clock_reads w)))
                    (StageResult.set_status StageStatus.SUCCEEDED sr)))
        <$> Workflow.stage_results wf !! CertificationStage.value s
    ∧ (∀ k, k ≠ CertificationStage.value s →
            Workflow.stage_results wf' !! k = Workflow.stage_results wf !! k)
    ∧ evolves wf wf'.
Proof.
  unfold stage_succeeded. simpl. eexists. split; [reflexivity|]. simpl. split_and!.
  - rewrite !lookup_alter_eq. by destruct (_ !! _).
  - intros k Hk. by rewrite !lookup_alter_ne.
  - unfold evolves. simpl. split_and!; try done; [by rewrite !dom_alter_L|].
    rewrite ?alter_alter_eq. apply entries_sound_alter.
    intros sr0 Hs. unfold entry_sound in *. simpl.
    destruct (StageResult.started_at sr0); naive_solver.
Qed.

Lemma record_executor_ref_spec s executor_ref wf w :
  ∃ wf',
    record_executor_ref s executor_ref wf w = (wf', w)
    ∧ Workflow.stage_results wf' !! CertificationStage.value s
      = StageResult.set_executor_ref (Some executor_ref)
        <$> Workflow.stage_results wf !! CertificationStage.value s
    ∧ (∀ k, k ≠ CertificationStage.value s →
            Workflow.stage_results wf' !! k = Workflow.stage_results wf !! k)
    ∧ Workflow.status wf' = Workflow.status wf
    ∧ statuses_agree (Workflow.stage_results wf') (Workflow.stage_results wf)
    ∧ evolves wf wf'.
Proof.
  unfold record_executor_ref. eexists. split; [reflexivity|]. split_and!.
  - apply assign_sr_lookup.
  - intros k Hk. by apply assign_sr_lookup_ne.
  - done.
  - unfold assign_sr. simpl. by apply alter_statuses_agree.
  - by apply assign_sr_evolves.
Qed.

Lemma settle_stage_spec s o wf w sr :
  Workflow.stage_results wf !! CertificationStage.value s = Some sr →
  ∃ wf' w1,
    settle_stage s o wf w = (wf', repo_update wf' w1)
    ∧ by_id w1 = by_id w
    ∧ Workflow.stage_results wf' !! CertificationStage.value s
      = Some (settled_entry o (clock w (clock_reads w)) sr)
    ∧ (∀ k, k ≠ CertificationStage.value s →
            Workflow.stage_results wf' !! k = Workflow.stage_results wf !! k)
    ∧ Workflow.status wf' = compute_overall_status (Workflow.stage_results wf')
    ∧ evolves wf wf'.
Proof.
  intros Hsr. unfold settle_stage. destruct o as [executor_ref|description].
  - destruct (record_executor_ref_spec s executor_ref wf w)
      as (wf1 & -> & Hk1 & Hne1 & _ & _ & Hev1).
    destruct (stage_succeeded_spec s wf1 w) as (wf2 & -> & Hk2 & Hne2 & Hev2).
    destruct (recompute_and_persist_spec wf2 (utcnow w).2)
      as (wf3 & -> & Hres3 & Hst3 & Hev3).
    eexists _, _. split; [reflexivity|]. split_and!.
    + done.
    + rewrite Hres3, Hk2, Hk1, Hsr. done.
    + intros k Hk. by rewrite Hres3, Hne2, Hne1.
    + by rewrite Hres3.
    + eauto using evolves_trans.
  - destruct (stage_failed_spec s description wf w) as (wf2 & -> & Hk2 & Hne2 & Hev2).
    destruct (recompute_and_persist_spec wf2 (utcnow w).2)
      as (wf3 & -> & Hres3 & Hst3 & Hev3).
    eexists _, _. split; [reflexivity|]. split_and!.
    + done.
    + rewrite Hres3, Hk2, Hsr. done.
    + intros k Hk. by rewrite Hres3, Hne2.
    + by rewrite Hres3.
    + eauto using evolves_trans.
Qed.

Lemma settled_entry_attempted o t t0 sr :
  attempted (settled_entry o t (StageResult.set_started_at (Some t0) sr)).
Proof. destruct o; unfold attempted; simpl; eauto. Qed.

(** One iteration of the loop on a bound key. *)
Lemma iteration_spec exec_client s wf w sr :
  Workflow.stage_results wf !! CertificationStage.value s = Some sr →
  ∃ wf1 w1 o wf2 w2,
    mark_running s wf w = Some (wf1, w1)
    ∧ call_trigger exec_client s wf1 w1 = (o, answered w1)
    ∧ settle_stage s o wf1 (answered w1) = (wf2, w2)
    ∧ (∃ r, Workflow.stage_results wf2 !! CertificationStage.value s = Some r
            ∧ attempted r
            ∧ StageResult.status r
              = match o with
                | Returned _ => StageStatus.SUCCEEDED
                | Raised _ => StageStatus.FAILED
                end)
    ∧ (∀ k, k ≠ CertificationStage.value s →
            Workflow.stage_results wf2 !! k = Workflow.stage_results wf !! k)
    ∧ Workflow.status wf2 = compute_overall_status (Workflow.stage_results wf2)
    ∧ evolves wf wf2.
Proof.
  intros Hsr.
  destruct (mark_running_spec s wf w sr Hsr) as (wf1 & w1 & Hrun & _ & Hk1 & Hne1 & _ & Hev1).
  set (o := exec_client (exec_calls (repo_update wf1 w1)) (Workflow.id wf1) s
              (Workflow.git wf1) (Workflow.metadata wf1)).
  destruct (settle_stage_spec s o wf1 (answered (repo_update wf1 w1)) _ Hk1)
    as (wf2 & w2 & Hsettle & _ & Hk2 & Hne2 & Hst2 & Hev2).
  exists wf1, (repo_update wf1 w1), o, wf2, (repo_update wf2 w2).
  split_and!; try done.
  - eexists. split; [exact Hk2|]. split; [apply settled_entry_attempted|].
    by destruct o.
  - intros k Hk. by rewrite Hne2, Hne1.
  - eauto using evolves_trans.
Qed.

Lemma evolves_bound wf wf' k :
  evolves wf wf' →
  is_Some (Workflow.stage_results wf !! k) → is_Some (Workflow.stage_results wf' !! k).
Proof. intros (_ & _ & _ & _ & Hd & _). rewrite <- !elem_of_dom. by rewrite Hd. Qed.

(** The loop visits every planned stage, whatever the outcomes are. *)
Lemma run_stages_spec exec_client stages :
  ∀ wf w,
    (∀ s, s ∈ stages → is_Some (Workflow.stage_results wf !! CertificationStage.value s)) →
    ∃ wf' w',
      run_stages exec_client stages wf w = (true, wf', w')
      ∧ evolves wf wf'
      ∧ (∀ k, k ∉ CertificationStage.value <$> stages →
              Workflow.stage_results wf' !! k = Workflow.stage_results wf !! k)
      ∧ (∀ s, s ∈ stages →
              ∃ r, Workflow.stage_results wf' !! CertificationStage.value s = Some r
                   ∧ attempted r)
      ∧ (stages ≠ [] →
         Workflow.status wf' = compute_overall_status (Workflow.stage_results wf')).
Proof.
  induction stages as [|s rest IH]; intros wf w Hbound.
  - exists wf, w. simpl. split_and!;
      [done | apply evolves_refl | done | | done].
    intros s Hs. by apply elem_of_nil in Hs.
  - destruct (Hbound s) as [sr Hsr]; [left|].
    destruct (iteration_spec exec_client s wf w sr Hsr)
      as (wf1 & w1 & o & wf2 & w2 & Hrun & Hcall & Hsettle & (r & Hr & Hatt & _)
          & Hne2 & Hst2 & Hev2).
    destruct (IH wf2 w2) as (wf' & w' & Hrest & Hev' & Hframe & Hall & Hst').
    { intros s' Hs'. eapply evolves_bound; [done|]. apply Hbound. by right. }
    exists wf', w'. split_and!.
    + cbn [run_stages]. by rewrite Hrun, Hcall, Hsettle.
    + eauto using evolves_trans.
    + intros k Hk. rewrite fmap_cons, not_elem_of_cons in Hk. destruct Hk as [Hk1 Hk2].
      by rewrite Hframe, Hne2.
    + intros s' Hs'.
      destruct (decide (CertificationStage.value s' ∈ CertificationStage.value <$> rest))
        as [Hin|Hnin].
      * apply list_elem_of_fmap in Hin as (s'' & Heq & Hin). rewrite Heq. by apply Hall.
      * apply elem_of_cons in Hs' as [-> | Hs'].
        -- exists r. by rewrite Hframe.
        -- exfalso. apply Hnin. apply list_elem_of_fmap. eauto.
    + intros _. destruct rest as [|s' rest'].
      * simpl in Hrest. by simplify_eq.
      * by apply Hst'.
Qed.

Lemma by_id_notify_finish wf w : by_id (notify_finish wf w) = by_id w.
Proof.
  unfold notify_finish, notify.
  destruct (on_finish_requested _); [|done]. by destruct (Workflow.notification wf).
Qed.

(** The uninterrupted advancement sequence of a workflow whose planned
    stages all have an entry. *)
Lemma kickoff_stages_spec exec_client workflow_id w wf :
  get_workflow workflow_id w = Some wf →
  (∀ s, s ∈ Workflow.stages wf →
        is_Some (Workflow.stage_results wf !! CertificationStage.value s)) →
  ∃ wf' w',
    _kickoff_stages exec_client workflow_id w = (true, w')
    ∧ get_workflow workflow_id w' = Some wf'
    ∧ evolves wf wf'
    ∧ (∀ s, s ∈ Workflow.stages wf →
            ∃ r, Workflow.stage_results wf' !! CertificationStage.value s = Some r
                 ∧ attempted r)
    ∧ (Workflow.stages wf ≠ [] →
       Workflow.status wf' = compute_overall_status (Workflow.stage_results wf')).
Proof.
  intros Hwf Hbound. unfold _kickoff_stages. unfold get_workflow in Hwf. rewrite Hwf.
  destruct (mark_queued_spec wf w) as (wf0 & -> & Hres0 & Hev0).
  pose proof Hev0 as (_ & Hstages0 & _).
  destruct (run_stages_spec exec_client (Workflow.stages wf0) wf0
              (repo_update wf0 (utcnow w).2))
    as (wf' & w' & -> & Hev' & _ & Hall & Hst').
  { intros s Hs. rewrite Hres0. apply Hbound. by rewrite <- Hstages0. }
  exists wf'. eexists. split; [reflexivity|]. split_and!.
  - unfold get_workflow, repo_get. rewrite by_id_notify_finish. simpl.
    apply lookup_insert_eq.
  - eauto using evolves_trans.
  - intros s Hs. apply Hall. by rewrite Hstages0.
  - intros Hne. apply Hst'. by rewrite Hstages0.
Qed.

(** ** The pieces on the shared object *)

Lemma on_slot_unbound k piece w : by_id w !! k = None → on_slot k piece w = w.
Proof. intros H. unfold on_slot. by rewrite H. Qed.

Lemma on_slot_bound k piece w wf wf' w' :
  by_id w !! k = Some wf →
  piece wf w = (wf', w') →
  by_id w' = by_id w ∨ by_id w' = <[k := wf']> (by_id w) →
  by_id (on_slot k piece w) = <[k := wf']> (by_id w)
  ∧ clock (on_slot k piece w) = clock w'
  ∧ clock_reads (on_slot k piece w) = clock_reads w'.
Proof.
  intros Hk Hp Hw. unfold on_slot. rewrite Hk, Hp. simpl.
  destruct Hw as [-> | ->]; [done|]. by rewrite insert_insert_eq.
Qed.

Lemma on_slot_mark_queued k w wf :
  by_id w !! k = Some wf → Workflow.id wf = k →
  ∃ wf',
    by_id (on_slot k mark_queued w) = <[k := wf']> (by_id w)
    ∧ Workflow.stage_results wf' = Workflow.stage_results wf
    ∧ evolves wf wf'.
Proof.
  intros Hk Hid. destruct (mark_queued_spec wf w) as (wf' & Heq & Hres & Hev).
  exists wf'. split; [|done].
  eapply on_slot_bound; [done..|]. right. simpl.
  destruct Hev as (-> & _). by rewrite Hid.
Qed.

Lemma on_slot_recompute_and_persist k w wf :
  by_id w !! k = Some wf → Workflow.id wf = k →
  ∃ wf',
    by_id (on_slot k recompute_and_persist w) = <[k := wf']> (by_id w)
    ∧ Workflow.stage_results wf' = Workflow.stage_results wf
    ∧ Workflow.status wf' = compute_overall_status (Workflow.stage_results wf')
    ∧ evolves wf wf'.
Proof.
  intros Hk Hid.
  destruct (recompute_and_persist_spec wf w) as (wf' & Heq & Hres & Hst & Hev).
  exists wf'. split; [|by rewrite Hres].
  eapply on_slot_bound; [done..|]. right. simpl.
  destruct Hev as (-> & _). by rewrite Hid.
Qed.

Lemma on_slot_stage_failed k s description w wf :
  by_id w !! k = Some wf →
  ∃ wf',
    by_id (on_slot k (stage_failed s description) w) = <[k := wf']> (by_id w)
    ∧ Workflow.stage_results wf' !! CertificationStage.value s
      = settled_entry (Raised description) (clock w (clock_reads w))
        <$> Workflow.stage_results wf !! CertificationStage.value s
    ∧ (∀ j, j ≠ CertificationStage.value s →
            Workflow.stage_results wf' !! j = Workflow.stage_results wf !! j)
    ∧ evolves wf wf'.
Proof.
  intros Hk. destruct (stage_failed_spec s description wf w) as (wf' & Heq & Hs & Hne & Hev).
  exists wf'. split; [|done].
  eapply on_slot_bound; [done..|]. by left.
Qed.

Lemma on_slot_stage_succeeded k s w wf :
  by_id w !! k = Some wf →
  ∃ wf',
    by_id (on_slot k (stage_succeeded s) w) = <[k := wf']> (by_id w)
    ∧ (∀ j, j ≠ CertificationStage.value s →
            Workflow.stage_results wf' !! j = Workflow.stage_results wf !! j)
    ∧ evolves wf wf'.
Proof.
  intros Hk. destruct (stage_succeeded_spec s wf w) as (wf' & Heq & Hs & Hne & Hev).
  exists wf'. split; [|done].
  eapply on_slot_bound; [done..|]. by left.
Qed.

Lemma on_slot_record_executor_ref k s executor_ref w wf :
  by_id w !! k = Some wf →
  ∃ wf',
    by_id (on_slot k (record_executor_ref s executor_ref) w) = <[k := wf']> (by_id w)
    ∧ Workflow.status wf' = Workflow.status wf
    ∧ statuses_agree (Workflow.stage_results wf') (Workflow.stage_results wf)
    ∧ evolves wf wf'.
Proof.
  intros Hk.
  destruct (record_executor_ref_spec s executor_ref wf w)
    as (wf' & Heq & _ & _ & Hst & Hag & Hev).
  exists wf'. split; [|done].
  eapply on_slot_bound; [done..|]. by left.
Qed.

(** The head of the loop on a bound slot. *)
Lemma next_stage_spec k rest w wf :
  by_id w !! k = Some wf → Workflow.id wf = k →
  ∃ wf' t',
    by_id (next_stage k rest w).2 = <[k := wf']> (by_id w)
    ∧ (next_stage k rest w).1 = t'
    ∧ evolves wf wf'
    ∧ match rest with
      | [] => t' = Finished ∧ wf' = wf
      | s :: rest' =>
          match Workflow.stage_results wf !! CertificationStage.value s with
          | Some sr =>
              t' = AwaitTrigger s rest'
              ∧ Workflow.status wf' = compute_overall_status (Workflow.stage_results wf')
              ∧ Workflow.stage_results wf' !! CertificationStage.value s
                = Some (StageResult.set_started_at (Some (clock w (clock_reads w)))
                          (StageResult.set_status StageStatus.RUNNING sr))
          | None => t' = Crashed ∧ wf' = wf
          end
      end.
Proof.
  intros Hk Hid. unfold next_stage. rewrite Hk.
  destruct rest as [|s rest'].
  - exists wf, Finished. simpl. rewrite by_id_notify_finish, insert_id by done.
    split_and!; try done; apply evolves_refl.
  - destruct (Workflow.stage_results wf !! CertificationStage.value s) as [sr|] eqn:Hsr.
    + destruct (mark_running_spec s wf w sr Hsr)
        as (wf' & w1 & -> & Hw1 & Hentry & _ & Hst & Hev).
      exists wf', (AwaitTrigger s rest'). simpl. split_and!; try done.
      destruct Hev as (-> & _). by rewrite Hid, Hw1, insert_insert_eq.
    + rewrite (mark_running_None s wf w Hsr).
      exists wf, Crashed. simpl. rewrite insert_id by done.
      split_and!; try done; apply evolves_refl.
Qed.

(** ** Invariants of the running service *)

Lemma task_ok_grows t wf wf' :
  Workflow.stages wf' = Workflow.stages wf →
  dom (Workflow.stage_results wf) ⊆ dom (Workflow.stage_results wf') →
  task_ok t wf → task_ok t wf'.
Proof.
  intros Hst Hd. destruct t; simpl; try done.
  - intros [Hs Hrest]. split.
    + apply elem_of_dom. apply Hd. by apply elem_of_dom.
    + by rewrite Hst.
  - intros [Hs Hrest]. split.
    + apply elem_of_dom. apply Hd. by apply elem_of_dom.
    + by rewrite Hst.
Qed.

Lemma well_planned_grows k wf wf' :
  Workflow.id wf' = Workflow.id wf →
  Workflow.stages wf' = Workflow.stages wf →
  dom (Workflow.stage_results wf) ⊆ dom (Workflow.stage_results wf') →
  well_planned k wf → well_planned k wf'.
Proof.
  intros Hid Hst Hd (Hk & Hne & Hb). split_and!.
  - congruence.
  - by rewrite Hst.
  - intros s Hs. rewrite Hst in Hs.
    apply elem_of_dom. apply Hd. apply elem_of_dom. by apply Hb.
Qed.

(** The effect of an event that replaces the object of one slot. *)
Lemma replace_slot st st' k wf wf' :
  invariant st →
  by_id (world st) !! k = Some wf →
  by_id (world st') = <[k := wf']> (by_id (world st)) →
  Workflow.id wf' = Workflow.id wf →
  Workflow.stages wf' = Workflow.stages wf →
  dom (Workflow.stage_results wf) ⊆ dom (Workflow.stage_results wf') →
  consistent wf' →
  (∀ k' t, tasks st' !! k' = Some t →
           if decide (k' = k) then task_ok t wf' else tasks st !! k' = Some t) →
  invariant st'
  ∧ ∀ k0 wf0, by_id (world st) !! k0 = Some wf0 →
      ∃ wf0', by_id (world st') !! k0 = Some wf0'
              ∧ Workflow.stages wf0' = Workflow.stages wf0
              ∧ dom (Workflow.stage_results wf0')
                = if decide (k0 = k) then dom (Workflow.stage_results wf')
                  else dom (Workflow.stage_results wf0).
Proof.
  intros [Hstore Htasks] Hk Hby Hid Hst Hd Hcons Ht. split; [split|].
  - intros k0 wf0. rewrite Hby. intros [[<- <-] | [Hne H0]]%lookup_insert_Some.
    + split; [|done]. eapply well_planned_grows; [done..|]. by apply Hstore.
    + by apply Hstore.
  - intros k0 t H0. specialize (Ht k0 t H0). rewrite Hby.
    destruct (decide (k0 = k)) as [->|Hne].
    + exists wf'. split; [apply lookup_insert_eq | done].
    + destruct (Htasks k0 t Ht) as (wf0 & Hwf0 & Hok).
      exists wf0. split; [by rewrite lookup_insert_ne | done].
  - intros k0 wf0 H0. rewrite Hby. destruct (decide (k0 = k)) as [->|Hne].
    + exists wf'. rewrite lookup_insert_eq. simplify_eq. done.
    + exists wf0. by rewrite lookup_insert_ne.
Qed.

Lemma resolve_stages_nonempty req : resolve_stages req ≠ [].
Proof.
  unfold resolve_stages. destruct (WorkflowCreateRequest.stages req) as [[|s rest]|];
    try done; by destruct (WorkflowCreateRequest.domain req).
Qed.

Lemma init_stage_results_consistent stages :
  compute_overall_status (init_stage_results stages) = WorkflowStatus.CREATED.
Proof.
  apply compute_overall_status_all_pending. intros k r Hk.
  by apply init_stage_results_entry in Hk as (s & _ & _ & ->).
Qed.

Lemma step_create req new_id st st' :
  invariant st → step (Create req new_id) st = Some st' →
  invariant st'
  ∧ ∀ k wf, by_id (world st) !! k = Some wf → by_id (world st') !! k = Some wf.
Proof.
  intros [Hstore Htasks] Hstep. cbn [step] in Hstep.
  destruct (by_id (world st) !! new_id) eqn:Hfresh; [done|].
  destruct (create_workflow_eq req new_id (world st)) as (t0 & t1 & Hwf & Hby).
  cbv zeta in Hwf, Hby.
  destruct (create_workflow req new_id (world st)) as [wf w] eqn:Hc.
  simpl in Hwf, Hby. simplify_eq. unfold set_task. simpl.
  assert (∀ k wf, by_id (world st) !! k = Some wf → by_id w !! k = Some wf) as Hkeep.
  { intros k wf Hk. rewrite Hby, lookup_insert_ne; [done|]. congruence. }
  split; [split | exact Hkeep].
  - simpl. intros k wf. rewrite Hby.
    intros [[<- <-] | [Hne H0]]%lookup_insert_Some; [|by apply Hstore].
    split; [split_and!|].
    + done.
    + apply resolve_stages_nonempty.
    + simpl. intros s Hs.
      destruct (init_stage_results_planned _ s Hs) as (r & -> & _). eauto.
    + unfold consistent. simpl. by rewrite init_stage_results_consistent.
  - simpl. intros k t. intros [[<- <-] | [Hne H0]]%lookup_insert_Some.
    + eexists. rewrite Hby, lookup_insert_eq. done.
    + destruct (Htasks k t H0) as (wf0 & Hwf0 & Hok). exists wf0. split; [|done].
      by apply Hkeep.
Qed.

Lemma evolves_id wf wf' k : evolves wf wf' → Workflow.id wf = k → Workflow.id wf' = k.
Proof. intros (-> & _) H. done. Qed.

Lemma evolves_stages wf wf' : evolves wf wf' → Workflow.stages wf' = Workflow.stages wf.
Proof. by intros (_ & -> & _). Qed.

Lemma step_start k st st' :
  invariant st → step (Start k) st = Some st' → task_event_effect k st st'.
Proof.
  intros [Hstore Htasks] Hstep. cbn [step] in Hstep.
  destruct (tasks st !! k) as [[]|] eqn:Ht; try done.
  destruct (Htasks k Scheduled Ht) as (wf & Hwf & _). rewrite Hwf in Hstep.
  simplify_eq. destruct (Hstore k wf Hwf) as [(Hid & Hne & Hb) Hc].
  destruct (on_slot_mark_queued k (world st) wf Hwf Hid) as (wf0 & Hby0 & Hres0 & Hev0).
  destruct (next_stage_spec k (Workflow.stages wf) (on_slot k mark_queued (world st)) wf0)
    as (wf' & t' & Hby' & Ht' & Hev' & Hcase).
  { rewrite Hby0. apply lookup_insert_eq. }
  { eauto using evolves_id. }
  destruct (Workflow.stages wf) as [|s rest] eqn:Hstages; [done|].
  destruct (Hb s) as [sr Hsr]; [left|]. rewrite Hres0, Hsr in Hcase.
  destruct Hcase as (-> & Hcons & Hentry).
  exists wf, wf', (AwaitTrigger s rest). unfold set_task. simpl. split_and!.
  - done.
  - by rewrite Hby', Hby0, insert_insert_eq.
  - eauto using evolves_trans.
  - done.
  - by rewrite Ht'.
  - by rewrite Hentry.
  - intros s' Hs'.
    rewrite (evolves_stages wf0 wf' Hev'), (evolves_stages wf wf0 Hev0), Hstages.
    by right.
Qed.

Lemma step_trigger_returned k executor_ref st st' :
  invariant st → step (TriggerReturned k executor_ref) st = Some st' →
  task_event_effect k st st'.
Proof.
  intros [Hstore Htasks] Hstep. cbn [step] in Hstep.
  destruct (tasks st !! k) as [[| s rest | | |]|] eqn:Ht; try done.
  destruct (Htasks k _ Ht) as (wf & Hwf & Hs & Hrest).
  simplify_eq. destruct (Hstore k wf Hwf) as [_ Hc].
  destruct (on_slot_record_executor_ref k s executor_ref (answered (world st)) wf Hwf)
    as (wf' & Hby' & Hst' & Hag & Hev').
  exists wf, wf', (AwaitSleep s rest). unfold set_task. simpl. split_and!; try done.
  - unfold consistent. rewrite Hst', Hc. symmetry. by apply compute_overall_status_agree.
  - by eapply evolves_bound.
  - intros s' Hs'.
    rewrite (evolves_stages wf wf' Hev'). by apply Hrest.
Qed.

(** After the outcome of a stage has been handled and the status recomputed,
    the loop goes on with the stages it has still to visit. *)
Lemma loop_continues k rest st w1 wf wf1 :
  invariant st →
  by_id (world st) !! k = Some wf →
  by_id w1 = <[k := wf1]> (by_id (world st)) →
  evolves wf wf1 →
  (∀ s', s' ∈ rest → s' ∈ Workflow.stages wf) →
  task_event_effect k st
    (set_task k (next_stage k rest (on_slot k recompute_and_persist w1)) st).
Proof.
  intros [Hstore Htasks] Hwf Hby1 Hev1 Hrest.
  destruct (Hstore k wf Hwf) as [(Hid & Hne & Hb) _].
  destruct (on_slot_recompute_and_persist k w1 wf1) as (wf2 & Hby2 & Hres2 & Hc2 & Hev2).
  { rewrite Hby1. apply lookup_insert_eq. }
  { eauto using evolves_id. }
  destruct (next_stage_spec k rest (on_slot k recompute_and_persist w1) wf2)
    as (wf' & t' & Hby' & Ht' & Hev' & Hcase).
  { rewrite Hby2. apply lookup_insert_eq. }
  { eauto using evolves_id. }
  assert (evolves wf wf2) as Hev02 by eauto using evolves_trans.
  exists wf, wf', t'. unfold set_task. simpl. split_and!.
  - done.
  - by rewrite Hby', Hby2, Hby1, !insert_insert_eq.
  - eauto using evolves_trans.
  - destruct rest as [|s' rest'].
    + by destruct Hcase as (_ & ->).
    + destruct (evolves_bound wf wf2 (CertificationStage.value s') Hev02) as [sr Hsr].
      { apply Hb, Hrest. left. }
      rewrite Hsr in Hcase. by destruct Hcase as (_ & ? & _).
  - by rewrite Ht'.
  - destruct rest as [|s' rest'].
    + by destruct Hcase as (-> & _).
    + destruct (evolves_bound wf wf2 (CertificationStage.value s') Hev02) as [sr Hsr].
      { apply Hb, Hrest. left. }
      rewrite Hsr in Hcase. destruct Hcase as (-> & _ & Hentry).
      simpl. split; [by rewrite Hentry|]. intros s'' Hs''.
      rewrite (evolves_stages wf2 wf' Hev'), (evolves_stages wf wf2 Hev02).
      apply Hrest. by right.
Qed.

Lemma step_trigger_raised k description st st' :
  invariant st → step (TriggerRaised k description) st = Some st' →
  task_event_effect k st st'.
Proof.
  intros Hinv Hstep. pose proof Hinv as [Hstore Htasks]. cbn [step] in Hstep.
  destruct (tasks st !! k) as [[| s rest | | |]|] eqn:Ht; try done.
  destruct (Htasks k _ Ht) as (wf & Hwf & Hs & Hrest). simplify_eq.
  destruct (on_slot_stage_failed k s description (answered (world st)) wf Hwf)
    as (wf1 & Hby1 & _ & _ & Hev1).
  by eapply loop_continues.
Qed.

Lemma step_sleep_done k st st' :
  invariant st → step (SleepDone k) st = Some st' → task_event_effect k st st'.
Proof.
  intros Hinv Hstep. pose proof Hinv as [Hstore Htasks]. cbn [step] in Hstep.
  destruct (tasks st !! k) as [[| | s rest | |]|] eqn:Ht; try done.
  destruct (Htasks k _ Ht) as (wf & Hwf & Hs & Hrest). simplify_eq.
  destruct (on_slot_stage_succeeded k s (world st) wf Hwf) as (wf1 & Hby1 & _ & Hev1).
  by eapply loop_continues.
Qed.

Lemma task_event_effect_spec k st st' :
  invariant st → task_event_effect k st st' →
  invariant st'
  ∧ ∀ k0 wf0, by_id (world st) !! k0 = Some wf0 →
      ∃ wf0', by_id (world st') !! k0 = Some wf0'
              ∧ Workflow.stages wf0' = Workflow.stages wf0
              ∧ dom (Workflow.stage_results wf0') = dom (Workflow.stage_results wf0).
Proof.
  intros Hinv (wf & wf' & t' & Hwf & Hby & (Hid & Hst & _ & _ & Hd & _) & Hc & Ht & Hok).
  destruct (replace_slot st st' k wf wf' Hinv Hwf Hby Hid Hst) as [Hinv' Hkeys];
    [by rewrite Hd | done | | ].
  { intros k' t. rewrite Ht. destruct (decide (k' = k)) as [->|Hne].
    - rewrite lookup_insert_eq. by intros [= <-].
    - by rewrite lookup_insert_ne. }
  split; [done|]. intros k0 wf0 H0.
  destruct (Hkeys k0 wf0 H0) as (wf0' & H0' & Hst0 & Hd0).
  exists wf0'. split_and!; try done.
  destruct (decide (k0 = k)) as [->|]; [|done]. simplify_eq. by rewrite Hd0.
Qed.

Lemma step_update k req st st' :
  invariant st → step (Update k req) st = Some st' →
  invariant st'
  ∧ ∀ k0 wf0, by_id (world st) !! k0 = Some wf0 →
      ∃ wf0', by_id (world st') !! k0 = Some wf0'
              ∧ Workflow.stages wf0' = Workflow.stages wf0
              ∧ dom (Workflow.stage_results wf0') = keys_after (Update k req) k0 wf0.
Proof.
  intros Hinv Hstep. pose proof Hinv as [Hstore Htasks]. cbn [step] in Hstep.
  simplify_eq. destruct (by_id (world st) !! k) as [wf|] eqn:Hwf.
  - destruct (update_stage_status_found k req (world st) wf Hwf)
      as (wf' & _ & _ & Hres & Hc & Hst & Hid & _ & _ & Hby).
    destruct (Hstore k wf Hwf) as [(Hk & _) _].
    rewrite Hk, insert_insert_eq in Hby.
    assert (dom (Workflow.stage_results wf')
            = {[CertificationStage.value (WorkflowUpdateStatusRequest.stage req)]}
                ∪ dom (Workflow.stage_results wf)) as Hd.
    { by rewrite Hres, dom_insert_L. }
    destruct (replace_slot st
                (mkSys (update_stage_status k req (world st)).2 (tasks st))
                k wf wf' Hinv Hwf Hby Hid Hst) as [Hinv' Hkeys].
    { rewrite Hd. set_solver. }
    { done. }
    { simpl. intros k' t Ht. destruct (decide (k' = k)) as [->|]; [|done].
      destruct (Htasks k t Ht) as (wf0 & Hwf0 & Hok). simplify_eq.
      eapply task_ok_grows; [done | | done]. rewrite Hd. set_solver. }
    split; [done|]. intros k0 wf0 H0.
    destruct (Hkeys k0 wf0 H0) as (wf0' & H0' & Hst0 & Hd0).
    exists wf0'. split_and!; try done. simpl.
    destruct (decide (k0 = k)) as [->|Hne].
    + rewrite decide_True by done. simplify_eq. by rewrite Hd0.
    + rewrite decide_False by done. done.
  - rewrite (update_stage_status_absent k req (world st) Hwf). simpl.
    destruct st as [w ts]. simpl in *. split; [done|].
    intros k0 wf0 H0. exists wf0. split_and!; try done.
    rewrite decide_False; [done|]. congruence.
Qed.

(** Every event keeps the invariant, keeps the plan of every stored
    workflow and changes the keys of its [stage_results] as [keys_after]
    tells. *)
Lemma step_spec e st st' :
  invariant st → step e st = Some st' →
  invariant st'
  ∧ ∀ k wf, by_id (world st) !! k = Some wf →
      ∃ wf', by_id (world st') !! k = Some wf'
             ∧ Workflow.stages wf' = Workflow.stages wf
             ∧ dom (Workflow.stage_results wf') = keys_after e k wf.
Proof.
  intros Hinv Hstep. destruct e as [req new_id | k | k ref | k d | k | k req].
  - destruct (step_create req new_id st st' Hinv Hstep) as [Hinv' Hkeep].
    split; [done|]. intros k wf Hk. exists wf. split_and!; try done. by apply Hkeep.
  - by apply (task_event_effect_spec k), step_start.
  - by eapply (task_event_effect_spec k), step_trigger_returned.
  - by eapply (task_event_effect_spec k), step_trigger_raised.
  - by apply (task_event_effect_spec k), step_sleep_done.
  - by apply step_update.
Qed.

Lemma boot_invariant clock : invariant (boot clock).
Proof. split; intros k x H; simpl in H; by rewrite lookup_empty in H. Qed.

Lemma run_invariant es : ∀ st st', invariant st → run es st = Some st' → invariant st'.
Proof.
  induction es as [|e es IH]; intros st st' Hinv Hrun; simpl in Hrun.
  - by simplify_eq.
  - destruct (step e st) as [st1|] eqn:Hstep; [|done].
    eapply IH; [|done]. by eapply step_spec.
Qed.

Lemma reachable_invariant st : reachable st → invariant st.
Proof. intros (clock & es & Hrun). eapply run_invariant; [apply boot_invariant | done]. Qed.

(** ** The uninterrupted sequence as a run of the service *)

Ltac crush_world :=
  unfold recompute_and_persist, persist, mutate_in_place, repo_update, set_by_id,
    answered, utcnow in *;
  simpl in *; simplify_eq; simpl;
  rewrite ?lookup_insert_eq, ?insert_insert_eq; try done.

Lemma loop_state_nil k wf w ts :
  loop_state k [] wf w ts
  = mkSys (notify_finish wf (mutate_in_place k wf w)) (<[k := Finished]> ts).
Proof.
  unfold loop_state, next_stage. simpl. by rewrite lookup_insert_eq.
Qed.

Lemma loop_state_cons k s rest wf w ts wf1 w1 :
  Workflow.id wf = k →
  mark_running s wf w = Some (wf1, w1) →
  loop_state k (s :: rest) wf w ts
  = mkSys (mutate_in_place k wf1 w1) (<[k := AwaitTrigger s rest]> ts).
Proof.
  intros Hid Hrun. unfold loop_state, next_stage. simpl. rewrite lookup_insert_eq.
  unfold mark_running in *.
  destruct (Workflow.stage_results wf !! CertificationStage.value s); [|done].
  crush_world.
Qed.

Lemma step_start_eq k st wf wf0 w0 :
  tasks st !! k = Some Scheduled →
  by_id (world st) !! k = Some wf → Workflow.id wf = k →
  mark_queued wf (world st) = (wf0, w0) →
  step (Start k) st = Some (loop_state k (Workflow.stages wf0) wf0 w0 (tasks st)).
Proof.
  intros Ht Hwf Hid Hq. cbn [step]. rewrite Ht, Hwf. unfold set_task, loop_state.
  unfold on_slot. rewrite Hwf, Hq.
  unfold mark_queued in Hq. crush_world.
Qed.

Lemma step_trigger_raised_eq k description s rest wf w ts wf2 w2 :
  Workflow.id wf = k →
  settle_stage s (Raised description) wf (answered w) = (wf2, w2) →
  step (TriggerRaised k description)
    (mkSys (mutate_in_place k wf w) (<[k := AwaitTrigger s rest]> ts))
  = Some (loop_state k rest wf2 w2 ts).
Proof.
  intros Hid Hs. cbn [step]. simpl. rewrite lookup_insert_eq.
  unfold set_task, loop_state, on_slot. simpl. rewrite lookup_insert_eq.
  unfold settle_stage, stage_failed in *. crush_world.
Qed.

Lemma step_trigger_returned_eq k executor_ref s rest wf w ts :
  step (TriggerReturned k executor_ref)
    (mkSys (mutate_in_place k wf w) (<[k := AwaitTrigger s rest]> ts))
  = Some (mkSys (mutate_in_place k
                   (record_executor_ref s executor_ref wf (answered w)).1 (answered w))
            (<[k := AwaitSleep s rest]> ts)).
Proof.
  cbn [step]. simpl. rewrite lookup_insert_eq.
  unfold set_task, on_slot. simpl. rewrite lookup_insert_eq.
  unfold record_executor_ref. crush_world.
Qed.

Lemma step_sleep_done_eq k s rest wf w ts wf1 w1 wf2 w2 :
  Workflow.id wf = k →
  stage_succeeded s wf w = (wf1, w1) →
  recompute_and_persist wf1 w1 = (wf2, w2) →
  step (SleepDone k) (mkSys (mutate_in_place k wf w) (<[k := AwaitSleep s rest]> ts))
  = Some (loop_state k rest wf2 w2 ts).
Proof.
  intros Hid Hs Hr. cbn [step]. simpl. rewrite lookup_insert_eq.
  unfold set_task, loop_state, on_slot. simpl. rewrite lookup_insert_eq.
  unfold stage_succeeded in *. crush_world.
Qed.

Lemma run_app es1 es2 st :
  run (es1 ++ es2) st = match run es1 st with Some st' => run es2 st' | None => None end.
Proof.
  revert st. induction es1 as [|e es1 IH]; intros st; simpl; [done|].
  destruct (step e st); [apply IH | done].
Qed.

Lemma run_stage_events exec_client k stages :
  ∀ wf w ts,
    Workflow.id wf = k →
    (∀ s, s ∈ stages → is_Some (Workflow.stage_results wf !! CertificationStage.value s)) →
    run (stage_events exec_client k stages wf w) (loop_state k stages wf w ts)
    = Some (mkSys
              (let '(_, wf', w') := run_stages exec_client stages wf w in
               notify_finish wf' (mutate_in_place k wf' w'))
              (<[k := Finished]> ts)).
Proof.
  induction stages as [|s rest IH]; intros wf w ts Hid Hbound.
  - simpl. by rewrite loop_state_nil.
  - destruct (Hbound s) as [sr Hsr]; [left|].
    destruct (iteration_spec exec_client s wf w sr Hsr)
      as (wf1 & w1 & o & wf2 & w2 & Hrun & Hcall & Hsettle & _ & _ & _ & Hev2).
    assert (Workflow.id wf1 = k) as Hid1.
    { destruct (mark_running_spec s wf w sr Hsr) as (? & ? & Hrun' & _ & _ & _ & _ & Hev1).
      rewrite Hrun in Hrun'. simplify_eq. eauto using evolves_id. }
    cbn [stage_events run_stages]. rewrite Hrun, Hcall, Hsettle.
    rewrite (loop_state_cons k s rest wf w ts wf1 w1 Hid Hrun), run_app.
    assert (run (match o with
                 | Returned executor_ref => [TriggerReturned k executor_ref; SleepDone k]
                 | Raised description => [TriggerRaised k description]
                 end)
              (mkSys (mutate_in_place k wf1 w1) (<[k := AwaitTrigger s rest]> ts))
            = Some (loop_state k rest wf2 w2 ts)) as ->.
    { destruct o as [executor_ref|description]; cbn [run].
      - rewrite step_trigger_returned_eq.
        unfold settle_stage in Hsettle.
        destruct (record_executor_ref s executor_ref wf1 (answered w1)) as [wf1a w1a] eqn:Hrec.
        assert (w1a = answered w1) as -> by (unfold record_executor_ref in Hrec; by simplify_eq).
        destruct (stage_succeeded s wf1a (answered w1)) as [wf1b w1b] eqn:Hsucc.
        cbn [fst].
        rewrite (step_sleep_done_eq k s rest wf1a (answered w1) ts wf1b w1b wf2 w2); try done.
        destruct (record_executor_ref_spec s executor_ref wf1 (answered w1))
          as (? & Hrec' & _ & _ & _ & _ & Hev). rewrite Hrec in Hrec'. simplify_eq.
        eauto using evolves_id.
      - by rewrite (step_trigger_raised_eq k description s rest wf1 w1 ts wf2 w2). }
    apply IH.
    + eauto using evolves_id.
    + intros s' Hs'. eapply evolves_bound; [done|]. apply Hbound. by right.
Qed.

(** The uninterrupted advancement sequence is a run of the service: the
    events of [kickoff_events] lead from a state where the task is scheduled
    to the state that [_kickoff_stages] computes. *)
Theorem kickoff_is_a_run exec_client k st wf :
  tasks st !! k = Some Scheduled →
  by_id (world st) !! k = Some wf →
  Workflow.id wf = k →
  (∀ s, s ∈ Workflow.stages wf →
        is_Some (Workflow.stage_results wf !! CertificationStage.value s)) →
  run (kickoff_events exec_client k (world st)) st
  = Some (mkSys (_kickoff_stages exec_client k (world st)).2 (<[k := Finished]> (tasks st))).
Proof.
  intros Ht Hwf Hid Hbound. unfold kickoff_events, _kickoff_stages, repo_get. rewrite Hwf.
  destruct (mark_queued_spec wf (world st)) as (wf0 & Hq & Hres0 & Hev0).
  rewrite Hq. cbn [run].
  rewrite (step_start_eq k st wf wf0 _ Ht Hwf Hid Hq).
  assert (∀ s, s ∈ Workflow.stages wf0 →
               is_Some (Workflow.stage_results wf0 !! CertificationStage.value s)) as Hbound0.
  { intros s Hs. rewrite Hres0. apply Hbound. by rewrite <- (evolves_stages wf wf0 Hev0). }
  rewrite run_stage_events; [|eauto using evolves_id | done].
  destruct (run_stages_spec exec_client (Workflow.stages wf0) wf0
              (repo_update wf0 (utcnow (world st)).2) Hbound0)
    as (wf' & w' & -> & _). done.
Qed.

Lemma run_reachable es st st' : reachable st → run es st = Some st' → reachable st'.
Proof.
  intros (clock & es0 & Hrun0) Hrun. exists clock, (es0 ++ es)%list.
  by rewrite run_app, Hrun0.
Qed.

Lemma kickoff_reachable exec_client k st :
  reachable st → tasks st !! k = Some Scheduled →
  reachable (mkSys (_kickoff_stages exec_client k (world st)).2
               (<[k := Finished]> (tasks st))).
Proof.
  intros Hreach Ht. pose proof (reachable_invariant st Hreach) as [Hstore Htasks].
  destruct (Htasks k Scheduled Ht) as (wf & Hwf & _).
  destruct (Hstore k wf Hwf) as [(Hid & _ & Hb) _].
  eapply run_reachable; [done|]. by eapply kickoff_is_a_run.
Qed.

Lemma reachable_after es :
  is_Some (run es (boot Sample.clock)) → reachable (Sample.after es).
Proof.
  intros [st Hst]. exists Sample.clock, es. unfold Sample.after. by rewrite Hst.
Qed.

(** ** What the advancement sequence does to the world *)

Lemma mark_queued_frame wf w :
  sent (mark_queued wf w).2 = sent w
  ∧ exec_calls (mark_queued wf w).2 = exec_calls w
  ∧ clock (mark_queued wf w).2 = clock w
  ∧ clock_reads (mark_queued wf w).2 = S (clock_reads w)
  ∧ Workflow.notification (mark_queued wf w).1 = Workflow.notification wf.
Proof. done. Qed.

Lemma mark_running_frame s wf w wf1 w1 :
  mark_running s wf w = Some (wf1, w1) →
  sent w1 = sent w
  ∧ exec_calls w1 = exec_calls w
  ∧ clock w1 = clock w
  ∧ clock_reads w1 = S (S (clock_reads w))
  ∧ Workflow.notification wf1 = Workflow.notification wf.
Proof.
  unfold mark_running. destruct (_ !! _); [|done]. by intros [= <- <-].
Qed.

Lemma settle_stage_frame s o wf w wf1 w1 :
  settle_stage s o wf w = (wf1, w1) →
  sent w1 = sent w
  ∧ exec_calls w1 = exec_calls w
  ∧ clock w1 = clock w
  ∧ clock_reads w1 = S (S (clock_reads w))
  ∧ Workflow.notification wf1 = Workflow.notification wf.
Proof. destruct o; by intros [= <- <-]. Qed.

Lemma run_stages_frame exec_client stages :
  ∀ wf w wf' w' b,
    run_stages exec_client stages wf w = (b, wf', w') →
    sent w' = sent w
    ∧ clock w' = clock w
    ∧ Workflow.notification wf' = Workflow.notification wf
    ∧ (b = true →
       exec_calls w' = (exec_calls w + length stages)%nat
       ∧ clock_reads w' = (clock_reads w + 4 * length stages)%nat).
Proof.
  induction stages as [|s rest IH]; intros wf w wf' w' b Hrun.
  - simpl in Hrun. simplify_eq. split_and!; try done.
  - cbn [run_stages] in Hrun.
    destruct (mark_running s wf w) as [[wf1 w1]|] eqn:Hmark.
    + apply mark_running_frame in Hmark as (Hs1 & He1 & Hc1 & Hr1 & Hn1).
      unfold call_trigger in Hrun.
      destruct (settle_stage s _ wf1 (answered w1)) as [wf2 w2] eqn:Hsettle.
      apply settle_stage_frame in Hsettle as (Hs2 & He2 & Hc2 & Hr2 & Hn2).
      apply IH in Hrun as (Hs3 & Hc3 & Hn3 & Hb).
      simpl in Hs2, He2, Hc2, Hr2.
      split_and!; [congruence..|].
      intros ->. destruct (Hb eq_refl) as [He3 Hr3]. simpl. lia.
    + simplify_eq. done.
Qed.

Lemma CertificationStage_value_inj s s' :
  CertificationStage.value s = CertificationStage.value s' → s = s'.
Proof. by destruct s, s'. Qed.

Lemma last_occurrence {A} `{EqDecision A} (l : list A) (x : A) :
  x ∈ l → ∃ i, l !! i = Some x ∧ x ∉ drop (S i) l.
Proof.
  induction l as [|y l IH]; intros Hx; [by apply elem_of_nil in Hx|].
  destruct (decide (x ∈ l)) as [Hin|Hnin].
  - destruct (IH Hin) as (i & Hi & Hd). by exists (S i).
  - apply elem_of_cons in Hx as [->|Hx]; [|done]. exists 0%nat. split; [done|]. simpl. by rewrite drop_0.
Qed.

(** The entry of a planned stage after the loop: what the handling of the
    last executor call for this stage left.  The call for position [i] of the
    plan is call number [exec_calls w + i], made with the identifier, the git
    data and the metadata of the workflow; the start time is read at reading
    [4 i] of the clock and the finish time two readings later. *)
Lemma run_stages_outcomes exec_client stages :
  ∀ wf w,
    (∀ s, s ∈ stages → is_Some (Workflow.stage_results wf !! CertificationStage.value s)) →
    ∃ wf' w',
      run_stages exec_client stages wf w = (true, wf', w')
      ∧ ∀ i s, stages !! i = Some s → s ∉ drop (S i) stages →
          ∃ sr,
            Workflow.stage_results wf' !! CertificationStage.value s
            = Some (settled_entry
                      (exec_client (exec_calls w + i)%nat (Workflow.id wf) s
                         (Workflow.git wf) (Workflow.metadata wf))
                      (clock w (clock_reads w + 4 * i + 2)%nat)
                      (StageResult.set_started_at
                         (Some (clock w (clock_reads w + 4 * i)%nat))
                         (StageResult.set_status StageStatus.RUNNING sr)))
            ∧ (s ∉ take i stages →
               Workflow.stage_results wf !! CertificationStage.value s = Some sr).
Proof.
  induction stages as [|s0 rest IH]; intros wf w Hbound.
  - exists wf, w. split; [done|]. intros i s Hi. by rewrite lookup_nil in Hi.
  - destruct (Hbound s0) as [sr0 Hsr0]; [left|].
    destruct (mark_running_spec s0 wf w sr0 Hsr0)
      as (wf1 & w1' & Hmark & _ & Hent1 & Hne1 & _ & Hev1).
    pose proof (mark_running_frame _ _ _ _ _ Hmark) as (_ & He1 & Hc1 & Hr1 & _).
    set (w1 := repo_update wf1 w1') in *.
    set (o := exec_client (exec_calls w1) (Workflow.id wf1) s0 (Workflow.git wf1)
                (Workflow.metadata wf1)).
    destruct (settle_stage_spec s0 o wf1 (answered w1) _ Hent1)
      as (wf2 & w2' & Hsettle & _ & Hent2 & Hne2 & _ & Hev2).
    pose proof (settle_stage_frame _ _ _ _ _ _ Hsettle) as (_ & He2 & Hc2 & Hr2 & _).
    set (w2 := repo_update wf2 w2') in *.
    assert (∀ s, s ∈ rest →
              is_Some (Workflow.stage_results wf2 !! CertificationStage.value s)) as Hb2.
    { intros s Hs. eapply evolves_bound; [exact Hev2|].
      eapply evolves_bound; [exact Hev1|]. apply Hbound. by right. }
    destruct (IH wf2 w2 Hb2) as (wf' & w' & Hrest & Hout).
    destruct (run_stages_spec exec_client rest wf2 w2 Hb2)
      as (wf'' & w'' & Hrest' & _ & Hframe & _).
    rewrite Hrest in Hrest'. simplify_eq.
    exists wf'', w''. split.
    { cbn [run_stages]. rewrite Hmark. unfold call_trigger. fold w1. fold o.
      by rewrite Hsettle. }
    pose proof Hev1 as (Hid1 & _ & Hg1 & Hm1 & _).
    pose proof Hev2 as (Hid2 & _ & Hg2 & Hm2 & _).
    assert (exec_calls w2 = (exec_calls w + 1)%nat) as Hcalls.
    { rewrite He2. change (exec_calls (answered w1)) with (S (exec_calls w1)).
      rewrite He1. lia. }
    assert (clock_reads w2 = (clock_reads w + 4)%nat) as Hreads.
    { rewrite Hr2. change (clock_reads (answered w1)) with (clock_reads w1).
      rewrite Hr1. lia. }
    assert (clock w2 = clock w) as Hclock.
    { rewrite Hc2. change (clock (answered w1)) with (clock w1). by rewrite Hc1. }
    intros [|i] s Hi Hlast.
    + simpl in Hi, Hlast. simplify_eq. rewrite drop_0 in Hlast. exists sr0.
      split; [|done].
      rewrite Hframe.
      2:{ intros Hin. apply list_elem_of_fmap in Hin as (s' & Heq & Hin).
          apply CertificationStage_value_inj in Heq as <-. done. }
      rewrite Hent2. subst o.
      change (clock (answered w1)) with (clock w1).
      change (clock_reads (answered w1)) with (clock_reads w1).
      rewrite He1, Hid1, Hg1, Hm1, Hc1, Hr1.
      replace (exec_calls w + 0)%nat with (exec_calls w) by lia.
      replace (clock_reads w + 4 * 0 + 2)%nat with (S (S (clock_reads w))) by lia.
      by replace (clock_reads w + 4 * 0)%nat with (clock_reads w) by lia.
    + simpl in Hi, Hlast. destruct (Hout i s Hi Hlast) as (sr & Hent & Horig).
      exists sr. split.
      * rewrite Hent, Hcalls, Hreads, Hclock, Hid2, Hid1, Hg2, Hg1, Hm2, Hm1.
        replace (exec_calls w + 1 + i)%nat with (exec_calls w + S i)%nat by lia.
        replace (clock_reads w + 4 + 4 * i + 2)%nat
          with (clock_reads w + 4 * S i + 2)%nat by lia.
        by replace (clock_reads w + 4 + 4 * i)%nat
          with (clock_reads w + 4 * S i)%nat by lia.
      * intros Hnin. simpl in Hnin. apply not_elem_of_cons in Hnin as [Hne Hnin].
        rewrite <- Hne1, <- Hne2; [by apply Horig| |];
          intros Heq; by apply CertificationStage_value_inj in Heq.
Qed.

Lemma sent_notify_finish wf w :
  sent (notify_finish wf w)
  = (sent w ++ if on_finish_requested (Workflow.notification wf)
               then [finished_message wf] else [])%list
  ∧ exec_calls (notify_finish wf w) = exec_calls w
  ∧ clock_reads (notify_finish wf w) = clock_reads w
  ∧ clock (notify_finish wf w) = clock w.
Proof.
  unfold notify_finish, notify, on_finish_requested.
  destruct (Workflow.notification wf) as [c|]; simpl.
  - destruct (NotificationConfig.on_finish c); simpl; by rewrite ?app_nil_r.
  - by rewrite app_nil_r.
Qed.

(** The uninterrupted advancement sequence, with its effects on the world
    and the entry it leaves for every planned stage. *)
Lemma kickoff_outcomes exec_client k w wf :
  by_id w !! k = Some wf →
  (∀ s, s ∈ Workflow.stages wf →
        is_Some (Workflow.stage_results wf !! CertificationStage.value s)) →
  ∃ wf' w',
    _kickoff_stages exec_client k w = (true, w')
    ∧ by_id w' !! k = Some wf'
    ∧ evolves wf wf'
    ∧ Workflow.notification wf' = Workflow.notification wf
    ∧ sent w' = (sent w ++ if on_finish_requested (Workflow.notification wf)
                           then [finished_message wf'] else [])%list
    ∧ exec_calls w' = (exec_calls w + length (Workflow.stages wf))%nat
    ∧ clock_reads w' = (clock_reads w + 1 + 4 * length (Workflow.stages wf))%nat
    ∧ clock w' = clock w
    ∧ (Workflow.stages wf ≠ [] →
       Workflow.status wf' = compute_overall_status (Workflow.stage_results wf'))
    ∧ ∀ i s, Workflow.stages wf !! i = Some s → s ∉ drop (S i) (Workflow.stages wf) →
        ∃ sr,
          Workflow.stage_results wf' !! CertificationStage.value s
          = Some (settled_entry
                    (exec_client (exec_calls w + i)%nat (Workflow.id wf) s
                       (Workflow.git wf) (Workflow.metadata wf))
                    (clock w (clock_reads w + 1 + 4 * i + 2)%nat)
                    (StageResult.set_started_at
                       (Some (clock w (clock_reads w + 1 + 4 * i)%nat))
                       (StageResult.set_status StageStatus.RUNNING sr)))
          ∧ (s ∉ take i (Workflow.stages wf) →
             Workflow.stage_results wf !! CertificationStage.value s = Some sr).
Proof.
  intros Hwf Hbound. unfold _kickoff_stages, repo_get. rewrite Hwf.
  destruct (mark_queued_spec wf w) as (wf0 & Hq & Hres0 & Hev0).
  pose proof (mark_queued_frame wf w) as (Hs0 & He0 & Hc0 & Hr0 & Hn0).
  rewrite Hq in Hs0, He0, Hc0, Hr0, Hn0 |- *. cbn [fst snd] in Hs0, He0, Hc0, Hr0, Hn0.
  set (w0 := repo_update wf0 (utcnow w).2) in *.
  pose proof Hev0 as (Hid0 & Hstages0 & Hg0 & Hm0 & _).
  assert (∀ s, s ∈ Workflow.stages wf0 →
            is_Some (Workflow.stage_results wf0 !! CertificationStage.value s)) as Hb0.
  { intros s Hs. rewrite Hres0. apply Hbound. by rewrite <- Hstages0. }
  destruct (run_stages_outcomes exec_client (Workflow.stages wf0) wf0 w0 Hb0)
    as (wf' & w' & Hrun & Hout).
  destruct (run_stages_spec exec_client (Workflow.stages wf0) wf0 w0 Hb0)
    as (wf'' & w'' & Hrun' & Hev' & _ & _ & Hst').
  rewrite Hrun in Hrun'. simplify_eq.
  destruct (run_stages_frame _ _ _ _ _ _ _ Hrun) as (Hs1 & Hc1 & Hn1 & Hb1).
  destruct (Hb1 eq_refl) as [He1 Hr1].
  rewrite Hrun.
  destruct (sent_notify_finish wf'' (mutate_in_place k wf'' w'')) as (Hs2 & He2 & Hr2 & Hc2).
  exists wf''. eexists. split; [reflexivity|]. split_and!.
  - rewrite by_id_notify_finish. simpl. apply lookup_insert_eq.
  - eauto using evolves_trans.
  - congruence.
  - rewrite Hs2. simpl. rewrite Hs1, Hs0. by rewrite Hn1, Hn0.
  - rewrite He2. simpl. rewrite He1, He0. by rewrite Hstages0.
  - rewrite Hr2. simpl. rewrite Hr1, Hr0, Hstages0. lia.
  - rewrite Hc2. simpl. by rewrite Hc1, Hc0.
  - intros Hne. apply Hst'. by rewrite Hstages0.
  - intros i s Hi Hlast. rewrite <- Hstages0 in Hi, Hlast.
    destruct (Hout i s Hi Hlast) as (sr & Hent & Horig).
    exists sr. split.
    + rewrite Hent, He0, Hr0, Hc0, Hid0, Hg0, Hm0.
      replace (S (clock_reads w) + 4 * i + 2)%nat
        with (clock_reads w + 1 + 4 * i + 2)%nat by lia.
      by replace (S (clock_reads w) + 4 * i)%nat
        with (clock_reads w + 1 + 4 * i)%nat by lia.
    + intros Hnin. rewrite <- Hres0. apply Horig. by rewrite Hstages0.
Qed.

(** ** The advancement sequence does not stop at a failure *)

(** C1, as stated, fails: the executor call of the first stage fails, and
    the second stage is run all the same; it ends [succeeded], not
    [pending]. *)
Lemma kickoff_runs_stage_after_failure :
  Workflow.stages (Sample.wf_in Sample.failed_first)
  = [CertificationStage.CODE_QUALITY; CertificationStage.SECURITY]
  ∧ StageResult.status <$>
      (Workflow.stage_results (Sample.wf_in Sample.failed_first) !! "code_quality")
    = Some StageStatus.FAILED
  ∧ StageResult.status <$>
      (Workflow.stage_results (Sample.wf_in Sample.failed_first) !! "security")
    = Some StageStatus.SUCCEEDED.
Proof. vm_compute. split_and!; reflexivity. Qed.

(** That state of the workflow is one the running service reaches. *)
Example failed_first_reachable :
  reachable (mkSys Sample.failed_first
               (<["wf-1" := Finished]> (tasks (Sample.after [Create Sample.req_two "wf-1"])))).
Proof.
  apply (kickoff_reachable Sample.boom_first "wf-1"
           (Sample.after [Create Sample.req_two "wf-1"])).
  - apply reachable_after. vm_compute. eauto.
  - vm_compute. reflexivity.
Qed.

(** C1, amended: a failed stage does not end the loop.  When the sequence
    runs undisturbed (nothing else is served during its [await]s) on a stored
    workflow whose planned stages all have an entry, it runs to its end and
    visits the planned stages in planning order, whatever the earlier
    outcomes were.  It makes one executor call per position of the plan; the
    stage at position [i] gets call number [i] of the run, is started at
    reading [4 i + 1] and finished at reading [4 i + 3] of the clock (reading
    0 is the time stamp of [queued]), and ends [succeeded] if that call
    returned and [failed] if it raised (for a stage that is planned more than
    once this is what its last position leaves).  Afterwards every planned
    stage has been started and finished and its status is [succeeded] or
    [failed]; none is left [pending]. *)
Theorem kickoff_attempts_every_planned_stage
    (exec_client : ExecClient) (workflow_id : string) (w : World) (wf : Workflow.t) :
  get_workflow workflow_id w = Some wf →
  (∀ s, s ∈ Workflow.stages wf →
        is_Some (Workflow.stage_results wf !! CertificationStage.value s)) →
  ∃ w' wf',
    _kickoff_stages exec_client workflow_id w = (true, w')
    ∧ get_workflow workflow_id w' = Some wf'
    ∧ Workflow.stages wf' = Workflow.stages wf
    ∧ exec_calls w' = (exec_calls w + length (Workflow.stages wf))%nat
    ∧ (∀ s, s ∈ Workflow.stages wf →
         ∃ r, Workflow.stage_results wf' !! CertificationStage.value s = Some r
              ∧ (StageResult.status r = StageStatus.SUCCEEDED
                 ∨ StageResult.status r = StageStatus.FAILED)
              ∧ is_Some (StageResult.started_at r)
              ∧ is_Some (StageResult.finished_at r))
    ∧ (∀ i s, Workflow.stages wf !! i = Some s →
         s ∉ drop (S i) (Workflow.stages wf) →
         ∃ r, Workflow.stage_results wf' !! CertificationStage.value s = Some r
              ∧ StageResult.status r
                = match exec_client (exec_calls w + i)%nat (Workflow.id wf) s
                          (Workflow.git wf) (Workflow.metadata wf) with
                  | Returned _ => StageStatus.SUCCEEDED
                  | Raised _ => StageStatus.FAILED
                  end
              ∧ StageResult.started_at r
                = Some (clock w (clock_reads w + 1 + 4 * i)%nat)
              ∧ StageResult.finished_at r
                = Some (clock w (clock_reads w + 1 + 4 * i + 2)%nat)).
Proof.
  intros Hwf Hbound.
  destruct (kickoff_stages_spec exec_client workflow_id w wf Hwf Hbound)
    as (wf' & w' & Hrun & Hwf' & Hev & Hall & _).
  destruct (kickoff_outcomes exec_client workflow_id w wf Hwf Hbound)
    as (wf'' & w'' & Hrun' & Hwf'' & _ & _ & _ & Hcalls & _ & _ & _ & Hout).
  rewrite Hrun in Hrun'. simplify_eq.
  unfold get_workflow, repo_get in Hwf'. rewrite Hwf' in Hwf''. simplify_eq.
  exists w'', wf''. split_and!; try done.
  - by apply evolves_stages.
  - intros i s Hi Hlast. destruct (Hout i s Hi Hlast) as (sr & Hent & _).
    eexists. split; [exact Hent|].
    by destruct (exec_client _ _ _ _ _).
Qed.

Lemma kickoff_attempts_every_planned_stage_witness :
  ∃ w' wf',
    _kickoff_stages Sample.boom_first "wf-1" (Sample.created Sample.req_two) = (true, w')
    ∧ get_workflow "wf-1" w' = Some wf'
    ∧ exec_calls w' = 2%nat
    ∧ (∃ r, Workflow.stage_results wf' !! "code_quality" = Some r
            ∧ StageResult.status r = StageStatus.FAILED
            ∧ StageResult.started_at r = Some 3000
            ∧ StageResult.finished_at r = Some 5000)
    ∧ (∃ r, Workflow.stage_results wf' !! "security" = Some r
            ∧ StageResult.status r = StageStatus.SUCCEEDED
            ∧ StageResult.started_at r = Some 7000
            ∧ StageResult.finished_at r = Some 9000).
Proof.
  destruct (kickoff_attempts_every_planned_stage Sample.boom_first "wf-1"
              (Sample.created Sample.req_two)
              (Sample.wf_in (Sample.created Sample.req_two)))
    as (w' & wf' & Hrun & Hwf' & _ & Hcalls & _ & Hpos).
  { vm_compute. reflexivity. }
  { intros s Hs. vm_compute in Hs.
    apply elem_of_cons in Hs as [-> | Hs]; [vm_compute; eauto|].
    apply elem_of_cons in Hs as [-> | Hs]; [vm_compute; eauto|].
    by apply elem_of_nil in Hs. }
  exists w', wf'. split; [exact Hrun|]. split; [exact Hwf'|]. split; [exact Hcalls|].
  split.
  - apply (Hpos 0%nat CertificationStage.CODE_QUALITY); [reflexivity|].
    apply (bool_decide_unpack _). vm_compute. exact I.
  - apply (Hpos 1%nat CertificationStage.SECURITY); [reflexivity|].
    apply (bool_decide_unpack _). vm_compute. exact I.
Defined.

(** The amended statement is about the undisturbed run: a report delivered
    while the task waits can set a finished stage back to [pending], and the
    task, which never returns to a stage, then finishes with that stage
    [pending]. *)
Example report_during_sequence_leaves_pending :
  let st := Sample.after
              [Create Sample.req_two "wf-1"; Start "wf-1";
               TriggerReturned "wf-1" "exec-1"; SleepDone "wf-1";
               Update "wf-1" (Sample.report CertificationStage.CODE_QUALITY
                                StageStatus.PENDING);
               TriggerReturned "wf-1" "exec-2"; SleepDone "wf-1"] in
  tasks st !! "wf-1" = Some Finished
  ∧ StageResult.status <$>
      (Workflow.stage_results (Sample.wf_in (world st)) !! "code_quality")
    = Some StageStatus.PENDING
  ∧ Workflow.status (Sample.wf_in (world st)) = WorkflowStatus.PARTIAL.
Proof. vm_compute. split_and!; reflexivity. Qed.

(** In the running service: right after a failed executor call the task
    marks the next planned stage [running] and waits for its executor
    call. *)
Lemma failure_starts_next_stage k description st st' s s' rest :
  reachable st →
  tasks st !! k = Some (AwaitTrigger s (s' :: rest)) →
  step (TriggerRaised k description) st = Some st' →
  tasks st' !! k = Some (AwaitTrigger s' rest)
  ∧ ∃ wf' r,
      get_workflow k (world st') = Some wf'
      ∧ Workflow.stage_results wf' !! CertificationStage.value s' = Some r
      ∧ StageResult.status r = StageStatus.RUNNING.
Proof.
  intros Hreach Ht Hstep. apply reachable_invariant in Hreach as [Hstore Htasks].
  cbn [step] in Hstep. rewrite Ht in Hstep. simplify_eq.
  destruct (Htasks k _ Ht) as (wf & Hwf & Hs & Hrest).
  destruct (Hstore k wf Hwf) as [(Hid & Hne & Hb) _].
  destruct (on_slot_stage_failed k s description (answered (world st)) wf Hwf)
    as (wf1 & Hby1 & _ & _ & Hev1).
  set (w1 := on_slot k (stage_failed s description) (answered (world st))) in *.
  destruct (on_slot_recompute_and_persist k w1 wf1) as (wf2 & Hby2 & Hres2 & Hc2 & Hev2).
  { rewrite Hby1. apply lookup_insert_eq. }
  { eauto using evolves_id. }
  set (w2 := on_slot k recompute_and_persist w1) in *.
  destruct (next_stage_spec k (s' :: rest) w2 wf2) as (wf' & t' & Hby' & Ht' & Hev' & Hcase).
  { rewrite Hby2. apply lookup_insert_eq. }
  { eauto using evolves_id. }
  destruct (evolves_bound wf wf2 (CertificationStage.value s')) as [sr Hsr].
  { eauto using evolves_trans. }
  { apply Hb, Hrest. left. }
  rewrite Hsr in Hcase. destruct Hcase as (-> & _ & Hentry).
  unfold set_task. simpl. split.
  - rewrite Ht'. apply lookup_insert_eq.
  - exists wf'. eexists. split_and!.
    + unfold get_workflow, repo_get. rewrite Hby'. apply lookup_insert_eq.
    + exact Hentry.
    + done.
Qed.

(** ** The keys of [stage_results] *)

(** C3, as stated, fails: a report for a stage outside the plan adds a key
    for it. *)
Lemma update_stage_status_adds_unplanned_key :
  dom (Workflow.stage_results (Sample.wf_in Sample.unplanned_report))
  ≠ list_to_set (CertificationStage.value
                   <$> Workflow.stages (Sample.wf_in Sample.unplanned_report)).
Proof.
  intros H. apply (f_equal (λ X : gset string, bool_decide ("security" ∈ X))) in H.
  vm_compute in H. discriminate H.
Qed.

Example unplanned_report_plan :
  Workflow.stages (Sample.wf_in Sample.unplanned_report)
  = [CertificationStage.CODE_QUALITY]
  ∧ is_Some (Workflow.stage_results (Sample.wf_in Sample.unplanned_report) !! "security").
Proof. vm_compute. eauto. Qed.

(** C3, amended: creation initializes exactly one entry per planned stage;
    at every observation point the keys of [stage_results] include all
    planned stages; no event removes a key or changes the plan; a step of the
    advancement sequence leaves the set of keys as it is, and an external
    update for stage [s] of a stored workflow makes it the old set with the
    key of [s] added (a new key exactly when [s] had no entry, which can be
    the case only for a stage outside the plan). *)
Theorem stage_results_keys :
  (∀ req new_id w,
     dom (Workflow.stage_results (create_workflow req new_id w).1)
     = list_to_set (CertificationStage.value
                      <$> Workflow.stages (create_workflow req new_id w).1)
     ∧ ∀ k r, Workflow.stage_results (create_workflow req new_id w).1 !! k = Some r →
              StageResult.status r = StageStatus.PENDING)
  ∧ (∀ st k wf,
       reachable st → get_workflow k (world st) = Some wf →
       list_to_set (CertificationStage.value <$> Workflow.stages wf)
       ⊆ dom (Workflow.stage_results wf))
  ∧ (∀ e st st' k wf,
       reachable st → step e st = Some st' → get_workflow k (world st) = Some wf →
       ∃ wf', get_workflow k (world st') = Some wf'
              ∧ Workflow.stages wf' = Workflow.stages wf
              ∧ dom (Workflow.stage_results wf')
                = match e with
                  | Update k' req =>
                      if decide (k' = k)
                      then {[CertificationStage.value
                               (WorkflowUpdateStatusRequest.stage req)]}
                             ∪ dom (Workflow.stage_results wf)
                      else dom (Workflow.stage_results wf)
                  | _ => dom (Workflow.stage_results wf)
                  end).
Proof.
  split_and!.
  - intros req new_id w.
    destruct (create_workflow_eq req new_id w) as (t0 & t1 & -> & _). simpl.
    split; [apply init_stage_results_dom|].
    intros k r Hk. by apply init_stage_results_entry in Hk as (s & _ & _ & ->).
  - intros st k wf Hreach Hwf. apply reachable_invariant in Hreach as [Hstore _].
    destruct (Hstore k wf Hwf) as [(_ & _ & Hb) _].
    intros key Hkey. apply elem_of_list_to_set, list_elem_of_fmap in Hkey as (s & -> & Hs).
    apply elem_of_dom. by apply Hb.
  - intros e st st' k wf Hreach Hstep Hwf. apply reachable_invariant in Hreach.
    destruct (step_spec e st st' Hreach Hstep) as [_ Hkeys].
    destruct (Hkeys k wf Hwf) as (wf' & Hwf' & Hst & Hd).
    exists wf'. split_and!; done.
Qed.

Lemma stage_results_keys_witness :
  ∃ wf',
    get_workflow "wf-1" Sample.unplanned_report = Some wf'
    ∧ Workflow.stages wf' = [CertificationStage.CODE_QUALITY]
    ∧ dom (Workflow.stage_results wf')
      = {["security"]}
          ∪ dom (Workflow.stage_results (Sample.wf_in (Sample.created Sample.req_one))).
Proof.
  destruct (proj2 (proj2 stage_results_keys)
              (Update "wf-1" (Sample.report CertificationStage.SECURITY StageStatus.RUNNING))
              (Sample.after [Create Sample.req_one "wf-1"])
              (Sample.after [Create Sample.req_one "wf-1";
                             Update "wf-1"
                               (Sample.report CertificationStage.SECURITY
                                  StageStatus.RUNNING)])
              "wf-1" (Sample.wf_in (Sample.created Sample.req_one)))
    as (wf' & Hwf' & Hst & Hd).
  - apply reachable_after. vm_compute. eauto.
  - vm_compute. reflexivity.
  - vm_compute. reflexivity.
  - exists wf'. split; [exact Hwf'|]. split; [exact Hst | exact Hd].
Defined.

(** ** The stored overall status *)

(** C5: at every observation point of the running service, the overall
    status stored with a workflow is the aggregate of its stored
    [stage_results]; and each operation that changes a stage (marking it
    running, handling the outcome of its executor call, an external update
    that finds its workflow) stores the recomputed status together with the
    change, whatever the state it starts from. *)
Theorem stored_status_is_derived :
  (∀ st k wf,
     reachable st → get_workflow k (world st) = Some wf →
     Workflow.status wf = compute_overall_status (Workflow.stage_results wf))
  ∧ (∀ k req w wf,
       get_workflow k w = Some wf →
       ∃ wf', (update_stage_status k req w).1 = Some wf'
              ∧ get_workflow k (update_stage_status k req w).2 = Some wf'
              ∧ Workflow.status wf' = compute_overall_status (Workflow.stage_results wf'))
  ∧ (∀ s wf w sr,
       Workflow.stage_results wf !! CertificationStage.value s = Some sr →
       ∃ wf' w', mark_running s wf w = Some (wf', w')
                 ∧ get_workflow (Workflow.id wf') w' = Some wf'
                 ∧ Workflow.status wf' = compute_overall_status (Workflow.stage_results wf'))
  ∧ (∀ s o wf w sr,
       Workflow.stage_results wf !! CertificationStage.value s = Some sr →
       ∃ wf' w', settle_stage s o wf w = (wf', w')
                 ∧ get_workflow (Workflow.id wf') w' = Some wf'
                 ∧ Workflow.status wf' = compute_overall_status (Workflow.stage_results wf')).
Proof.
  split_and!.
  - intros st k wf Hreach Hwf. apply reachable_invariant in Hreach as [Hstore _].
    by destruct (Hstore k wf Hwf) as [_ Hc].
  - intros k req w wf Hwf.
    destruct (update_stage_status_found k req w wf Hwf) as (wf' & Hret & Hst & _ & Hc & _).
    by exists wf'.
  - intros s wf w sr Hsr.
    destruct (mark_running_spec s wf w sr Hsr) as (wf' & w1 & -> & _ & _ & _ & Hc & _).
    eexists _, _. split; [reflexivity|]. split; [|done].
    unfold get_workflow, repo_get, repo_update. simpl. apply lookup_insert_eq.
  - intros s o wf w sr Hsr.
    destruct (settle_stage_spec s o wf w sr Hsr) as (wf' & w1 & -> & _ & _ & _ & Hc & _).
    eexists _, _. split; [reflexivity|]. split; [|done].
    unfold get_workflow, repo_get, repo_update. simpl. apply lookup_insert_eq.
Qed.

Lemma stored_status_is_derived_witness :
  Workflow.status (Sample.wf_in (world (Sample.after Sample.first_call_fails)))
  = compute_overall_status
      (Workflow.stage_results (Sample.wf_in (world (Sample.after Sample.first_call_fails)))).
Proof.
  apply (proj1 stored_status_is_derived (Sample.after Sample.first_call_fails) "wf-1").
  - apply reachable_after. vm_compute. eauto.
  - vm_compute. reflexivity.
Defined.

(** ** Failure of the executor call *)

(** One round of the loop whose executor call raises. *)
Lemma run_stages_raised exec_client s rest wf w sr description :
  Workflow.stage_results wf !! CertificationStage.value s = Some sr →
  (∀ s', s' ∈ rest →
         is_Some (Workflow.stage_results wf !! CertificationStage.value s')) →
  exec_client (exec_calls w) (Workflow.id wf) s (Workflow.git wf) (Workflow.metadata wf)
  = Raised description →
  ∃ wf1 w1,
    run_stages exec_client (s :: rest) wf w = run_stages exec_client rest wf1 w1
    ∧ by_id w1 !! Workflow.id wf = Some wf1
    ∧ Workflow.stage_results wf1 !! CertificationStage.value s
      = Some (settled_entry (Raised description) (clock w (clock_reads w + 2)%nat)
                (StageResult.set_started_at (Some (clock w (clock_reads w)))
                   (StageResult.set_status StageStatus.RUNNING sr)))
    ∧ Workflow.status wf1 = compute_overall_status (Workflow.stage_results wf1)
    ∧ exec_calls w1 = S (exec_calls w)
    ∧ (run_stages exec_client rest wf1 w1).1.1 = true.
Proof.
  intros Hsr Hrest Hraise.
  destruct (mark_running_spec s wf w sr Hsr)
    as (wf1 & w1' & Hmark & _ & Hent1 & _ & _ & Hev1).
  pose proof (mark_running_frame _ _ _ _ _ Hmark) as (_ & He1 & Hc1 & Hr1 & _).
  set (w1 := repo_update wf1 w1') in *.
  pose proof Hev1 as (Hid1 & _ & Hg1 & Hm1 & _).
  destruct (settle_stage_spec s (Raised description) wf1 (answered w1) _ Hent1)
    as (wf2 & w2' & Hsettle & _ & Hent2 & _ & Hc & Hev2).
  pose proof (settle_stage_frame _ _ _ _ _ _ Hsettle) as (_ & He2 & _).
  pose proof Hev2 as (Hid2 & _).
  exists wf2, (repo_update wf2 w2'). split_and!.
  - cbn [run_stages]. rewrite Hmark. unfold call_trigger. fold w1.
    rewrite He1, Hid1, Hg1, Hm1, Hraise. by rewrite Hsettle.
  - unfold repo_update. simpl. rewrite <- Hid1, <- Hid2. apply lookup_insert_eq.
  - rewrite Hent2.
    change (clock (answered w1)) with (clock w1).
    change (clock_reads (answered w1)) with (clock_reads w1).
    rewrite Hc1, Hr1. by replace (clock_reads w + 2)%nat with (S (S (clock_reads w))) by lia.
  - done.
  - rewrite He2. change (exec_calls (answered w1)) with (S (exec_calls w1)).
    by rewrite He1.
  - destruct (run_stages_spec exec_client rest wf2 (repo_update wf2 w2'))
      as (wf3 & w3 & -> & _); [|done].
    intros s' Hs'. eapply evolves_bound; [exact Hev2|].
    eapply evolves_bound; [exact Hev1|]. by apply Hrest.
Qed.

(** The step of the running service in which an executor call raises. *)
Lemma trigger_raised_effect k description st s rest :
  invariant st →
  tasks st !! k = Some (AwaitTrigger s rest) →
  head rest ≠ Some s →
  ∃ st' wf sr wf',
    step (TriggerRaised k description) st = Some st'
    ∧ by_id (world st) !! k = Some wf
    ∧ Workflow.stage_results wf !! CertificationStage.value s = Some sr
    ∧ by_id (world st') !! k = Some wf'
    ∧ Workflow.stage_results wf' !! CertificationStage.value s
      = Some (settled_entry (Raised description)
                (clock (world st) (clock_reads (world st))) sr)
    ∧ Workflow.status wf' = compute_overall_status (Workflow.stage_results wf')
    ∧ tasks st' !! k = Some (match rest with
                             | [] => Finished
                             | s' :: rest' => AwaitTrigger s' rest'
                             end).
Proof.
  intros [Hstore Htasks] Ht Hhead.
  destruct (Htasks k _ Ht) as (wf & Hwf & [sr Hsr] & Hrest).
  destruct (Hstore k wf Hwf) as [(Hid & Hne & Hb) _].
  destruct (on_slot_stage_failed k s description (answered (world st)) wf Hwf)
    as (wf1 & Hby1 & Hent1 & _ & Hev1).
  set (w1 := on_slot k (stage_failed s description) (answered (world st))) in *.
  destruct (on_slot_recompute_and_persist k w1 wf1) as (wf2 & Hby2 & Hres2 & Hc2 & Hev2).
  { rewrite Hby1. apply lookup_insert_eq. }
  { eauto using evolves_id. }
  set (w2 := on_slot k recompute_and_persist w1) in *.
  assert (by_id w2 !! k = Some wf2) as Hk2 by (rewrite Hby2; apply lookup_insert_eq).
  assert (Workflow.stage_results wf2 !! CertificationStage.value s
          = Some (settled_entry (Raised description)
                    (clock (world st) (clock_reads (world st))) sr))
    as Hent2 by (by rewrite Hres2, Hent1, Hsr).
  enough (∃ wf',
            by_id (next_stage k rest w2).2 !! k = Some wf'
            ∧ Workflow.stage_results wf' !! CertificationStage.value s
              = Some (settled_entry (Raised description)
                        (clock (world st) (clock_reads (world st))) sr)
            ∧ Workflow.status wf' = compute_overall_status (Workflow.stage_results wf')
            ∧ (next_stage k rest w2).1
              = match rest with
                | [] => Finished
                | s' :: rest' => AwaitTrigger s' rest'
                end) as (wf' & Hk' & Hent' & Hc' & Ht').
  { exists (set_task k (next_stage k rest w2) st), wf, sr, wf'.
    split_and!; try done.
    - cbn [step]. by rewrite Ht.
    - unfold set_task. cbn [tasks]. rewrite <- Ht'. apply lookup_insert_eq. }
  unfold next_stage. rewrite Hk2. destruct rest as [|s' rest'].
  - exists wf2. cbn [fst snd]. rewrite by_id_notify_finish, Hk2. split_and!; done.
  - assert (s' ≠ s) as Hss by (intros ->; by apply Hhead).
    destruct (evolves_bound wf wf2 (CertificationStage.value s')) as [sr' Hsr'].
    { eauto using evolves_trans. }
    { apply Hb, Hrest. left. }
    destruct (mark_running_spec s' wf2 w2 sr' Hsr')
      as (wf3 & w3 & -> & _ & _ & Hframe & Hc3 & _).
    exists wf3. cbn [fst snd mutate_in_place set_by_id by_id].
    rewrite lookup_insert_eq. split_and!; try done.
    rewrite Hframe; [done|]. intros Heq. by apply CertificationStage_value_inj in Heq.
Qed.

(** C8: a failing executor call in the advancement sequence is turned into
    state, it does not leave the sequence.

    (1) In the loop, at any round: when the call for the stage at the head
    raises, the round ends with the entry of the stage [failed], the text of
    the error as its message, the finish time stamp read two clock readings
    after the start time stamp of the round, the duration and the executor
    reference as they were before the round (no duration is made up); the
    recomputed overall status is [failed] and is stored with the workflow;
    and the loop goes on from there with the stages that remain and runs to
    its end.

    (2) For the whole sequence run undisturbed: if the call for position [i]
    of the plan raises (the stage not being planned again later), the
    sequence completes, and the stored workflow is [failed] with that entry
    [failed], carrying the message and both time stamps.

    (3) In the running service, whatever was served in between: a task that
    waits for the call of a stage can always be delivered the failure; the
    entry becomes [failed] with the message and the current time as finish
    time stamp, start time stamp and duration stay as they were, the stored
    overall status is the recomputed one and is [failed], and the task moves
    on to the next planned stage (a different one) or finishes. *)
Theorem executor_failure_absorbed :
  (∀ (exec_client : ExecClient) (s : CertificationStage.t)
     (rest : list CertificationStage.t) (wf : Workflow.t) (w : World)
     (sr : StageResult.t) (description : string),
     Workflow.stage_results wf !! CertificationStage.value s = Some sr →
     (∀ s', s' ∈ rest →
            is_Some (Workflow.stage_results wf !! CertificationStage.value s')) →
     exec_client (exec_calls w) (Workflow.id wf) s (Workflow.git wf) (Workflow.metadata wf)
     = Raised description →
     ∃ wf1 w1 r,
       run_stages exec_client (s :: rest) wf w = run_stages exec_client rest wf1 w1
       ∧ get_workflow (Workflow.id wf) w1 = Some wf1
       ∧ Workflow.stage_results wf1 !! CertificationStage.value s = Some r
       ∧ StageResult.status r = StageStatus.FAILED
       ∧ StageResult.error_message r = Some description
       ∧ StageResult.started_at r = Some (clock w (clock_reads w))
       ∧ StageResult.finished_at r = Some (clock w (clock_reads w + 2)%nat)
       ∧ StageResult.duration_ms r = StageResult.duration_ms sr
       ∧ StageResult.executor_ref r = StageResult.executor_ref sr
       ∧ Workflow.status wf1 = compute_overall_status (Workflow.stage_results wf1)
       ∧ Workflow.status wf1 = WorkflowStatus.FAILED
       ∧ (run_stages exec_client (s :: rest) wf w).1.1 = true)
  ∧ (∀ (exec_client : ExecClient) (workflow_id : string) (w : World) (wf : Workflow.t)
       (i : nat) (s : CertificationStage.t) (description : string),
       get_workflow workflow_id w = Some wf →
       (∀ s', s' ∈ Workflow.stages wf →
              is_Some (Workflow.stage_results wf !! CertificationStage.value s')) →
       Workflow.stages wf !! i = Some s →
       s ∉ drop (S i) (Workflow.stages wf) →
       exec_client (exec_calls w + i)%nat (Workflow.id wf) s (Workflow.git wf)
         (Workflow.metadata wf) = Raised description →
       ∃ w' wf' r,
         _kickoff_stages exec_client workflow_id w = (true, w')
         ∧ get_workflow workflow_id w' = Some wf'
         ∧ Workflow.stage_results wf' !! CertificationStage.value s = Some r
         ∧ StageResult.status r = StageStatus.FAILED
         ∧ StageResult.error_message r = Some description
         ∧ StageResult.started_at r = Some (clock w (clock_reads w + 1 + 4 * i)%nat)
         ∧ StageResult.finished_at r = Some (clock w (clock_reads w + 1 + 4 * i + 2)%nat)
         ∧ (s ∉ take i (Workflow.stages wf) →
            ∃ sr, Workflow.stage_results wf !! CertificationStage.value s = Some sr
                  ∧ StageResult.duration_ms r = StageResult.duration_ms sr)
         ∧ Workflow.status wf' = compute_overall_status (Workflow.stage_results wf')
         ∧ Workflow.status wf' = WorkflowStatus.FAILED)
  ∧ (∀ (st : Sys) (k : string) (s : CertificationStage.t)
       (rest : list CertificationStage.t) (description : string),
       reachable st →
       tasks st !! k = Some (AwaitTrigger s rest) →
       head rest ≠ Some s →
       ∃ st' wf sr wf' r,
         step (TriggerRaised k description) st = Some st'
         ∧ get_workflow k (world st) = Some wf
         ∧ Workflow.stage_results wf !! CertificationStage.value s = Some sr
         ∧ get_workflow k (world st') = Some wf'
         ∧ Workflow.stage_results wf' !! CertificationStage.value s = Some r
         ∧ StageResult.status r = StageStatus.FAILED
         ∧ StageResult.error_message r = Some description
         ∧ StageResult.finished_at r = Some (clock (world st) (clock_reads (world st)))
         ∧ StageResult.started_at r = StageResult.started_at sr
         ∧ StageResult.duration_ms r = StageResult.duration_ms sr
         ∧ Workflow.status wf' = compute_overall_status (Workflow.stage_results wf')
         ∧ Workflow.status wf' = WorkflowStatus.FAILED
         ∧ tasks st' !! k = Some (match rest with
                                  | [] => Finished
                                  | s' :: rest' => AwaitTrigger s' rest'
                                  end)).
Proof.
  split_and!.
  - intros exec_client s rest wf w sr description Hsr Hrest Hraise.
    destruct (run_stages_raised exec_client s rest wf w sr description Hsr Hrest Hraise)
      as (wf1 & w1 & Hrun & Hget & Hent & Hc & _ & Hdone).
    exists wf1, w1. eexists. split_and!; [done|done|exact Hent|done..| |].
    + rewrite Hc. by eapply compute_overall_status_failed.
    + by rewrite Hrun.
  - intros exec_client workflow_id w wf i s description Hwf Hbound Hi Hlast Hraise.
    destruct (kickoff_outcomes exec_client workflow_id w wf Hwf Hbound)
      as (wf' & w' & Hrun & Hwf' & _ & _ & _ & _ & _ & _ & Hstatus & Hout).
    destruct (Hout i s Hi Hlast) as (sr & Hent & Horig). rewrite Hraise in Hent.
    assert (Workflow.status wf' = compute_overall_status (Workflow.stage_results wf'))
      as Hc.
    { apply Hstatus. intros Hnil. by rewrite Hnil in Hi. }
    exists w', wf'. eexists. split_and!; [done|done|exact Hent|done..| | |].
    + intros Hfirst. exists sr. split; [by apply Horig|done].
    + done.
    + rewrite Hc. by eapply compute_overall_status_failed.
  - intros st k s rest description Hreach Ht Hhead.
    apply reachable_invariant in Hreach.
    destruct (trigger_raised_effect k description st s rest Hreach Ht Hhead)
      as (st' & wf & sr & wf' & Hstep & Hwf & Hsr & Hwf' & Hent & Hc & Htask).
    exists st', wf, sr, wf'. eexists. split_and!; [done|done|done|done|exact Hent|done..| |done].
    rewrite Hc. by eapply compute_overall_status_failed.
Qed.

Lemma executor_failure_absorbed_witness :
  ∃ w' wf' r,
    _kickoff_stages Sample.boom_first "wf-1" (Sample.created Sample.req_two) = (true, w')
    ∧ get_workflow "wf-1" w' = Some wf'
    ∧ Workflow.stage_results wf' !! "code_quality" = Some r
    ∧ StageResult.status r = StageStatus.FAILED
    ∧ StageResult.error_message r = Some "boom"
    ∧ StageResult.started_at r = Some 3000
    ∧ StageResult.finished_at r = Some 5000
    ∧ Workflow.status wf' = WorkflowStatus.FAILED.
Proof.
  destruct (proj1 (proj2 executor_failure_absorbed) Sample.boom_first "wf-1"
              (Sample.created Sample.req_two)
              (Sample.wf_in (Sample.created Sample.req_two))
              0%nat CertificationStage.CODE_QUALITY "boom")
    as (w' & wf' & r & Hrun & Hwf' & Hent & Hst & Hmsg & Hstart & Hfin & _ & _ & Hfailed).
  { vm_compute. reflexivity. }
  { intros s Hs. vm_compute in Hs.
    apply elem_of_cons in Hs as [-> | Hs]; [vm_compute; eauto|].
    apply elem_of_cons in Hs as [-> | Hs]; [vm_compute; eauto|].
    by apply elem_of_nil in Hs. }
  { reflexivity. }
  { apply (bool_decide_unpack _). vm_compute. exact I. }
  { reflexivity. }
  exists w', wf', r.
  exact (conj Hrun (conj Hwf' (conj Hent (conj Hst (conj Hmsg
           (conj Hstart (conj Hfin Hfailed))))))).
Defined.

(** The slot and the entry that a suspended task works on are bound: the
    branches of [on_slot] and [next_stage] for an unbound slot are never
    taken, and the assignments of [assign_sr] always find their entry. *)
Lemma awaited_entry_bound st k s rest :
  reachable st →
  tasks st !! k = Some (AwaitTrigger s rest) ∨ tasks st !! k = Some (AwaitSleep s rest) →
  ∃ wf sr,
    get_workflow k (world st) = Some wf
    ∧ Workflow.stage_results wf !! CertificationStage.value s = Some sr.
Proof.
  intros Hreach Ht. apply reachable_invariant in Hreach as [_ Htasks].
  destruct Ht as [Ht | Ht]; destruct (Htasks k _ Ht) as (wf & Hwf & [sr Hsr] & _);
    by exists wf, sr.
Qed.

(** In the running service no task ever crashes, and a failure of the
    executor call can always be delivered to a task that waits for it. *)
Lemma reachable_no_crash st k : reachable st → tasks st !! k ≠ Some Crashed.
Proof.
  intros Hreach Ht. apply reachable_invariant in Hreach as [_ Htasks].
  by destruct (Htasks k Crashed Ht) as (wf & _ & Hok).
Qed.

Lemma trigger_raised_enabled st k s rest description :
  tasks st !! k = Some (AwaitTrigger s rest) →
  is_Some (step (TriggerRaised k description) st).
Proof. intros Ht. cbn [step]. rewrite Ht. eauto. Qed.

(** Scenario C of the specification, end to end. *)
Example failed_one_scenario :
  (_kickoff_stages Sample.boom "wf-1" (Sample.created Sample.req_one)).1 = true
  ∧ Workflow.status (Sample.wf_in Sample.failed_one) = WorkflowStatus.FAILED
  ∧ StageResult.error_message <$>
      (Workflow.stage_results (Sample.wf_in Sample.failed_one) !! "code_quality")
    = Some (Some "boom").
Proof. vm_compute. split_and!; reflexivity. Qed.

(** ** Durations *)

(** C4 does not hold of the handler of a failed executor call: the stage
    has a start and a finish time stamp, and no duration. *)
Lemma kickoff_failure_stores_no_duration :
  StageResult.started_at <$>
    (Workflow.stage_results (Sample.wf_in Sample.failed_one) !! "code_quality")
  = Some (Some 3000)
  ∧ StageResult.finished_at <$>
      (Workflow.stage_results (Sample.wf_in Sample.failed_one) !! "code_quality")
    = Some (Some 5000)
  ∧ StageResult.duration_ms <$>
      (Workflow.stage_results (Sample.wf_in Sample.failed_one) !! "code_quality")
    = Some None.
Proof. vm_compute. split_and!; reflexivity. Qed.

(** The same failure reported through [update_stage_status] stores the
    duration. *)
Example reported_failure_stores_duration :
  StageResult.started_at <$>
    (Workflow.stage_results (Sample.wf_in Sample.reported_failed) !! "code_quality")
  = Some (Some 2000)
  ∧ StageResult.finished_at <$>
      (Workflow.stage_results (Sample.wf_in Sample.reported_failed) !! "code_quality")
    = Some (Some 4000)
  ∧ StageResult.duration_ms <$>
      (Workflow.stage_results (Sample.wf_in Sample.reported_failed) !! "code_quality")
    = Some (Some 2).
Proof. vm_compute. split_and!; reflexivity. Qed.

(** The conversion to milliseconds: 120 ms are stored as 120. *)
Lemma elapsed_ms_120 (t : datetime) : elapsed_ms t (t + 120000) = 120.
Proof.
  unfold elapsed_ms. replace (t + 120000 - t) with 120000 by lia.
  vm_compute. reflexivity.
Qed.

(** The binary64 product of 1.001 s with 1000 lies just below 1001. *)
Example elapsed_ms_1001 : elapsed_ms 0 1001000 = 1000.
Proof. vm_compute. reflexivity. Qed.

(** ** A duration is only ever stored next to both time stamps *)

Lemma apply_update_entry_sound req sr w :
  entry_sound sr → entry_sound (apply_update req sr w).1.
Proof.
  unfold entry_sound.
  rewrite apply_update_duration_ms, apply_update_started_at, apply_update_finished_at.
  intros Hsr. destruct (is_terminal _) eqn:Hterm.
  - case_bool_decide as Hrun; [by rewrite Hrun in Hterm|].
    destruct (StageResult.started_at sr); [eauto|].
    intros Hd. split; [by apply Hsr | eauto].
  - intros Hd. destruct (Hsr Hd) as [? ?]. case_bool_decide; eauto.
Qed.

Lemma new_stage_result_sound s : entry_sound (new_stage_result s).
Proof. intros [? H]. simpl in H. done. Qed.

Lemma init_stage_results_sound stages : entries_sound (init_stage_results stages).
Proof.
  intros k sr Hk. apply init_stage_results_entry in Hk as (s & _ & _ & ->).
  apply new_stage_result_sound.
Qed.

Lemma step_entries_sound e st st' :
  invariant st →
  (∀ k wf, by_id (world st) !! k = Some wf → entries_sound (Workflow.stage_results wf)) →
  step e st = Some st' →
  ∀ k wf, by_id (world st') !! k = Some wf → entries_sound (Workflow.stage_results wf).
Proof.
  intros Hinv Hsound Hstep.
  assert (∀ k0, task_event_effect k0 st st' →
            ∀ k wf, by_id (world st') !! k = Some wf →
                    entries_sound (Workflow.stage_results wf)) as Htask.
  { intros k0 (wf0 & wf0' & t' & Hwf0 & Hby & Hev & _) k wf. rewrite Hby.
    intros [[<- <-] | [_ Hk]]%lookup_insert_Some; [|by eapply Hsound].
    destruct Hev as (_ & _ & _ & _ & _ & Hkeep). apply Hkeep. by eapply Hsound. }
  destruct e as [req new_id | k0 | k0 ref | k0 d | k0 | k0 req].
  - cbn [step] in Hstep. destruct (by_id (world st) !! new_id); [done|].
    destruct (create_workflow_eq req new_id (world st)) as (t0 & t1 & Hwf & Hby).
    cbv zeta in Hwf, Hby.
    destruct (create_workflow req new_id (world st)) as [wf w] eqn:Hc.
    simpl in Hwf, Hby. simplify_eq. unfold set_task. simpl.
    intros k wf. rewrite Hby.
    intros [[<- <-] | [_ Hk]]%lookup_insert_Some; [|by eapply Hsound].
    simpl. apply init_stage_results_sound.
  - by apply (Htask k0), step_start.
  - by eapply (Htask k0), step_trigger_returned.
  - by eapply (Htask k0), step_trigger_raised.
  - by apply (Htask k0), step_sleep_done.
  - cbn [step] in Hstep. simplify_eq. simpl.
    destruct (by_id (world st) !! k0) as [wf0|] eqn:Hwf0.
    + destruct (update_stage_status_found k0 req (world st) wf0 Hwf0)
        as (wf' & _ & _ & Hres & _ & _ & _ & _ & _ & Hby).
      assert (entries_sound (Workflow.stage_results wf')) as Hnew.
      { rewrite Hres. intros j sr.
        intros [[<- <-] | [_ Hj]]%lookup_insert_Some.
        - apply apply_update_entry_sound. unfold fetch_sr.
          destruct (Workflow.stage_results wf0 !! _) as [sr0|] eqn:Hsr0.
          + by eapply (Hsound k0 wf0).
          + apply new_stage_result_sound.
        - by eapply (Hsound k0 wf0). }
      intros k wf. rewrite Hby.
      intros [[<- <-] | [_ Hk]]%lookup_insert_Some; [done|].
      apply lookup_insert_Some in Hk as [[<- <-] | [_ Hk]]; [done|]. by eapply Hsound.
    + rewrite (update_stage_status_absent k0 req (world st) Hwf0). simpl. apply Hsound.
Qed.

Lemma run_entries_sound es :
  ∀ st st',
    invariant st →
    (∀ k wf, by_id (world st) !! k = Some wf → entries_sound (Workflow.stage_results wf)) →
    run es st = Some st' →
    ∀ k wf, by_id (world st') !! k = Some wf → entries_sound (Workflow.stage_results wf).
Proof.
  induction es as [|e es IH]; intros st st' Hinv Hsound Hrun; simpl in Hrun.
  - by simplify_eq.
  - destruct (step e st) as [st1|] eqn:Hstep; [|done].
    eapply (IH st1); [by eapply step_spec | by eapply step_entries_sound | done].
Qed.

(** At every observation point of the running service, an entry with a
    duration has both time stamps. *)
Lemma reachable_entries_sound st k wf key sr :
  reachable st →
  get_workflow k (world st) = Some wf →
  Workflow.stage_results wf !! key = Some sr →
  is_Some (StageResult.duration_ms sr) →
  is_Some (StageResult.started_at sr) ∧ is_Some (StageResult.finished_at sr).
Proof.
  intros (clock & es & Hrun) Hwf Hsr.
  eapply (run_entries_sound es (boot clock) st); [apply boot_invariant | | done..].
  intros k0 wf0 H0. simpl in H0. by rewrite lookup_empty in H0.
Qed.


(** ** The dict of the repository *)

Section Dict.
Context {V : Type}.
Implicit Types (d : list (string * V)) (k : string) (v : V).

Lemma dict_get_set_eq k v d : dict_get k (dict_set k v d) = Some v.
Proof.
  induction d as [|[k' v'] d IH]; simpl.
  - by rewrite decide_True.
  - destruct (decide (k' = k)) as [->|Hne]; simpl.
    + by rewrite decide_True.
    + by rewrite decide_False.
Qed.

Lemma dict_get_set_ne k k0 v d : k0 ≠ k → dict_get k0 (dict_set k v d) = dict_get k0 d.
Proof.
  intros Hne. induction d as [|[k' v'] d IH]; simpl.
  - by rewrite decide_False.
  - destruct (decide (k' = k)) as [->|Hne']; simpl.
    + by rewrite !decide_False.
    + destruct (decide (k' = k0)); [done | apply IH].
Qed.

Lemma dict_get_list_to_map k d : dict_get k d = (list_to_map d : gmap string V) !! k.
Proof.
  induction d as [|[k' v'] d IH]; simpl; [done|].
  destruct (decide (k' = k)) as [->|Hne].
  - by rewrite lookup_insert_eq.
  - by rewrite lookup_insert_ne.
Qed.

Lemma dict_set_list_to_map k v d :
  (list_to_map (dict_set k v d) : gmap string V) = <[k := v]> (list_to_map d).
Proof.
  induction d as [|[k' v'] d IH]; simpl; [done|].
  destruct (decide (k' = k)) as [->|Hne]; simpl.
  - by rewrite insert_insert_eq.
  - rewrite IH. by apply insert_insert_ne.
Qed.

Lemma dict_set_bound k v d :
  is_Some (dict_get k d) →
  (dict_set k v d).*1 = d.*1 ∧ length (dict_set k v d) = length d.
Proof.
  induction d as [|[k' v'] d IH]; simpl.
  - by intros [? ?].
  - destruct (decide (k' = k)) as [->|Hne]; simpl; [done|].
    intros H. destruct (IH H) as [H1 H2]. split; f_equal; done.
Qed.

Lemma dict_set_new k v d : dict_get k d = None → dict_set k v d = (d ++ [(k, v)])%list.
Proof.
  induction d as [|[k' v'] d IH]; simpl; [done|].
  destruct (decide (k' = k)) as [->|Hne]; [done|]. intros H. by rewrite IH.
Qed.

Lemma dict_get_None k d : dict_get k d = None ↔ k ∉ d.*1.
Proof.
  induction d as [|[k' v'] d IH]; simpl.
  - split; [intros _; apply not_elem_of_nil | done].
  - rewrite not_elem_of_cons. destruct (decide (k' = k)) as [->|Hne].
    + split; [done | by intros [? _]].
    + rewrite IH. naive_solver.
Qed.

Lemma dict_set_NoDup k v d : NoDup d.*1 → NoDup (dict_set k v d).*1.
Proof.
  intros Hd. destruct (dict_get k d) as [v0|] eqn:Hget.
  - by rewrite (proj1 (dict_set_bound k v d (mk_is_Some _ _ Hget))).
  - rewrite (dict_set_new k v d Hget), fmap_app. simpl.
    apply NoDup_app. split_and!; [done | | apply NoDup_singleton].
    intros k0 Hk0 ->%list_elem_of_singleton. by apply dict_get_None in Hget.
Qed.
End Dict.

(** ** Slices *)

Lemma slice_sublist {A} (l : list A) start stop : slice l start stop `sublist_of` l.
Proof.
  unfold slice. etrans; [apply sublist_take | apply sublist_drop].
Qed.

Lemma slice_page {A} (l : list A) (offset limit : Z) :
  (0 ≤ offset)%Z → (0 ≤ limit)%Z →
  slice l offset (offset + limit) = take (Z.to_nat limit) (drop (Z.to_nat offset) l).
Proof.
  intros Ho Hl. unfold slice, slice_index.
  destruct (Z.ltb_spec offset 0); [lia|].
  destruct (Z.ltb_spec (offset + limit) 0); [lia|].
  set (n := Z.of_nat (length l)).
  destruct (decide (offset ≤ n)%Z) as [Hle|Hgt].
  - rewrite (Z.min_l offset n) by done.
    destruct (decide (offset + limit ≤ n)%Z).
    + rewrite Z.min_l by done. f_equal. lia.
    + rewrite Z.min_r by lia.
      rewrite !take_ge; [done | |]; rewrite length_drop; subst n; lia.
  - rewrite (Z.min_r offset n), Z.min_r by lia.
    rewrite !drop_ge by (subst n; lia). by rewrite !take_nil.
Qed.

(** ** Listing *)

Lemma truthy_domain_Some d : truthy_domain (Some d) = true.
Proof. by destruct d. Qed.

Lemma truthy_stage_Some s : truthy_stage (Some s) = true.
Proof. by destruct s. Qed.

Lemma guard_false (b : bool) (P : Prop) `{Decision P} :
  b && bool_decide (¬ P) = false ↔ (b = true → P).
Proof.
  destruct b; simpl.
  - rewrite bool_decide_eq_false. split; [intros HP _; by apply dec_stable | naive_solver].
  - naive_solver.
Qed.

Lemma match_matches lower q w : match_ lower q w = true ↔ matches lower q w.
Proof.
  unfold match_, matches.
  destruct q as [sp dm au br cm sg st lim off]. simpl.
  destruct (truthy_domain dm && _) eqn:H1.
  { split; [done|]. intros (Hd & _). apply andb_true_iff in H1 as [Ht Hn].
    apply bool_decide_eq_true in Hn. destruct dm as [d|]; [|done].
    by rewrite (Hd d eq_refl) in Hn. }
  rewrite guard_false in H1.
  destruct (truthy_str au && _) eqn:H2.
  { split; [done|]. intros (_ & Ha & _). apply andb_true_iff in H2 as [Ht Hn].
    apply bool_decide_eq_true in Hn. apply truthy_str_Some in Ht as (a & -> & Hne).
    by specialize (Ha a eq_refl Hne). }
  rewrite guard_false in H2.
  destruct (truthy_str br && _) eqn:H3.
  { split; [done|]. intros (_ & _ & Hb & _). apply andb_true_iff in H3 as [Ht Hn].
    apply bool_decide_eq_true in Hn. apply truthy_str_Some in Ht as (b & -> & Hne).
    by rewrite (Hb b eq_refl Hne) in Hn. }
  rewrite guard_false in H3.
  destruct (truthy_str cm && _) eqn:H4.
  { split; [done|]. intros (_ & _ & _ & Hc & _). apply andb_true_iff in H4 as [Ht Hn].
    apply bool_decide_eq_true in Hn. apply truthy_str_Some in Ht as (c & -> & Hne).
    by rewrite (Hc c eq_refl Hne) in Hn. }
  rewrite guard_false in H4.
  destruct (truthy_str st && _) eqn:H5.
  { split; [done|]. intros (_ & _ & _ & _ & Hs & _). apply andb_true_iff in H5 as [Ht Hn].
    apply bool_decide_eq_true in Hn. apply truthy_str_Some in Ht as (s & -> & Hne).
    by rewrite (Hs s eq_refl Hne) in Hn. }
  rewrite guard_false in H5.
  destruct (truthy_str sp && _) eqn:H6.
  { split; [done|]. intros (_ & _ & _ & _ & _ & Hp & _). apply andb_true_iff in H6 as [Ht Hn].
    apply bool_decide_eq_true in Hn. apply truthy_str_Some in Ht as (p & -> & Hne).
    by specialize (Hp p eq_refl Hne). }
  rewrite guard_false in H6.
  destruct (truthy_stage sg && _) eqn:H7.
  { split; [done|]. intros (_ & _ & _ & _ & _ & _ & Hg). apply andb_true_iff in H7 as [Ht Hn].
    apply bool_decide_eq_true in Hn. destruct sg as [s|]; [|done].
    simpl in Hn. exfalso. apply Hn. apply elem_of_dom. by apply Hg. }
  rewrite guard_false in H7.
  split; [intros _ | done]. split_and!.
  - intros d ->. specialize (H1 (truthy_domain_Some d)). by simplify_eq.
  - intros a -> Hne. apply H2. apply truthy_str_Some. eauto.
  - intros b -> Hne. assert (Some (GitInfo.branch (Workflow.git w)) = Some b) as [= ->]; [|done].
    apply H3. apply truthy_str_Some. eauto.
  - intros c -> Hne.
    assert (Some (GitInfo.commit_sha (Workflow.git w)) = Some c) as [= ->]; [|done].
    apply H4. apply truthy_str_Some. eauto.
  - intros s -> Hne.
    assert (Some (WorkflowStatus.value (Workflow.status w)) = Some s) as [= ->]; [|done].
    apply H5. apply truthy_str_Some. eauto.
  - intros p -> Hne. apply H6. apply truthy_str_Some. eauto.
  - intros s ->. apply elem_of_dom. apply (H7 (truthy_stage_Some s)).
Qed.

Lemma list_eq_slice lower q r :
  InMemoryWorkflowRepository.list lower q r
  = slice (matching lower q r) (ListQuery.offset q)
      (ListQuery.offset q + ListQuery.limit q)%Z.
Proof. reflexivity. Qed.

Lemma elem_of_matching lower q r w :
  w ∈ matching lower q r ↔ w ∈ r.*2 ∧ matches lower q w.
Proof. unfold matching. rewrite list_elem_of_filter, match_matches. tauto. Qed.

Lemma matching_page lower sp dm au br cm sg st lim off lim' off' r :
  matching lower (ListQuery.mk sp dm au br cm sg st lim off) r
  = matching lower (ListQuery.mk sp dm au br cm sg st lim' off') r.
Proof. reflexivity. Qed.

Lemma length_matching lower q r : (length (matching lower q r) ≤ length r)%nat.
Proof. unfold matching. etrans; [apply length_filter|]. by rewrite length_fmap. Qed.

Lemma list_all lower q r :
  ListQuery.offset q = 0%Z →
  (Z.of_nat (length r) ≤ ListQuery.limit q)%Z →
  InMemoryWorkflowRepository.list lower q r = matching lower q r.
Proof.
  intros Hoff Hlim. rewrite list_eq_slice, Hoff, slice_page by lia. simpl.
  apply take_ge. pose proof (length_matching lower q r). lia.
Qed.

Lemma list_complete lower q r w :
  ListQuery.offset q = 0%Z →
  (Z.of_nat (length r) ≤ ListQuery.limit q)%Z →
  w ∈ r.*2 → matches lower q w →
  w ∈ InMemoryWorkflowRepository.list lower q r.
Proof.
  intros Hoff Hlim Hw Hm. rewrite list_all by done. by apply elem_of_matching.
Qed.

(** X1: the listing, whatever the pagination arguments are, is a
    subsequence of the stored workflows in their insertion order, and every
    listed workflow passes every filter that was supplied. *)
Theorem repository_list_sound lower (q : ListQuery.t) (r : list (string * Workflow.t)) :
  InMemoryWorkflowRepository.list lower q r `sublist_of` r.*2
  ∧ ∀ w, w ∈ InMemoryWorkflowRepository.list lower q r → matches lower q w.
Proof.
  assert (InMemoryWorkflowRepository.list lower q r `sublist_of` matching lower q r) as Hs.
  { rewrite list_eq_slice. apply slice_sublist. }
  split.
  - etrans; [exact Hs|]. apply sublist_filter.
  - intros w Hw. by eapply elem_of_matching, elem_of_sublist.
Qed.

(** X2: with offset 0 and a limit that is at least the number of stored
    workflows, the listing is exactly the stored workflows that pass every
    supplied filter, in insertion order. *)
Theorem repository_list_complete lower (q : ListQuery.t) (r : list (string * Workflow.t)) :
  ListQuery.offset q = 0%Z →
  (Z.of_nat (length r) ≤ ListQuery.limit q)%Z →
  InMemoryWorkflowRepository.list lower q r = matching lower q r
  ∧ ∀ w, w ∈ InMemoryWorkflowRepository.list lower q r ↔ w ∈ r.*2 ∧ matches lower q w.
Proof.
  intros Hoff Hlim.
  rewrite list_all by done. split; [done|]. intros w. apply elem_of_matching.
Qed.

(** X3: for an offset and a limit that are not negative, the page is
    the matches from position [offset] on, at most [limit] of them; it is
    empty once the offset reaches the number of matches; and two consecutive
    pages make up the page of their joint size. *)
Theorem repository_list_pages lower sp dm au br cm sg st (off lim lim' : Z)
    (r : list (string * Workflow.t)) :
  (0 ≤ off)%Z → (0 ≤ lim)%Z → (0 ≤ lim')%Z →
  let page o l := InMemoryWorkflowRepository.list lower
                    (ListQuery.mk sp dm au br cm sg st l o) r in
  let found := matching lower (ListQuery.mk sp dm au br cm sg st lim off) r in
  page off lim = take (Z.to_nat lim) (drop (Z.to_nat off) found)
  ∧ (Z.of_nat (length (page off lim)) ≤ lim)%Z
  ∧ ((Z.of_nat (length found) ≤ off)%Z → page off lim = [])
  ∧ (page off lim ++ page (off + lim)%Z lim')%list = page off (lim + lim')%Z.
Proof.
  intros Ho Hl Hl' page found.
  assert (∀ o l, (0 ≤ o)%Z → (0 ≤ l)%Z →
            page o l = take (Z.to_nat l) (drop (Z.to_nat o) found)) as Hpage.
  { intros o l Ho' Hl''. subst page. simpl. rewrite list_eq_slice. simpl.
    by rewrite slice_page. }
  split_and!.
  - by apply Hpage.
  - rewrite Hpage, length_take by done. lia.
  - intros Hlen. rewrite Hpage by done. rewrite drop_ge by lia. apply take_nil.
  - rewrite !Hpage by lia.
    rewrite Z2Nat.inj_add by lia. rewrite <- drop_drop.
    rewrite (Z2Nat.inj_add lim lim') by lia. apply take_take_drop.
Qed.

(** X4: the repository does not reject a negative limit.  With offset 0
    the stop index then counts from the end: the listing is all matches but
    the last [-limit] ones. *)
Theorem repository_list_negative_limit lower (q : ListQuery.t)
    (r : list (string * Workflow.t)) :
  ListQuery.offset q = 0%Z → (ListQuery.limit q < 0)%Z →
  InMemoryWorkflowRepository.list lower q r
  = take (length (matching lower q r) - Z.to_nat (- ListQuery.limit q))
      (matching lower q r).
Proof.
  intros Hoff Hlim. rewrite list_eq_slice, Hoff, Z.add_0_l.
  unfold slice, slice_index.
  change (0 <? 0)%Z with false. cbv iota.
  destruct (Z.ltb_spec (ListQuery.limit q) 0); [|lia].
  rewrite Z.min_l by lia. change (Z.to_nat 0) with 0%nat. rewrite drop_0.
  f_equal. lia.
Qed.

Lemma repository_list_complete_witness :
  InMemoryWorkflowRepository.list SampleRepo.lower (SampleRepo.by_author "ALICE") SampleRepo.repo
  = [SampleRepo.wf1].
Proof.
  rewrite (proj1 (repository_list_complete SampleRepo.lower (SampleRepo.by_author "ALICE")
                    SampleRepo.repo eq_refl ltac:(vm_compute; discriminate))).
  vm_compute. reflexivity.
Defined.

Lemma repository_list_pages_witness :
  (InMemoryWorkflowRepository.list SampleRepo.lower (SampleRepo.page 0 1) SampleRepo.repo
   ++ InMemoryWorkflowRepository.list SampleRepo.lower (SampleRepo.page 1 1) SampleRepo.repo)%list
  = InMemoryWorkflowRepository.list SampleRepo.lower (SampleRepo.page 0 2) SampleRepo.repo.
Proof.
  apply (repository_list_pages SampleRepo.lower None None None None None None None 0 1 1
           SampleRepo.repo); lia.
Defined.

Lemma repository_list_negative_limit_witness :
  InMemoryWorkflowRepository.list SampleRepo.lower (SampleRepo.page 0 (-1)) SampleRepo.repo
  = [SampleRepo.wf1].
Proof.
  rewrite (repository_list_negative_limit SampleRepo.lower (SampleRepo.page 0 (-1)) SampleRepo.repo
             eq_refl); [|simpl; lia].
  vm_compute. reflexivity.
Defined.

Lemma match_ext lower q q' r :
  (∀ w, match_ lower q w = match_ lower q' w) →
  matching lower q r = matching lower q' r.
Proof. intros H. unfold matching. apply list_filter_iff. intros w. by rewrite H. Qed.

(** X5: the author filter does not tell upper from lower case: two
    non-empty author arguments with the same lower-case form select the same
    workflows. *)
Theorem repository_list_author_case lower sp dm (a a' : string) br cm sg st lim off
    (r : list (string * Workflow.t)) :
  a ≠ "" → a' ≠ "" → lower a = lower a' →
  InMemoryWorkflowRepository.list lower (ListQuery.mk sp dm (Some a) br cm sg st lim off) r
  = InMemoryWorkflowRepository.list lower (ListQuery.mk sp dm (Some a') br cm sg st lim off) r.
Proof.
  intros Ha Ha' Hl. rewrite !list_eq_slice. cbn [ListQuery.offset ListQuery.limit].
  f_equal. apply match_ext. intros w. unfold match_. cbn -[truthy_str truthy_domain truthy_stage].
  assert (truthy_str (Some a) = true) as -> by (apply truthy_str_Some; eauto).
  assert (truthy_str (Some a') = true) as -> by (apply truthy_str_Some; eauto).
  by rewrite Hl.
Qed.

Lemma repository_list_author_case_witness :
  InMemoryWorkflowRepository.list SampleRepo.lower (SampleRepo.by_author "ALICE") SampleRepo.repo
  = InMemoryWorkflowRepository.list SampleRepo.lower (SampleRepo.by_author "alice") SampleRepo.repo.
Proof.
  apply (repository_list_author_case SampleRepo.lower None None "ALICE" "alice");
    [discriminate | discriminate | reflexivity].
Defined.

(** X6: an empty string given for a string filter is no filter: the
    listing is the one obtained with that argument left out. *)
Theorem repository_list_empty_filter lower sp dm au br cm sg st lim off
    (r : list (string * Workflow.t)) :
  InMemoryWorkflowRepository.list lower (ListQuery.mk sp dm au br cm sg st lim off) r
  = InMemoryWorkflowRepository.list lower
      (ListQuery.mk (absent_if_empty sp) dm (absent_if_empty au) (absent_if_empty br)
         (absent_if_empty cm) sg (absent_if_empty st) lim off) r.
Proof.
  rewrite !list_eq_slice. cbn [ListQuery.offset ListQuery.limit].
  f_equal. apply match_ext. intros w. unfold match_.
  cbn [ListQuery.domain ListQuery.author ListQuery.branch ListQuery.commit
       ListQuery.status ListQuery.script_path ListQuery.stage].
  unfold absent_if_empty.
  destruct (truthy_str sp) eqn:E1, (truthy_str au) eqn:E2, (truthy_str br) eqn:E3,
    (truthy_str cm) eqn:E4, (truthy_str st) eqn:E5;
    rewrite ?E1, ?E2, ?E3, ?E4, ?E5; reflexivity.
Qed.

Lemma slice_nil {A} start stop : slice (@nil A) start stop = [].
Proof. unfold slice. by rewrite drop_nil, take_nil. Qed.

Lemma elem_of_list_matches lower q r w :
  w ∈ InMemoryWorkflowRepository.list lower q r → w ∈ r.*2 ∧ matches lower q w.
Proof.
  intros Hw. apply elem_of_matching. eapply elem_of_sublist; [exact Hw|].
  rewrite list_eq_slice. apply slice_sublist.
Qed.

(** X7: the status filter is compared as a string and not validated: a
    non-empty string that is the value of no workflow status selects nothing,
    and no error is raised. *)
Theorem repository_list_unknown_status lower (q : ListQuery.t) (s : string)
    (r : list (string * Workflow.t)) :
  ListQuery.status q = Some s → s ≠ "" →
  (∀ ws, WorkflowStatus.value ws ≠ s) →
  InMemoryWorkflowRepository.list lower q r = [].
Proof.
  intros Hs Hne Hno.
  destruct (InMemoryWorkflowRepository.list lower q r) as [|w l] eqn:E; [done|].
  assert (w ∈ InMemoryWorkflowRepository.list lower q r) as Hw by (rewrite E; left).
  apply elem_of_list_matches in Hw as [_ (_ & _ & _ & _ & Hst & _)].
  by destruct (Hno _ (Hst s Hs Hne)).
Qed.

Lemma repository_list_unknown_status_witness :
  InMemoryWorkflowRepository.list SampleRepo.lower (SampleRepo.by_status "done") SampleRepo.repo = [].
Proof.
  apply (repository_list_unknown_status SampleRepo.lower (SampleRepo.by_status "done") "done");
    [reflexivity | discriminate | intros ws; destruct ws; discriminate].
Defined.

(** ** [list_workflows] *)

Lemma parse_domain_Some s d : parse_domain s = Some d ↔ Domain.value d = s.
Proof.
  split.
  - intros H. apply find_some in H as [_ H]. by apply bool_decide_eq_true in H.
  - intros <-. by destruct d.
Qed.

Lemma parse_domain_None s : parse_domain s = None ↔ ∀ d, Domain.value d ≠ s.
Proof.
  split.
  - intros H d Hd. apply parse_domain_Some in Hd. congruence.
  - intros H. destruct (parse_domain s) as [d|] eqn:E; [|done].
    apply parse_domain_Some in E. by destruct (H d).
Qed.

Lemma parse_stage_Some s c : parse_stage s = Some c ↔ CertificationStage.value c = s.
Proof.
  split.
  - intros H. apply find_some in H as [_ H]. by apply bool_decide_eq_true in H.
  - intros <-. by destruct c.
Qed.

Lemma parse_stage_None s : parse_stage s = None ↔ ∀ c, CertificationStage.value c ≠ s.
Proof.
  split.
  - intros H c Hc. apply parse_stage_Some in Hc. congruence.
  - intros H. destruct (parse_stage s) as [c|] eqn:E; [|done].
    apply parse_stage_Some in E. by destruct (H c).
Qed.

Lemma optional_member_inl {E} (parse : string → option E) o v :
  optional_member parse o = inl v ↔ o = Some v ∧ v ≠ "" ∧ parse v = None.
Proof.
  unfold optional_member. destruct (truthy_str o) eqn:Ht.
  - apply truthy_str_Some in Ht as (s & -> & Hne). simpl.
    destruct (parse s) eqn:Hp; split.
    + done.
    + intros ([= ->] & _ & ?). congruence.
    + by intros [= <-].
    + by intros ([= ->] & _ & _).
  - split; [done|]. intros (-> & Hne & _).
    apply truthy_str_false in Ht as [?|[= ?]]; done.
Qed.

Lemma optional_member_inr {E} (parse : string → option E) o e :
  optional_member parse o = inr e ↔
  (e = None ∧ (o = None ∨ o = Some "")) ∨ (∃ s x, o = Some s ∧ s ≠ "" ∧ parse s = Some x ∧ e = Some x).
Proof.
  unfold optional_member. destruct (truthy_str o) eqn:Ht.
  - apply truthy_str_Some in Ht as (s & -> & Hne). simpl.
    destruct (parse s) as [y|] eqn:Hp; split.
    + intros [= <-]. right. by exists s, y.
    + intros [[_ [?|[= ?]]]|(s' & x & [= <-] & _ & Hx & ->)]; [done..|]. congruence.
    + done.
    + intros [[_ [?|[= ?]]]|(s' & x & [= <-] & _ & Hx & ->)]; [done..|]. congruence.
  - apply truthy_str_false in Ht. split.
    + intros [= <-]. by left.
    + intros [[-> _]|(s & x & -> & Hne & _)]; [done|]. by destruct Ht as [?|[= ?]].
Qed.

(** X8: [list_workflows] raises exactly when a non-empty domain or stage
    string names no member of the enumeration; the domain is looked at first,
    and the error carries the offending string.  Nothing else is checked. *)
Theorem list_workflows_value_error lower (a : ListRequest.t)
    (r : list (string * Workflow.t)) (v : string) :
  list_workflows lower a r = ValueError v
  ↔ (ListRequest.domain a = Some v ∧ v ≠ "" ∧ ∀ d, Domain.value d ≠ v)
    ∨ ((ListRequest.domain a = None ∨ ListRequest.domain a = Some ""
        ∨ ∃ d, ListRequest.domain a = Some (Domain.value d))
       ∧ ListRequest.stage a = Some v ∧ v ≠ ""
       ∧ ∀ s, CertificationStage.value s ≠ v).
Proof.
  unfold list_workflows.
  destruct (optional_member parse_domain (ListRequest.domain a)) as [bad|dom] eqn:Hd.
  - apply optional_member_inl in Hd as (Hd & Hne & Hp).
    rewrite parse_domain_None in Hp. split.
    + intros [= <-]. by left.
    + intros [(Hv & _)|([Hn|[He|[d Hx]]] & _)]; [congruence | congruence | congruence |].
      rewrite Hd in Hx. simplify_eq. by destruct (Hp d).
  - apply optional_member_inr in Hd.
    destruct (optional_member parse_stage (ListRequest.stage a)) as [bad|stg] eqn:Hs.
    + apply optional_member_inl in Hs as (Hs & Hne & Hp).
      rewrite parse_stage_None in Hp. split.
      * intros [= <-]. right. split_and!; try done.
        destruct Hd as [[_ [?|?]]|(s & x & -> & _ & Hx & _)]; [by left | by right; left |].
        right; right. exists x. by apply parse_domain_Some in Hx as <-.
      * intros [(Hv & Hvne & Hno)|(_ & Hv & _)]; [|congruence].
        exfalso. destruct Hd as [[_ [?|?]]|(s & x & Hds & _ & Hx & _)]; [congruence..|].
        apply parse_domain_Some in Hx. rewrite Hds in Hv. simplify_eq. by destruct (Hno x).
    + apply optional_member_inr in Hs. split; [done|].
      intros [(Hv & Hvne & Hno)|(_ & Hv & Hvne & Hno)]; exfalso.
      * destruct Hd as [[_ [?|?]]|(s & x & Hds & _ & Hx & _)]; [congruence..|].
        apply parse_domain_Some in Hx. rewrite Hds in Hv. simplify_eq. by destruct (Hno x).
      * destruct Hs as [[_ [?|?]]|(s & x & Hds & _ & Hx & _)]; [congruence..|].
        apply parse_stage_Some in Hx. rewrite Hds in Hv. simplify_eq. by destruct (Hno x).
Qed.

Lemma optional_member_value {E} (parse : string → option E) (value : E → string) (o : option E) :
  (∀ e, parse (value e) = Some e) → (∀ e, value e ≠ "") →
  optional_member parse (value <$> o) = inr o.
Proof.
  intros Hp Hne. unfold optional_member. destruct o as [e|]; [|done].
  change (value <$> Some e) with (Some (value e)).
  assert (truthy_str (Some (value e)) = true) as -> by (apply truthy_str_Some; eauto).
  simpl. by rewrite Hp.
Qed.

(** X9: a domain and a stage given by the values of enumeration members
    reach the repository as these members, next to the other arguments
    unchanged; an empty domain or stage string is no filter. *)
Theorem list_workflows_valid lower sp (dm : option Domain.t) au br cm
    (sg : option CertificationStage.t) st lim off (r : list (string * Workflow.t)) :
  list_workflows lower
    (ListRequest.mk sp (Domain.value <$> dm) au br cm (CertificationStage.value <$> sg)
       st lim off) r
  = Listed (InMemoryWorkflowRepository.list lower
              (ListQuery.mk sp dm au br cm sg st lim off) r)
  ∧ list_workflows lower (ListRequest.mk sp (Some "") au br cm (Some "") st lim off) r
    = Listed (InMemoryWorkflowRepository.list lower
                (ListQuery.mk sp None au br cm None st lim off) r).
Proof.
  split; [|done]. unfold list_workflows. cbn [ListRequest.domain ListRequest.stage].
  rewrite (optional_member_value parse_domain Domain.value dm);
    [|intros e; by apply parse_domain_Some | by intros []].
  rewrite (optional_member_value parse_stage CertificationStage.value sg);
    [|intros e; by apply parse_stage_Some | by intros []].
  done.
Qed.

(** ** Writing to the repository *)

(** X10: a stored workflow is read back under its identifier and the
    workflows under other identifiers are not touched; [update] is the same
    assignment as [create] (neither looks whether the identifier is already
    stored); the stored identifiers stay distinct. *)
Theorem repository_get_after_write (wf : Workflow.t) (r : list (string * Workflow.t))
    (k : string) :
  InMemoryWorkflowRepository.get k (InMemoryWorkflowRepository.create wf r)
  = (if decide (k = Workflow.id wf) then Some wf else InMemoryWorkflowRepository.get k r)
  ∧ InMemoryWorkflowRepository.update wf r = InMemoryWorkflowRepository.create wf r
  ∧ (NoDup r.*1 → NoDup (InMemoryWorkflowRepository.create wf r).*1).
Proof.
  unfold InMemoryWorkflowRepository.get, InMemoryWorkflowRepository.create,
    InMemoryWorkflowRepository.update.
  split_and!; [|done|apply dict_set_NoDup].
  destruct (decide (k = Workflow.id wf)) as [->|Hne].
  - apply dict_get_set_eq.
  - by apply dict_get_set_ne.
Qed.

Lemma repository_get_after_write_witness :
  NoDup (InMemoryWorkflowRepository.create SampleRepo.wf3 SampleRepo.repo).*1.
Proof.
  apply (repository_get_after_write SampleRepo.wf3 SampleRepo.repo "wf3").
  vm_compute. repeat constructor; set_solver.
Defined.

(** X11: a workflow written under an identifier that is already stored
    takes the place of the old one in the order of the listing; written under
    a new identifier it comes last: the unpaged listing after the write is
    the listing before it, followed by the new workflow if it passes the
    filters. *)
Theorem repository_write_order lower (q : ListQuery.t) (wf : Workflow.t)
    (r : list (string * Workflow.t)) :
  ListQuery.offset q = 0%Z →
  (Z.of_nat (length r) < ListQuery.limit q)%Z →
  (is_Some (InMemoryWorkflowRepository.get (Workflow.id wf) r) →
   (InMemoryWorkflowRepository.create wf r).*1 = r.*1)
  ∧ (InMemoryWorkflowRepository.get (Workflow.id wf) r = None →
     InMemoryWorkflowRepository.list lower q (InMemoryWorkflowRepository.create wf r)
     = (InMemoryWorkflowRepository.list lower q r
        ++ if match_ lower q wf then [wf] else [])%list).
Proof.
  intros Hoff Hlim.
  unfold InMemoryWorkflowRepository.get, InMemoryWorkflowRepository.create. split.
  - intros Hb. by apply dict_set_bound.
  - intros Hn. rewrite (dict_set_new _ _ _ Hn).
    rewrite !list_all; [|done|lia|done|rewrite length_app; simpl; lia].
    unfold matching. rewrite fmap_app, filter_app. f_equal. simpl.
    rewrite filter_cons, filter_nil.
    destruct (match_ lower q wf); by case_decide.
Qed.

Lemma repository_write_order_witness :
  InMemoryWorkflowRepository.list SampleRepo.lower (SampleRepo.by_author "Carol")
    (InMemoryWorkflowRepository.create SampleRepo.wf3 SampleRepo.repo)
  = (InMemoryWorkflowRepository.list SampleRepo.lower (SampleRepo.by_author "Carol") SampleRepo.repo
     ++ [SampleRepo.wf3])%list.
Proof.
  apply (repository_write_order SampleRepo.lower (SampleRepo.by_author "Carol") SampleRepo.wf3
           SampleRepo.repo eq_refl); [vm_compute; reflexivity | reflexivity].
Defined.

Lemma WorkflowStatus_value_nonempty ws : WorkflowStatus.value ws ≠ "".
Proof. by destruct ws. Qed.

(** X12: a workflow that [update_stage_status] has just changed is found
    by a listing that filters on the reported stage and on the overall status
    the update computed; the repository written in order agrees with the map
    the service works on. *)
Theorem updated_workflow_is_listed lower (k : string) (req : WorkflowUpdateStatusRequest.t)
    (w : World) (r : list (string * Workflow.t)) (wf' : Workflow.t) (lim : Z) :
  list_to_map r = by_id w →
  (update_stage_status k req w).1 = Some wf' →
  Workflow.id wf' = k →
  (Z.of_nat (length r) ≤ lim)%Z →
  let r' := InMemoryWorkflowRepository.update wf' r in
  list_to_map r' = by_id (update_stage_status k req w).2
  ∧ wf' ∈ InMemoryWorkflowRepository.list lower
            (ListQuery.mk None None None None None
               (Some (WorkflowUpdateStatusRequest.stage req))
               (Some (WorkflowStatus.value
                        (compute_overall_status (Workflow.stage_results wf'))))
               lim 0) r'.
Proof.
  intros Hr Hupd Hid Hlim r'.
  destruct (by_id w !! k) as [wf|] eqn:Hk;
    [|by rewrite (update_stage_status_absent _ _ _ Hk) in Hupd].
  destruct (update_stage_status_found k req w wf Hk)
    as (wf1 & H1 & Hget & Hres & Hst & _ & Hid1 & _ & _ & Hby).
  rewrite H1 in Hupd. simplify_eq.
  assert (list_to_map r' = by_id (update_stage_status (Workflow.id wf') req w).2) as Hr'.
  { subst r'. unfold InMemoryWorkflowRepository.update.
    rewrite dict_set_list_to_map, Hby, Hr, Hid1. by rewrite insert_insert_eq. }
  split; [done|].
  apply list_complete.
  - done.
  - subst r'. unfold InMemoryWorkflowRepository.update. cbn [ListQuery.limit].
    assert (is_Some (dict_get (Workflow.id wf') r)) as Hb
      by (rewrite dict_get_list_to_map, Hr, Hk; eauto).
    by rewrite (proj2 (dict_set_bound (Workflow.id wf') wf' r Hb)).
  - apply (list_elem_of_fmap_2' snd _ (Workflow.id wf', wf')); [|done].
    apply (elem_of_list_to_map_2 (M:=gmap string)). by rewrite Hr'.
  - unfold matches. simpl. split_and!; try done.
    + intros s [= <-] _. by rewrite Hst.
    + intros s [= <-]. rewrite Hres. by rewrite lookup_insert_eq.
Qed.

Lemma updated_workflow_is_listed_witness :
  Sample.wf_in Sample.running_once
  ∈ InMemoryWorkflowRepository.list SampleRepo.lower
      (ListQuery.mk None None None None None (Some CertificationStage.CODE_QUALITY)
         (Some "running") 50 0)
      (InMemoryWorkflowRepository.update (Sample.wf_in Sample.running_once)
         [("wf-1", Sample.wf_in (Sample.created Sample.req_one))]).
Proof.
  apply (updated_workflow_is_listed SampleRepo.lower "wf-1"
           (Sample.report CertificationStage.CODE_QUALITY StageStatus.RUNNING)
           (Sample.created Sample.req_one)
           [("wf-1", Sample.wf_in (Sample.created Sample.req_one))]
           (Sample.wf_in Sample.running_once) 50);
    [reflexivity | reflexivity | reflexivity | simpl; lia].
Defined.

(** ** Elapsed time *)

Lemma binary_round_aux_signed sx mx ex lx : signed sx (binary_round_aux 53 1024 sx mx ex lx).
Proof.
  unfold binary_round_aux.
  destruct (shr_fexp 53 1024 mx ex lx) as [mrs' e'].
  destruct (shr_fexp 53 1024 _ e' loc_Exact) as [mrs'' e''].
  destruct (shr_m mrs''); [done| |done]. by destruct (_ <=? _)%Z.
Qed.

Lemma b64_of_int_signed z : signed (bool_decide (z < 0)%Z) (b64_of_int z).
Proof.
  unfold b64_of_int, binary_normalize, binary_round. destruct z as [|p|p]; [done| |].
  - destruct (shl_align _ _ _). apply binary_round_aux_signed.
  - destruct (shl_align _ _ _). apply binary_round_aux_signed.
Qed.

Lemma SFdiv_signed sx sy x y :
  signed sx x → signed sy y → signed (xorb sx sy) (SFdiv 53 1024 x y).
Proof.
  unfold SFdiv.
  destruct x as [s1|s1| |s1 m1 e1], y as [s2|s2| |s2 m2 e2];
    try (simpl; intros; subst; done).
  intros Hx Hy. simpl in Hx, Hy. subst.
  destruct (SFdiv_core_binary _ _ _ _ _ _) as [[mz ez] lz].
  apply binary_round_aux_signed.
Qed.

Lemma SFmul_signed sx sy x y :
  signed sx x → signed sy y → signed (xorb sx sy) (SFmul 53 1024 x y).
Proof.
  unfold SFmul.
  destruct x as [s1|s1| |s1 m1 e1], y as [s2|s2| |s2 m2 e2];
    try (simpl; intros; subst; done).
  intros Hx Hy. simpl in Hx, Hy. subst. apply binary_round_aux_signed.
Qed.

Lemma int_of_float_signed sx f :
  signed sx f → if sx then (int_of_float f ≤ 0)%Z else (0 ≤ int_of_float f)%Z.
Proof.
  destruct f as [s|s| |s m e]; simpl; try (destruct sx; lia).
  intros ->.
  assert (0 ≤ match e with
              | 0 => Z.pos m
              | Z.pos p => Z.pos m * 2 ^ Z.pos p
              | Z.neg p => Z.pos m / 2 ^ Z.pos p
              end)%Z as Ha.
  { destruct e; [lia| |].
    - apply Z.mul_nonneg_nonneg; [lia|]. apply Z.pow_nonneg. lia.
    - apply Z.div_pos; [lia|]. apply Z.pow_pos_nonneg; lia. }
  destruct sx; lia.
Qed.

Lemma elapsed_signed started finished :
  if bool_decide (finished - started < 0)%Z
  then (elapsed_ms started finished ≤ 0)%Z
  else (0 ≤ elapsed_ms started finished)%Z.
Proof.
  unfold elapsed_ms, total_seconds.
  pose proof (int_of_float_signed _ _
    (SFmul_signed _ _ _ _
       (SFdiv_signed _ _ _ _ (b64_of_int_signed (finished - started))
          (b64_of_int_signed 1000000))
       (b64_of_int_signed 1000))) as H.
  change (bool_decide (1000000 < 0)%Z) with false in H.
  change (bool_decide (1000 < 0)%Z) with false in H.
  by rewrite !xorb_false_r in H.
Qed.

Lemma elapsed_ms_nonneg_aux started finished :
  (started ≤ finished)%Z → (0 ≤ elapsed_ms started finished)%Z.
Proof.
  intros H. pose proof (elapsed_signed started finished) as Hs.
  rewrite bool_decide_eq_false_2 in Hs by lia. done.
Qed.

(** X13: the duration computed from two time stamps has the sign of their
    difference: it is not negative when the finish is not before the start,
    not positive when it is, and zero when both are equal. *)
Theorem elapsed_ms_sign (started finished : datetime) :
  ((started ≤ finished)%Z → (0 ≤ elapsed_ms started finished)%Z)
  ∧ ((finished ≤ started)%Z → (elapsed_ms started finished ≤ 0)%Z)
  ∧ elapsed_ms started started = 0%Z.
Proof.
  split_and!.
  - apply elapsed_ms_nonneg_aux.
  - intros H. pose proof (elapsed_signed started finished) as Hs.
    case_bool_decide; [done|].
    assert (finished = started) as -> by lia.
    unfold elapsed_ms. by rewrite Z.sub_diag.
  - unfold elapsed_ms. by rewrite Z.sub_diag.
Qed.

(** ** From the request to the end of the advancement sequence *)

Lemma create_workflow_frame req new_id w :
  let wf := (create_workflow req new_id w).1 in
  let w1 := (create_workflow req new_id w).2 in
  by_id w1 !! new_id = Some wf
  ∧ Workflow.id wf = new_id
  ∧ Workflow.stages wf = resolve_stages req
  ∧ Workflow.git wf = WorkflowCreateRequest.git req
  ∧ Workflow.metadata wf = default ∅ (WorkflowCreateRequest.metadata req)
  ∧ Workflow.notification wf = WorkflowCreateRequest.notification req
  ∧ Workflow.stage_results wf = init_stage_results (resolve_stages req)
  ∧ sent w1 = (sent w ++ if on_start_requested (WorkflowCreateRequest.notification req)
                         then [created_message wf] else [])%list
  ∧ exec_calls w1 = exec_calls w
  ∧ clock w1 = clock w
  ∧ clock_reads w1 = (clock_reads w + 2)%nat.
Proof.
  unfold create_workflow, on_start_requested, notify. simpl.
  destruct (WorkflowCreateRequest.notification req) as [c|]; simpl.
  - destruct (NotificationConfig.on_start c); simpl;
      rewrite ?app_nil_r, lookup_insert_eq; split_and!; try done; lia.
  - rewrite app_nil_r, lookup_insert_eq. split_and!; try done; lia.
Qed.

Lemma created_bound req new_id w s :
  s ∈ Workflow.stages (create_workflow req new_id w).1 →
  is_Some (Workflow.stage_results (create_workflow req new_id w).1
             !! CertificationStage.value s).
Proof.
  destruct (create_workflow_frame req new_id w) as (_ & _ & Hst & _ & _ & _ & Hres & _).
  rewrite Hst, Hres. intros Hs.
  destruct (init_stage_results_planned _ _ Hs) as (r & -> & _). eauto.
Qed.

(** X14: over the life of a workflow that runs undisturbed the notifier is
    handed at most two messages: the creation message if and only if the
    request asks for [on_start], then the completion message if and only if
    it asks for [on_finish].  A failing stage sends nothing of its own: the
    flag [on_failure] is never read. *)
Theorem lifecycle_notifications (exec_client : ExecClient)
    (req : WorkflowCreateRequest.t) (new_id : string) (w : World) :
  let created := create_workflow req new_id w in
  let w' := (_kickoff_stages exec_client new_id created.2).2 in
  ∃ wf',
    get_workflow new_id w' = Some wf'
    ∧ sent w'
      = (sent w
         ++ (if on_start_requested (WorkflowCreateRequest.notification req)
             then [created_message created.1] else [])
         ++ (if on_finish_requested (WorkflowCreateRequest.notification req)
             then [finished_message wf'] else []))%list.
Proof.
  intros created w'.
  destruct (create_workflow_frame req new_id w)
    as (Hget & _ & _ & _ & _ & Hn & _ & Hsent & _).
  destruct (kickoff_outcomes exec_client new_id created.2 created.1 Hget
              (created_bound req new_id w))
    as (wf' & w2 & Hk & Hget' & _ & _ & Hsent' & _).
  exists wf'. subst w'. rewrite Hk. simpl. split; [done|].
  rewrite Hsent'. fold created in Hsent, Hn. rewrite Hsent, Hn. by rewrite <- app_assoc.
Qed.

(** X15: the advancement sequence calls the executor once for every
    position of the plan, a stage listed twice being submitted twice, and
    reads the clock once before the loop and four times in each round. *)
Theorem kickoff_one_call_per_stage (exec_client : ExecClient) (workflow_id : string)
    (w : World) (wf : Workflow.t) :
  get_workflow workflow_id w = Some wf →
  (∀ s, s ∈ Workflow.stages wf →
        is_Some (Workflow.stage_results wf !! CertificationStage.value s)) →
  let w' := (_kickoff_stages exec_client workflow_id w).2 in
  exec_calls w' = (exec_calls w + length (Workflow.stages wf))%nat
  ∧ clock_reads w' = (clock_reads w + 1 + 4 * length (Workflow.stages wf))%nat
  ∧ clock w' = clock w.
Proof.
  intros Hget Hbound w'.
  destruct (kickoff_outcomes exec_client workflow_id w wf Hget Hbound)
    as (wf' & w2 & Hk & _ & _ & _ & _ & He & Hr & Hc & _).
  subst w'. by rewrite Hk.
Qed.

Lemma kickoff_one_call_per_stage_witness :
  exec_calls (_kickoff_stages Sample.boom_first "wf-1" (Sample.created Sample.req_two)).2
  = 2%nat.
Proof.
  apply (kickoff_one_call_per_stage Sample.boom_first "wf-1"
           (Sample.created Sample.req_two)
           (Sample.wf_in (Sample.created Sample.req_two))); [reflexivity|].
  apply (created_bound Sample.req_two "wf-1" Sample.world).
Defined.

Lemma compute_overall_status_succeeded m :
  m ≠ ∅ →
  (∀ k r, m !! k = Some r → StageResult.status r = StageStatus.SUCCEEDED) →
  compute_overall_status m = WorkflowStatus.SUCCEEDED.
Proof.
  intros Hne Hall.
  apply (deriveStatus_functional m); [apply deriveStatus_computed|].
  apply derive_succeeded; [|done|done].
  intros (k & r & Hr & Hst). by rewrite (Hall k r Hr) in Hst.
Qed.

Lemma created_nonempty req new_id w :
  Workflow.stage_results (create_workflow req new_id w).1 ≠ ∅.
Proof.
  destruct (create_workflow_frame req new_id w) as (_ & _ & Hst & _ & _ & _ & Hres & _).
  pose proof (resolve_stages_nonempty req) as Hne.
  destruct (resolve_stages req) as [|s l] eqn:E; [done|].
  destruct (init_stage_results_planned (s :: l) s) as (r & Hr & _); [left|].
  rewrite Hres. intros Hempty. by rewrite Hempty in Hr.
Qed.

Lemma created_keys req new_id w wf' key :
  evolves (create_workflow req new_id w).1 wf' →
  is_Some (Workflow.stage_results wf' !! key) →
  ∃ s, s ∈ resolve_stages req ∧ key = CertificationStage.value s.
Proof.
  intros (_ & _ & _ & _ & Hdom & _) Hkey.
  destruct (create_workflow_frame req new_id w) as (_ & _ & _ & _ & _ & _ & Hres & _).
  apply elem_of_dom in Hkey. rewrite Hdom, Hres, init_stage_results_dom in Hkey.
  apply elem_of_list_to_set, list_elem_of_fmap in Hkey as (s & -> & Hs). eauto.
Qed.

(** X16: when every call of the executor returns, a workflow that runs
    undisturbed ends up [succeeded]: every entry has status [succeeded], the
    reference that the executor returned for the workflow's identifier, git
    data and metadata, both time stamps and a duration, which is not negative
    if the clock does not run backwards. *)
Theorem kickoff_all_succeed (exec_client : ExecClient)
    (req : WorkflowCreateRequest.t) (new_id : string) (w : World) :
  (∀ n k s g m, ∃ ref, exec_client n k s g m = Returned ref) →
  let created := create_workflow req new_id w in
  ∃ w' wf',
    _kickoff_stages exec_client new_id created.2 = (true, w')
    ∧ get_workflow new_id w' = Some wf'
    ∧ Workflow.status wf' = WorkflowStatus.SUCCEEDED
    ∧ ∀ key r, Workflow.stage_results wf' !! key = Some r →
        StageResult.status r = StageStatus.SUCCEEDED
        ∧ (∃ n s, key = CertificationStage.value s
                  ∧ exec_client n new_id s (WorkflowCreateRequest.git req)
                      (default ∅ (WorkflowCreateRequest.metadata req))
                    = Returned (default "" (StageResult.executor_ref r))
                  ∧ is_Some (StageResult.executor_ref r))
        ∧ (∃ t0 t d, StageResult.started_at r = Some t0
                     ∧ StageResult.finished_at r = Some t
                     ∧ StageResult.duration_ms r = Some d
                     ∧ d = elapsed_ms t0 t
                     ∧ ((∀ i j, (i ≤ j)%nat → (clock w i ≤ clock w j)%Z) → (0 ≤ d)%Z)).
Proof.
  intros Hok created. subst created.
  destruct (create_workflow_frame req new_id w)
    as (Hget & Hid & Hst & Hg & Hm & _ & _ & _ & He & Hc & Hr).
  destruct (kickoff_outcomes exec_client new_id _ _ Hget
              (created_bound req new_id w))
    as (wf' & w2 & Hk & Hget' & Hev & _ & _ & _ & _ & _ & Hstatus & Hout).
  assert (∀ key r, Workflow.stage_results wf' !! key = Some r →
            ∃ i s ref sr,
              key = CertificationStage.value s
              ∧ exec_client (exec_calls w + i)%nat new_id s (WorkflowCreateRequest.git req)
                  (default ∅ (WorkflowCreateRequest.metadata req)) = Returned ref
              ∧ r = settled_entry (Returned ref)
                      (clock w (clock_reads w + 2 + 1 + 4 * i + 2)%nat)
                      (StageResult.set_started_at
                         (Some (clock w (clock_reads w + 2 + 1 + 4 * i)%nat))
                         (StageResult.set_status StageStatus.RUNNING sr))) as Hentry.
  { intros key r Hkey.
    destruct (created_keys req new_id w wf' key Hev) as (s & Hs & ->); [eauto|].
    rewrite <- Hst in Hs. destruct (last_occurrence _ _ Hs) as (i & Hi & Hlast).
    destruct (Hout i s Hi Hlast) as (sr & Hent & _).
    rewrite Hkey, Hid, Hg, Hm, He, Hc, Hr in Hent.
    destruct (Hok (exec_calls w + i)%nat new_id s (WorkflowCreateRequest.git req)
                (default ∅ (WorkflowCreateRequest.metadata req))) as [ref Href].
    rewrite Href in Hent. simplify_eq. by exists i, s, ref, sr. }
  exists w2, wf'. split_and!; [done|done| |].
  - rewrite Hstatus by (rewrite Hst; apply resolve_stages_nonempty).
    apply compute_overall_status_succeeded.
    + intros Hempty. apply (created_nonempty req new_id w).
      destruct Hev as (_ & _ & _ & _ & Hdom & _).
      apply dom_empty_inv_L. rewrite <- Hdom, Hempty. apply dom_empty_L.
    + intros key r Hkey. by destruct (Hentry key r Hkey) as (i & s & ref & sr & _ & _ & ->).
  - intros key r Hkey. destruct (Hentry key r Hkey) as (i & s & ref & sr & -> & Hcall & ->).
    split_and!; [done| |].
    + exists (exec_calls w + i)%nat, s. simpl. eauto.
    + eexists _, _, _. simpl. split_and!; try done.
      intros Hmono. apply elapsed_ms_nonneg_aux, Hmono. lia.
Qed.

Lemma kickoff_all_succeed_witness :
  ∃ w' wf',
    _kickoff_stages trigger_stage "wf-1" (Sample.created Sample.req_core) = (true, w')
    ∧ get_workflow "wf-1" w' = Some wf'
    ∧ Workflow.status wf' = WorkflowStatus.SUCCEEDED.
Proof.
  destruct (kickoff_all_succeed trigger_stage Sample.req_core "wf-1" Sample.world)
    as (w' & wf' & H1 & H2 & H3 & _).
  - intros n k s g m. eexists. reflexivity.
  - exists w', wf'. exact (conj H1 (conj H2 H3)).
Defined.

Lemma compute_overall_status_failed_iff m :
  compute_overall_status m = WorkflowStatus.FAILED ↔ has_status StageStatus.FAILED m.
Proof.
  split.
  - intros H. pose proof (deriveStatus_computed m) as Hd. rewrite H in Hd.
    by inversion Hd.
  - intros (k & r & Hr & Hst). by eapply compute_overall_status_failed.
Qed.

Lemma NoDup_lookup_alone {A} (l : list A) i x :
  NoDup l → l !! i = Some x → (x ∉ drop (S i) l) ∧ (x ∉ take i l).
Proof.
  intros Hnd Hi. split.
  - intros Hin. apply list_elem_of_lookup in Hin as [j Hj].
    rewrite lookup_drop in Hj. pose proof (NoDup_lookup _ _ _ _ Hnd Hi Hj). lia.
  - intros Hin. apply list_elem_of_lookup in Hin as [j Hj].
    apply lookup_take_Some in Hj as [Hj Hlt].
    pose proof (NoDup_lookup _ _ _ _ Hnd Hi Hj). lia.
Qed.

(** X17: when no stage is planned twice, a workflow that runs undisturbed
    shows for each stage the outcome of its own executor call, call number
    [i] being made for position [i] of the plan: a returned reference gives a
    [succeeded] entry with that reference and a duration, an exception a
    [failed] entry with its text and no duration.  The workflow ends up
    [failed] if some call raised and [succeeded] if none did. *)
Theorem kickoff_final_status (exec_client : ExecClient)
    (req : WorkflowCreateRequest.t) (new_id : string) (w : World) :
  NoDup (resolve_stages req) →
  let created := create_workflow req new_id w in
  let outcome (i : nat) (s : CertificationStage.t) :=
    exec_client (exec_calls w + i)%nat new_id s (WorkflowCreateRequest.git req)
      (default ∅ (WorkflowCreateRequest.metadata req)) in
  ∃ w' wf',
    _kickoff_stages exec_client new_id created.2 = (true, w')
    ∧ get_workflow new_id w' = Some wf'
    ∧ (∀ i s, resolve_stages req !! i = Some s →
         ∃ r, Workflow.stage_results wf' !! CertificationStage.value s = Some r
              ∧ match outcome i s with
                | Returned ref =>
                    StageResult.status r = StageStatus.SUCCEEDED
                    ∧ StageResult.executor_ref r = Some ref
                    ∧ StageResult.error_message r = None
                    ∧ is_Some (StageResult.duration_ms r)
                | Raised description =>
                    StageResult.status r = StageStatus.FAILED
                    ∧ StageResult.error_message r = Some description
                    ∧ StageResult.executor_ref r = None
                    ∧ StageResult.duration_ms r = None
                end)
    ∧ (Workflow.status wf' = WorkflowStatus.FAILED
       ↔ ∃ i s description,
           resolve_stages req !! i = Some s ∧ outcome i s = Raised description)
    ∧ (Workflow.status wf' = WorkflowStatus.SUCCEEDED
       ↔ ∀ i s, resolve_stages req !! i = Some s → ∃ ref, outcome i s = Returned ref).
Proof.
  intros Hnd created outcome. subst created.
  destruct (create_workflow_frame req new_id w)
    as (Hget & Hid & Hst & Hg & Hm & _ & Hres & _ & He & Hc & Hr).
  destruct (kickoff_outcomes exec_client new_id _ _ Hget (created_bound req new_id w))
    as (wf' & w2 & Hk & Hget' & Hev & _ & _ & _ & _ & _ & Hstatus & Hout).
  assert (Workflow.status wf' = compute_overall_status (Workflow.stage_results wf'))
    as Hstatus' by (apply Hstatus; rewrite Hst; apply resolve_stages_nonempty).
  assert (∀ i s, resolve_stages req !! i = Some s →
            ∃ t0 t s0,
              Workflow.stage_results wf' !! CertificationStage.value s
              = Some (settled_entry (outcome i s) t
                        (StageResult.set_started_at (Some t0)
                           (StageResult.set_status StageStatus.RUNNING
                              (new_stage_result s0))))) as Hentry.
  { intros i s Hi. rewrite <- Hst in Hi, Hnd.
    destruct (NoDup_lookup_alone _ _ _ Hnd Hi) as [Hafter Hbefore].
    destruct (Hout i s Hi Hafter) as (sr & Hent & Horig).
    specialize (Horig Hbefore). rewrite Hres in Horig.
    apply init_stage_results_entry in Horig as (s0 & _ & _ & ->).
    rewrite Hid, Hg, Hm, He in Hent. eauto. }
  assert (∀ i s, resolve_stages req !! i = Some s →
            ∃ r, Workflow.stage_results wf' !! CertificationStage.value s = Some r
                 ∧ match outcome i s with
                   | Returned ref =>
                       StageResult.status r = StageStatus.SUCCEEDED
                       ∧ StageResult.executor_ref r = Some ref
                       ∧ StageResult.error_message r = None
                       ∧ is_Some (StageResult.duration_ms r)
                   | Raised description =>
                       StageResult.status r = StageStatus.FAILED
                       ∧ StageResult.error_message r = Some description
                       ∧ StageResult.executor_ref r = None
                       ∧ StageResult.duration_ms r = None
                   end) as Hfields.
  { intros i s Hi. destruct (Hentry i s Hi) as (t0 & t & s0 & Hent).
    eexists. split; [exact Hent|]. destruct (outcome i s); simpl; eauto. }
  assert (∀ key r, Workflow.stage_results wf' !! key = Some r →
            ∃ i s, resolve_stages req !! i = Some s
                   ∧ key = CertificationStage.value s) as Hkeys.
  { intros key r Hkey.
    destruct (created_keys req new_id w wf' key Hev) as (s & Hs & ->); [eauto|].
    apply list_elem_of_lookup in Hs as [i Hi]. eauto. }
  exists w2, wf'. rewrite Hstatus'. split_and!; [done|done|exact Hfields| |].
  - rewrite compute_overall_status_failed_iff. split.
    + intros (key & r & Hkey & Hfailed).
      destruct (Hkeys key r Hkey) as (i & s & Hi & ->).
      destruct (Hfields i s Hi) as (r' & Hr' & Hcase). simplify_eq.
      destruct (outcome i s) as [ref|description] eqn:Ho.
      * destruct Hcase as [Hs _]. congruence.
      * eauto.
    + intros (i & s & description & Hi & Ho).
      destruct (Hfields i s Hi) as (r & Hr' & Hcase). rewrite Ho in Hcase.
      exists (CertificationStage.value s), r. by destruct Hcase.
  - split.
    + intros Hsucc i s Hi.
      destruct (Hfields i s Hi) as (r & Hr' & Hcase).
      destruct (outcome i s) as [ref|description] eqn:Ho; [eauto|].
      destruct Hcase as [Hf _].
      by rewrite (compute_overall_status_failed _ _ _ Hr' Hf) in Hsucc.
    + intros Hall. apply compute_overall_status_succeeded.
      * intros Hempty. apply (created_nonempty req new_id w).
        destruct Hev as (_ & _ & _ & _ & Hdom & _).
        apply dom_empty_inv_L. rewrite <- Hdom, Hempty. apply dom_empty_L.
      * intros key r Hkey. destruct (Hkeys key r Hkey) as (i & s & Hi & ->).
        destruct (Hfields i s Hi) as (r' & Hr' & Hcase). simplify_eq.
        destruct (Hall i s Hi) as [ref Ho]. rewrite Ho in Hcase. by destruct Hcase.
Qed.

Lemma kickoff_final_status_witness :
  ∃ w' wf',
    _kickoff_stages Sample.boom_first "wf-1" (Sample.created Sample.req_two) = (true, w')
    ∧ get_workflow "wf-1" w' = Some wf'
    ∧ Workflow.status wf' = WorkflowStatus.FAILED.
Proof.
  destruct (kickoff_final_status Sample.boom_first Sample.req_two "wf-1" Sample.world)
    as (w' & wf' & H1 & H2 & _ & H3 & _).
  - simpl. repeat constructor; set_solver.
  - exists w', wf'. refine (conj H1 (conj H2 _)). apply H3.
    exists 0%nat, CertificationStage.CODE_QUALITY, "boom". split; reflexivity.
Defined.

(** ** The aggregate status *)

Lemma compute_overall_status_range m :
  compute_overall_status m ≠ WorkflowStatus.QUEUED
  ∧ compute_overall_status m ≠ WorkflowStatus.CANCELLED.
Proof.
  unfold compute_overall_status. cbv zeta.
  repeat match goal with |- context [if ?b then _ else _] => destruct b end; done.
Qed.

(** X18: between any two events of the running service no stored workflow
    shows the status [queued] or [cancelled]: the status is always the
    aggregate of the entries, which is never one of the two.  (The task sets
    [queued] and replaces it by the aggregate before it first suspends.) *)
Theorem stored_status_never_queued (st : Sys) (k : string) (wf : Workflow.t) :
  reachable st →
  get_workflow k (world st) = Some wf →
  Workflow.status wf ≠ WorkflowStatus.QUEUED
  ∧ Workflow.status wf ≠ WorkflowStatus.CANCELLED.
Proof.
  intros Hreach Hwf. apply reachable_invariant in Hreach as [Hstore _].
  destruct (Hstore k wf Hwf) as [_ Hc]. rewrite Hc. apply compute_overall_status_range.
Qed.

Lemma stored_status_never_queued_witness :
  Workflow.status (Sample.wf_in (world (Sample.after [Create Sample.req_two "wf-1";
                                                       Start "wf-1"])))
  ≠ WorkflowStatus.QUEUED.
Proof.
  apply (stored_status_never_queued
           (Sample.after [Create Sample.req_two "wf-1"; Start "wf-1"]) "wf-1").
  - apply reachable_after. vm_compute. eauto.
  - vm_compute. reflexivity.
Defined.

(** X19: the aggregate status is [created] exactly when every entry is
    [pending] or [cancelled]; so a workflow whose stages were all cancelled
    counts as [created], and so does one without entries. *)
Theorem compute_overall_status_created_iff (results : gmap string StageResult.t) :
  compute_overall_status results = WorkflowStatus.CREATED
  ↔ ∀ k r, results !! k = Some r →
           StageResult.status r = StageStatus.PENDING
           ∨ StageResult.status r = StageStatus.CANCELLED.
Proof.
  split.
  - intros H. pose proof (deriveStatus_computed results) as Hd. rewrite H in Hd.
    inversion Hd as [| | | |Hnf Hns Hnr Hnst]. intros k r Hr.
    destruct (StageResult.status r) eqn:Hst; [by left| | | | |by right]; exfalso.
    + apply Hnr. by exists k, r.
    + apply Hnst. exists k, r. split; [done|]. rewrite Hst. set_solver.
    + apply Hnf. by exists k, r.
    + apply Hnst. exists k, r. split; [done|]. rewrite Hst. set_solver.
  - intros Hall. apply (deriveStatus_functional results); [apply deriveStatus_computed|].
    apply derive_created.
    + intros (k & r & Hr & Hst). destruct (Hall k r Hr); congruence.
    + intros [Hs Hne]. apply map_choose in Hne as (k & r & Hr).
      specialize (Hs k r Hr). destruct (Hall k r Hr); congruence.
    + intros (k & r & Hr & Hst). destruct (Hall k r Hr); congruence.
    + intros (k & r & Hr & Hst). destruct (Hall k r Hr) as [H|H]; rewrite H in Hst;
        set_solver.
Qed.

(** ** The running service *)

(** X20: in the running service the look-up [wf.stage_results[s.value]] of
    the loop never raises: no task is ever left by a [KeyError], and a task
    that waits for an executor call or for the simulated execution finds its
    workflow stored and the entry of its stage bound. *)
Theorem task_never_crashes (st : Sys) (k : string) :
  reachable st →
  tasks st !! k ≠ Some Crashed
  ∧ ∀ s rest,
      tasks st !! k = Some (AwaitTrigger s rest) ∨ tasks st !! k = Some (AwaitSleep s rest) →
      ∃ wf sr,
        get_workflow k (world st) = Some wf
        ∧ Workflow.stage_results wf !! CertificationStage.value s = Some sr
        ∧ ∀ s', s' ∈ rest →
            is_Some (Workflow.stage_results wf !! CertificationStage.value s').
Proof.
  intros Hreach. split; [by apply reachable_no_crash|].
  intros s rest Ht. apply reachable_invariant in Hreach as [Hstore Htasks].
  destruct Ht as [Ht | Ht]; destruct (Htasks k _ Ht) as (wf & Hwf & [sr Hsr] & Hrest);
    destruct (Hstore k wf Hwf) as [(_ & _ & Hb) _];
    exists wf, sr; split_and!; try done; intros s' Hs'; by apply Hb, Hrest.
Qed.

Lemma task_never_crashes_witness :
  tasks (Sample.after Sample.first_call_fails) !! "wf-1" ≠ Some Crashed.
Proof.
  apply (task_never_crashes (Sample.after Sample.first_call_fails) "wf-1").
  apply reachable_after. vm_compute. eauto.
Defined.

(** X21: at every observation point of the running service, whatever the
    order in which reports and executor outcomes arrived, an entry that
    carries a duration carries both time stamps. *)
Theorem duration_implies_time_stamps (st : Sys) (k key : string) (wf : Workflow.t)
    (sr : StageResult.t) :
  reachable st →
  get_workflow k (world st) = Some wf →
  Workflow.stage_results wf !! key = Some sr →
  is_Some (StageResult.duration_ms sr) →
  is_Some (StageResult.started_at sr) ∧ is_Some (StageResult.finished_at sr).
Proof. apply reachable_entries_sound. Qed.

Lemma duration_implies_time_stamps_witness :
  ∃ sr,
    Workflow.stage_results
      (Sample.wf_in (world (Sample.after [Create Sample.req_one "wf-1"; Start "wf-1";
                                          TriggerReturned "wf-1" "exec-1";
                                          SleepDone "wf-1"])))
      !! "code_quality" = Some sr
    ∧ is_Some (StageResult.started_at sr)
    ∧ is_Some (StageResult.finished_at sr).
Proof.
  eexists. split; [vm_compute; reflexivity|].
  apply (duration_implies_time_stamps
           (Sample.after [Create Sample.req_one "wf-1"; Start "wf-1";
                          TriggerReturned "wf-1" "exec-1"; SleepDone "wf-1"])
           "wf-1" "code_quality"
           (Sample.wf_in (world (Sample.after [Create Sample.req_one "wf-1"; Start "wf-1";
                                               TriggerReturned "wf-1" "exec-1";
                                               SleepDone "wf-1"])))).
  - apply reachable_after. vm_compute. eauto.
  - vm_compute. reflexivity.
  - vm_compute. reflexivity.
  - vm_compute. eauto.
Defined.

(** ** Workflows do not interfere *)

Lemma step_isolated e st st' k0 :
  invariant st → step e st = Some st' → target e ≠ k0 →
  by_id (world st') !! k0 = by_id (world st) !! k0
  ∧ tasks st' !! k0 = tasks st !! k0.
Proof.
  intros Hinv Hstep Hne.
  assert (task_event_effect (target e) st st' →
          by_id (world st') !! k0 = by_id (world st) !! k0
          ∧ tasks st' !! k0 = tasks st !! k0) as Htask.
  { intros (wf & wf' & t' & _ & Hby & _ & _ & Hts & _).
    rewrite Hby, Hts. by rewrite !lookup_insert_ne. }
  destruct e as [req new_id | k | k ref | k d | k | k req]; simpl in Hne.
  - cbn [step] in Hstep. destruct (by_id (world st) !! new_id); [done|].
    destruct (create_workflow_eq req new_id (world st)) as (t0 & t1 & Hwf & Hby).
    cbv zeta in Hwf, Hby.
    destruct (create_workflow req new_id (world st)) as [wf w] eqn:Hc.
    simpl in Hwf, Hby. simplify_eq. unfold set_task. simpl.
    rewrite Hby. by rewrite !lookup_insert_ne.
  - by apply Htask, step_start.
  - by eapply Htask, step_trigger_returned.
  - by eapply Htask, step_trigger_raised.
  - by apply Htask, step_sleep_done.
  - cbn [step] in Hstep. simplify_eq. simpl. split; [|done].
    destruct (by_id (world st) !! k) as [wf|] eqn:Hwf.
    + destruct (update_stage_status_found k req (world st) wf Hwf)
        as (wf' & _ & _ & _ & _ & _ & _ & _ & _ & Hby).
      destruct Hinv as [Hstore _]. destruct (Hstore k wf Hwf) as [(Hid & _) _].
      rewrite Hby, Hid. by rewrite !lookup_insert_ne.
    + by rewrite (update_stage_status_absent k req (world st) Hwf).
Qed.

(** X22: an event of the running service touches one workflow only.  The
    stored workflow and the task under every other identifier are after the
    event what they were before it. *)
Theorem step_isolation (e : Event) (st st' : Sys) (k0 : string) :
  reachable st → step e st = Some st' → target e ≠ k0 →
  get_workflow k0 (world st') = get_workflow k0 (world st)
  ∧ tasks st' !! k0 = tasks st !! k0.
Proof.
  intros Hreach. apply step_isolated. by apply reachable_invariant.
Qed.

Lemma step_isolation_witness :
  get_workflow "wf-2"
    (world (Sample.after [Create Sample.req_one "wf-1"; Create Sample.req_two "wf-2";
                          Start "wf-1"; TriggerRaised "wf-1" "boom"]))
  = get_workflow "wf-2"
      (world (Sample.after [Create Sample.req_one "wf-1"; Create Sample.req_two "wf-2";
                            Start "wf-1"])).
Proof.
  apply (step_isolation (TriggerRaised "wf-1" "boom")
           (Sample.after [Create Sample.req_one "wf-1"; Create Sample.req_two "wf-2";
                          Start "wf-1"])
           (Sample.after [Create Sample.req_one "wf-1"; Create Sample.req_two "wf-2";
                          Start "wf-1"; TriggerRaised "wf-1" "boom"])
           "wf-2").
  - apply reachable_after. vm_compute. eauto.
  - vm_compute. reflexivity.
  - discriminate.
Defined.

(** ** What is fixed at creation *)

Lemma on_slot_lookup k piece w wf :
  by_id w !! k = Some wf → by_id (on_slot k piece w) !! k = Some (piece wf w).1.
Proof.
  intros Hk. unfold on_slot. rewrite Hk. destruct (piece wf w) as [wf' w'].
  simpl. apply lookup_insert_eq.
Qed.

Lemma mark_queued_data wf w : request_data (mark_queued wf w).1 = request_data wf.
Proof. done. Qed.

Lemma recompute_and_persist_data wf w :
  request_data (recompute_and_persist wf w).1 = request_data wf.
Proof. done. Qed.

Lemma record_executor_ref_data s ref wf w :
  request_data (record_executor_ref s ref wf w).1 = request_data wf.
Proof. done. Qed.

Lemma stage_succeeded_data s wf w : request_data (stage_succeeded s wf w).1 = request_data wf.
Proof. done. Qed.

Lemma stage_failed_data s d wf w : request_data (stage_failed s d wf w).1 = request_data wf.
Proof. done. Qed.

Lemma next_stage_data k rest w wf :
  by_id w !! k = Some wf →
  ∃ wf', by_id (next_stage k rest w).2 !! k = Some wf'
         ∧ request_data wf' = request_data wf.
Proof.
  intros Hk. unfold next_stage. rewrite Hk. destruct rest as [|s rest'].
  - exists wf. simpl. by rewrite by_id_notify_finish.
  - unfold mark_running.
    destruct (Workflow.stage_results wf !! CertificationStage.value s); simpl.
    + eexists. split; [apply lookup_insert_eq|done].
    + by exists wf.
Qed.

Lemma update_stage_status_data k req w wf :
  by_id w !! k = Some wf →
  ∃ wf', by_id (update_stage_status k req w).2 !! k = Some wf'
         ∧ request_data wf' = request_data wf.
Proof.
  intros Hk. unfold update_stage_status, repo_get. rewrite Hk.
  destruct (apply_update req (fetch_sr req wf) w) as [sr w1]. simpl.
  eexists. split; [apply lookup_insert_eq|done].
Qed.

Lemma step_request_data e st st' k wf :
  invariant st → step e st = Some st' →
  by_id (world st) !! k = Some wf →
  ∃ wf', by_id (world st') !! k = Some wf' ∧ request_data wf' = request_data wf.
Proof.
  intros Hinv Hstep Hk.
  destruct (decide (target e = k)) as [Heq|Hne].
  2:{ destruct (step_isolated e st st' k Hinv Hstep Hne) as [Hby _].
      exists wf. by rewrite Hby. }
  destruct e as [req k0 | k0 | k0 ref | k0 d | k0 | k0 req]; simpl in Heq; subst k0;
    cbn [step] in Hstep.
  - by rewrite Hk in Hstep.
  - destruct (tasks st !! k) as [[]|]; try done. rewrite Hk in Hstep. simplify_eq.
    unfold set_task. simpl.
    pose proof (on_slot_lookup k mark_queued (world st) wf Hk) as H1.
    destruct (next_stage_data k (Workflow.stages wf) _ _ H1) as (wf' & H2 & Hd).
    exists wf'. split; [done|]. by rewrite Hd, mark_queued_data.
  - destruct (tasks st !! k) as [[]|]; try done. simplify_eq. unfold set_task. simpl.
    eexists. split; [apply on_slot_lookup; exact Hk|]. apply record_executor_ref_data.
  - destruct (tasks st !! k) as [[]|]; try done. simplify_eq. unfold set_task. simpl.
    pose proof (on_slot_lookup k (stage_failed s d) (answered (world st)) wf Hk) as H1.
    pose proof (on_slot_lookup k recompute_and_persist _ _ H1) as H2.
    destruct (next_stage_data k rest _ _ H2) as (wf' & H3 & Hd).
    exists wf'. split; [done|].
    by rewrite Hd, recompute_and_persist_data, stage_failed_data.
  - destruct (tasks st !! k) as [[]|]; try done. simplify_eq. unfold set_task. simpl.
    pose proof (on_slot_lookup k (stage_succeeded s) (world st) wf Hk) as H1.
    pose proof (on_slot_lookup k recompute_and_persist _ _ H1) as H2.
    destruct (next_stage_data k rest _ _ H2) as (wf' & H3 & Hd).
    exists wf'. split; [done|].
    by rewrite Hd, recompute_and_persist_data, stage_succeeded_data.
  - simplify_eq. simpl. by apply update_stage_status_data.
Qed.

Lemma run_request_data es :
  ∀ st st' k wf,
    invariant st → run es st = Some st' →
    by_id (world st) !! k = Some wf →
    ∃ wf', by_id (world st') !! k = Some wf' ∧ request_data wf' = request_data wf.
Proof.
  induction es as [|e es IH]; intros st st' k wf Hinv Hrun Hk; simpl in Hrun.
  - simplify_eq. eauto.
  - destruct (step e st) as [st1|] eqn:Hstep; [|done].
    destruct (step_request_data e st st1 k wf Hinv Hstep Hk) as (wf1 & Hk1 & Hd1).
    destruct (IH st1 st' k wf1) as (wf' & Hk' & Hd'); [by eapply step_spec|done..|].
    exists wf'. split; [done|]. congruence.
Qed.

(** X23: what [create_workflow] puts into a workflow from the request
    stays for good.  Whatever events follow, the workflow remains stored
    under its identifier (nothing is ever deleted) with the same identifier,
    correlation identifier, git data, domain, plan, creation time, metadata
    and notification configuration. *)
Theorem request_data_is_fixed (es : list Event) (st st' : Sys) (k : string)
    (wf : Workflow.t) :
  reachable st → run es st = Some st' →
  get_workflow k (world st) = Some wf →
  ∃ wf',
    get_workflow k (world st') = Some wf'
    ∧ Workflow.id wf' = Workflow.id wf
    ∧ Workflow.correlate_run_id wf' = Workflow.correlate_run_id wf
    ∧ Workflow.git wf' = Workflow.git wf
    ∧ Workflow.domain wf' = Workflow.domain wf
    ∧ Workflow.stages wf' = Workflow.stages wf
    ∧ Workflow.created_at wf' = Workflow.created_at wf
    ∧ Workflow.metadata wf' = Workflow.metadata wf
    ∧ Workflow.notification wf' = Workflow.notification wf.
Proof.
  intros Hreach Hrun Hk. apply reachable_invariant in Hreach.
  destruct (run_request_data es st st' k wf Hreach Hrun Hk) as (wf' & Hk' & Hd).
  exists wf'. split; [done|]. unfold request_data in Hd. by simplify_eq.
Qed.

Lemma request_data_is_fixed_witness :
  ∃ wf',
    get_workflow "wf-1" (world (Sample.after Sample.first_call_fails)) = Some wf'
    ∧ Workflow.git wf' = Sample.git.
Proof.
  destruct (request_data_is_fixed [Start "wf-1"; TriggerRaised "wf-1" "boom"]
              (Sample.after [Create Sample.req_two "wf-1"])
              (Sample.after Sample.first_call_fails) "wf-1"
              (Sample.wf_in (world (Sample.after [Create Sample.req_two "wf-1"]))))
    as (wf' & H1 & _ & _ & H2 & _).
  - apply reachable_after. vm_compute. eauto.
  - vm_compute. reflexivity.
  - vm_compute. reflexivity.
  - exists wf'. split; [exact H1|]. rewrite H2. reflexivity.
Defined.

(** ** Reports *)

(** X24: a report for an identifier that is not stored is answered with
    [None] and changes nothing, the clock is not even read; and [None] is
    the answer in this case only. *)
Theorem update_stage_status_unknown_workflow (workflow_id : string)
    (req : WorkflowUpdateStatusRequest.t) (w : World) :
  ((update_stage_status workflow_id req w).1 = None
   ↔ get_workflow workflow_id w = None)
  ∧ (get_workflow workflow_id w = None →
     (update_stage_status workflow_id req w).2 = w)
  ∧ (∀ wf', (update_stage_status workflow_id req w).1 = Some wf' →
            get_workflow workflow_id (update_stage_status workflow_id req w).2 = Some wf').
Proof.
  unfold get_workflow, repo_get.
  destruct (by_id w !! workflow_id) as [wf|] eqn:Hk.
  - destruct (update_stage_status_found workflow_id req w wf Hk) as (wf' & H1 & H2 & _).
    split_and!; [|done|].
    + rewrite H1. split; done.
    + intros wf''. rewrite H1. by intros [= <-].
  - rewrite (update_stage_status_absent workflow_id req w Hk). simpl.
    split_and!; done.
Qed.

(** X25: the time stamps a report leaves on the entry of its stage.  A
    report of [running] stamps the start time and keeps an earlier finish
    time and duration; a report of a final status stamps the finish time and
    stores the duration since the start time on record, or leaves the
    duration as it was when the stage has no start time; a report of
    [pending] changes no time stamp. *)
Theorem update_stage_status_time_stamps (workflow_id : string)
    (req : WorkflowUpdateStatusRequest.t) (w : World) (wf : Workflow.t) :
  get_workflow workflow_id w = Some wf →
  let now := clock w (clock_reads w) in
  let old := fetch_sr req wf in
  ∃ wf' sr',
    get_workflow workflow_id (update_stage_status workflow_id req w).2 = Some wf'
    ∧ Workflow.stage_results wf'
        !! CertificationStage.value (WorkflowUpdateStatusRequest.stage req) = Some sr'
    ∧ StageResult.started_at sr'
      = (if bool_decide (WorkflowUpdateStatusRequest.status req = StageStatus.RUNNING)
         then Some now else StageResult.started_at old)
    ∧ StageResult.finished_at sr'
      = (if is_terminal (WorkflowUpdateStatusRequest.status req)
         then Some now else StageResult.finished_at old)
    ∧ StageResult.duration_ms sr'
      = (if is_terminal (WorkflowUpdateStatusRequest.status req)
         then match StageResult.started_at old with
              | Some t0 => Some (elapsed_ms t0 now)
              | None => StageResult.duration_ms old
              end
         else StageResult.duration_ms old)
    ∧ (WorkflowUpdateStatusRequest.status req = StageStatus.PENDING →
       StageResult.started_at sr' = StageResult.started_at old
       ∧ StageResult.finished_at sr' = StageResult.finished_at old
       ∧ StageResult.duration_ms sr' = StageResult.duration_ms old).
Proof.
  intros Hwf now old.
  destruct (update_stage_status_entry workflow_id req w wf Hwf) as (wf' & Hget & Hent).
  exists wf', (apply_update req (fetch_sr req wf) w).1.
  rewrite apply_update_started_at, apply_update_finished_at, apply_update_duration_ms.
  split_and!; try done. by intros ->.
Qed.

Lemma update_stage_status_time_stamps_witness :
  let req := Sample.report CertificationStage.CODE_QUALITY StageStatus.RUNNING in
  ∃ wf' sr',
    get_workflow "wf-1" (update_stage_status "wf-1" req Sample.done_one).2 = Some wf'
    ∧ Workflow.stage_results wf' !! "code_quality" = Some sr'
    ∧ StageResult.started_at sr'
      = Some (clock Sample.done_one (clock_reads Sample.done_one))
    ∧ StageResult.finished_at sr'
      = StageResult.finished_at (fetch_sr req (Sample.wf_in Sample.done_one)).
Proof.
  intros req.
  destruct (update_stage_status_time_stamps "wf-1" req Sample.done_one
              (Sample.wf_in Sample.done_one))
    as (wf' & sr' & H1 & H2 & H3 & H4 & _); [vm_compute; reflexivity|].
  exists wf', sr'. exact (conj H1 (conj H2 (conj H3 H4))).
Defined.

(** ** The plan of a new workflow *)

(** X26: a request that names stages gets exactly these as its plan, in
    the order given and with repetitions kept, unless the list is empty: an
    empty list selects the defaults of the domain, like no list at all.  The
    plan is never empty, there is one [pending] entry per distinct planned
    stage, and the two time stamps of the new workflow are two successive
    readings of the clock. *)
Theorem create_workflow_explicit_stages (req : WorkflowCreateRequest.t)
    (new_id : string) (w : World) (l : list CertificationStage.t) :
  WorkflowCreateRequest.stages req = Some l →
  let wf := (create_workflow req new_id w).1 in
  Workflow.stages wf
  = (if bool_decide (l = [])
     then DEFAULT_STAGES_BY_DOMAIN (WorkflowCreateRequest.domain req) else l)
  ∧ Workflow.stages wf ≠ []
  ∧ dom (Workflow.stage_results wf)
    = list_to_set (CertificationStage.value <$> Workflow.stages wf)
  ∧ (NoDup (Workflow.stages wf) →
     size (Workflow.stage_results wf) = length (Workflow.stages wf))
  ∧ (∀ k r, Workflow.stage_results wf !! k = Some r →
            StageResult.status r = StageStatus.PENDING)
  ∧ Workflow.created_at wf = clock w (clock_reads w)
  ∧ Workflow.updated_at wf = clock w (S (clock_reads w)).
Proof.
  intros Hl wf. subst wf.
  destruct (create_workflow_frame req new_id w) as (_ & _ & Hst & _ & _ & _ & Hres & _).
  rewrite Hst, Hres. split_and!.
  - unfold resolve_stages. rewrite Hl. by destruct l.
  - apply resolve_stages_nonempty.
  - apply init_stage_results_dom.
  - intros Hnd. rewrite <- size_dom, init_stage_results_dom.
    rewrite size_list_to_set, length_fmap; [done|].
    apply NoDup_fmap_2; [|done]. intros s s'. apply CertificationStage_value_inj.
  - intros k r Hr. by apply init_stage_results_entry in Hr as (s & _ & _ & ->).
  - done.
  - done.
Qed.

Lemma create_workflow_explicit_stages_witness :
  Workflow.stages
    (create_workflow
       (WorkflowCreateRequest.mk Sample.git Domain.TRANSPORT (Some []) None None None)
       "wf-1" Sample.world).1
  = [CertificationStage.CODE_QUALITY; CertificationStage.SECURITY;
     CertificationStage.FUNCTIONAL; CertificationStage.PERFORMANCE].
Proof.
  apply (create_workflow_explicit_stages
           (WorkflowCreateRequest.mk Sample.git Domain.TRANSPORT (Some []) None None None)
           "wf-1" Sample.world []).
  reflexivity.
Defined.

(** ** A failed executor call, whatever came in between *)

(** X27: in the running service, when the executor call of a stage raises,
    the entry of the stage becomes [failed] with the text of the error and
    the workflow becomes [failed], whatever reports were delivered for the
    stage while the call was pending, and although the task goes on to start
    the next stage in the same step (the next stage being another one). *)
Theorem failed_call_fails_workflow (k description : string) (st st' : Sys)
    (s : CertificationStage.t) (rest : list CertificationStage.t) :
  reachable st →
  tasks st !! k = Some (AwaitTrigger s rest) →
  head rest ≠ Some s →
  step (TriggerRaised k description) st = Some st' →
  ∃ wf' r,
    get_workflow k (world st') = Some wf'
    ∧ Workflow.stage_results wf' !! CertificationStage.value s = Some r
    ∧ StageResult.status r = StageStatus.FAILED
    ∧ StageResult.error_message r = Some description
    ∧ Workflow.status wf' = WorkflowStatus.FAILED
    ∧ tasks st' !! k = Some (match rest with
                             | [] => Finished
                             | s' :: rest' => AwaitTrigger s' rest'
                             end).
Proof.
  intros Hreach Ht Hhead Hstep. apply reachable_invariant in Hreach as [Hstore Htasks].
  cbn [step] in Hstep. rewrite Ht in Hstep. simplify_eq.
  destruct (Htasks k _ Ht) as (wf & Hwf & [sr Hsr] & Hrest).
  destruct (Hstore k wf Hwf) as [(Hid & Hne & Hb) _].
  destruct (on_slot_stage_failed k s description (answered (world st)) wf Hwf)
    as (wf1 & Hby1 & Hent1 & _ & Hev1).
  set (w1 := on_slot k (stage_failed s description) (answered (world st))) in *.
  destruct (on_slot_recompute_and_persist k w1 wf1) as (wf2 & Hby2 & Hres2 & Hc2 & Hev2).
  { rewrite Hby1. apply lookup_insert_eq. }
  { eauto using evolves_id. }
  set (w2 := on_slot k recompute_and_persist w1) in *.
  assert (by_id w2 !! k = Some wf2) as Hk2 by (rewrite Hby2; apply lookup_insert_eq).
  assert (Workflow.stage_results wf2 !! CertificationStage.value s
          = Some (settled_entry (Raised description)
                    (clock (answered (world st)) (clock_reads (answered (world st)))) sr))
    as Hent2 by (by rewrite Hres2, Hent1, Hsr).
  unfold set_task, get_workflow, repo_get. cbn [world tasks fst snd].
  unfold next_stage. rewrite Hk2. destruct rest as [|s' rest'].
  - cbn [fst snd]. rewrite by_id_notify_finish, Hk2, lookup_insert_eq.
    eexists _, _. split_and!; [done|exact Hent2|done|done| |done].
    rewrite Hc2. by eapply compute_overall_status_failed.
  - assert (s' ≠ s) as Hss by (intros ->; by apply Hhead).
    destruct (evolves_bound wf wf2 (CertificationStage.value s')) as [sr' Hsr'].
    { eauto using evolves_trans. }
    { apply Hb, Hrest. left. }
    destruct (mark_running_spec s' wf2 w2 sr' Hsr')
      as (wf3 & w3 & -> & _ & _ & Hframe & Hc3 & _).
    cbn [fst snd mutate_in_place set_by_id by_id]. rewrite !lookup_insert_eq.
    assert (Workflow.stage_results wf3 !! CertificationStage.value s
            = Workflow.stage_results wf2 !! CertificationStage.value s) as Hent3.
    { apply Hframe. intros Heq. by apply CertificationStage_value_inj in Heq. }
    eexists _, _. split_and!; [done|by rewrite Hent3|done|done| |done].
    rewrite Hc3. eapply compute_overall_status_failed; [by rewrite Hent3|done].
Qed.

Lemma failed_call_fails_workflow_witness :
  ∃ wf',
    get_workflow "wf-1" (world (Sample.after Sample.first_call_fails)) = Some wf'
    ∧ Workflow.status wf' = WorkflowStatus.FAILED.
Proof.
  destruct (failed_call_fails_workflow "wf-1" "boom"
              (Sample.after [Create Sample.req_two "wf-1"; Start "wf-1"])
              (Sample.after Sample.first_call_fails)
              CertificationStage.CODE_QUALITY [CertificationStage.SECURITY])
    as (wf' & r & H1 & _ & _ & _ & H2 & _).
  - apply reachable_after. vm_compute. eauto.
  - vm_compute. reflexivity.
  - discriminate.
  - vm_compute. reflexivity.
  - exists wf'. exact (conj H1 H2).
Defined.
